(** * Handwriting synthesis: mixture-density heads, soft window, loss and sampling

    A shallow embedding of [model.py] (HandWritingRNN, HandWritingSynthRNN)
    and [train.py] (HandWritingData, mog_density_2d, criterion, train).

    Numbers.  Tensor entries are modelled in exact arithmetic: finite
    entries are real numbers, rounding and overflow are not modelled,
    except in [Float32], which rounds the elementwise functions of the
    output head to IEEE 754 binary32.
    [model.py] only uses operations that are total on the reals (linear
    maps, exp, tanh, sigmoid, softmax, sums and products), so its tensors
    are lists of [R].  [train.py] takes logarithms and quotients, which
    leave the finite values (log of 0, log of a negative number, division
    by 0); there the results live in [xreal], the reals extended with the
    IEEE special values +inf, -inf and NaN and their propagation rules.

    Tensors.  A tensor of rank k is a k-fold nested list in row-major
    order.  The functions are written for the dimensions their docstrings
    document; torch raises on other shapes, the theorems assume them. *)

From Stdlib Require Import String Bool Arith Reals Lra Lia List Permutation.
From Stdlib Require Import ZArith Classical Wf_nat.
Import ListNotations.
Local Open Scope R_scope.
Set Warnings "-register-all".

(** * Part I: the embedding *)

(** ** Extended reals: finite values and the IEEE special values *)

Module XReal.

Inductive xreal : Type :=
| Fin (r : R)
| PInf
| NInf
| NaN.

Inductive sign : Type := Neg | Zero | Pos.

Definition Rsign (r : R) : sign :=
  match total_order_T r 0 with
  | inleft (left _) => Neg
  | inleft (right _) => Zero
  | inright _ => Pos
  end.

Arguments Rsign : simpl never.

(** The sign of a value, [None] for NaN. *)
Definition xsign (a : xreal) : option sign :=
  match a with
  | Fin r => Some (Rsign r)
  | PInf => Some Pos
  | NInf => Some Neg
  | NaN => None
  end.

Definition xneg (a : xreal) : xreal :=
  match a with
  | Fin r => Fin (- r)
  | PInf => NInf
  | NInf => PInf
  | NaN => NaN
  end.

(** inf + (-inf) is NaN; an infinity absorbs finite values. *)
Definition xadd (a b : xreal) : xreal :=
  match a, b with
  | NaN, _ | _, NaN => NaN
  | Fin r, Fin s => Fin (r + s)
  | PInf, NInf | NInf, PInf => NaN
  | PInf, _ | _, PInf => PInf
  | NInf, _ | _, NInf => NInf
  end.

Definition xsub (a b : xreal) : xreal := xadd a (xneg b).

(** The infinity of a given sign; a zero sign is the invalid product
    or quotient (inf * 0), hence NaN. *)
Definition inf_of (s : sign) : xreal :=
  match s with
  | Pos => PInf
  | Neg => NInf
  | Zero => NaN
  end.

Definition sign_mul (s t : sign) : sign :=
  match s, t with
  | Zero, _ | _, Zero => Zero
  | Pos, Pos | Neg, Neg => Pos
  | Pos, Neg | Neg, Pos => Neg
  end.

Definition xmul (a b : xreal) : xreal :=
  match a, b with
  | Fin r, Fin s => Fin (r * s)
  | _, _ =>
      match xsign a, xsign b with
      | Some s, Some t => inf_of (sign_mul s t)
      | _, _ => NaN
      end
  end.

(** Division.  A finite nonzero value over 0 is an infinity of the sign of
    the numerator (the zero denominators that arise in [criterion] are
    positive zeros: differences of equal values and sums of zeros), 0/0 and
    inf/inf are NaN, a finite value over an infinity is 0. *)
Definition xdiv (a b : xreal) : xreal :=
  match a, b with
  | NaN, _ | _, NaN => NaN
  | Fin r, Fin s =>
      match Rsign s with
      | Zero => inf_of (Rsign r)
      | _ => Fin (r / s)
      end
  | Fin _, _ => Fin 0
  | _, Fin s =>
      match Rsign s, a with
      | Neg, _ => xneg a
      | _, _ => a
      end
  | _, _ => NaN
  end.

(** log 0 = -inf, the log of a negative number is NaN. *)
Definition xlog (a : xreal) : xreal :=
  match a with
  | Fin r =>
      match Rsign r with
      | Pos => Fin (ln r)
      | Zero => NInf
      | Neg => NaN
      end
  | PInf => PInf
  | NInf => NaN
  | NaN => NaN
  end.

Definition xexp (a : xreal) : xreal :=
  match a with
  | Fin r => Fin (exp r)
  | PInf => PInf
  | NInf => Fin 0
  | NaN => NaN
  end.

(** [Tensor.sum]: the order of summation is immaterial in exact
    arithmetic, see [xsum_perm]. *)
Definition xsum (l : list xreal) : xreal := fold_right xadd (Fin 0) l.

Definition is_finite (a : xreal) : Prop := exists r, a = Fin r.

End XReal.

Import XReal.

Declare Scope xreal_scope.
Delimit Scope xreal_scope with X.
Bind Scope xreal_scope with xreal.
Infix "+" := xadd : xreal_scope.
Infix "-" := xsub : xreal_scope.
Infix "*" := xmul : xreal_scope.
Infix "/" := xdiv : xreal_scope.
Notation "- a" := (xneg a) : xreal_scope.

(** ** Tensors as nested lists *)

Module Tensor.

(** Elementwise combination of two tensors of the same length. *)
Fixpoint map2 {A B C : Type} (f : A -> B -> C) (l : list A) (l' : list B)
  : list C :=
  match l, l' with
  | a :: t, b :: t' => f a b :: map2 f t t'
  | _, _ => []
  end.

Fixpoint map3 {A B C D : Type} (f : A -> B -> C -> D)
    (l : list A) (l' : list B) (l'' : list C) : list D :=
  match l, l', l'' with
  | a :: t, b :: t', c :: t'' => f a b c :: map3 f t t' t''
  | _, _, _ => []
  end.

(** [t.view(n * b, ...)] of a contiguous tensor of dimensions (n, b, ...):
    the first two axes are merged, row-major. *)
Definition view_rows {A : Type} (t : list (list A)) : list A := concat t.

(** [row.view(m, 2)] of a row of 2*m entries: consecutive entries are
    paired, entry 2k and entry 2k+1 are the two coordinates of
    component k. *)
Fixpoint view_pairs {A : Type} (row : list A) : list (A * A) :=
  match row with
  | a :: b :: rest => (a, b) :: view_pairs rest
  | _ => []
  end.

(** [t[a:b]] along the first axis. *)
Definition slice {A : Type} (a b : nat) (t : list A) : list A :=
  firstn (b - a) (skipn a t).

Definition Rsum (l : list R) : R := fold_right Rplus 0 l.

(** [rows.sum(dim=0)] of a matrix whose rows have [width] entries: the
    entrywise sum of the rows. *)
Definition sum_axis0 (width : nat) (rows : list (list R)) : list R :=
  fold_right (map2 Rplus) (repeat 0 width) rows.

(** [row[p]] for an index list [p] (advanced indexing along one axis):
    entry j of the result is entry [p[j]] of [row]. *)
Definition permute {A : Type} (d : A) (p : list nat) (row : list A) : list A :=
  map (fun i => nth i row d) p.

(** Dimension predicates. *)
Definition dims1 {A : Type} (n : nat) (t : list A) : Prop := length t = n.
Definition dims2 {A : Type} (n b : nat) (t : list (list A)) : Prop :=
  length t = n /\ Forall (dims1 b) t.
Definition dims3 {A : Type} (n b k : nat) (t : list (list (list A))) : Prop :=
  length t = n /\ Forall (dims2 b k) t.

End Tensor.

Import Tensor.

(** ** train.py: the mixture log-density and the sequence loss *)

Module Loss.

(** One mixture component of one row, as [mog_density_2d] sees it after
    broadcasting [x] against the component axis: the entry (i, k) of
    [log_densities] before the log-sum-exp. *)
Definition component_log_density
    (x : R * R) (log_pi : R) (mu sigma : R * R) (rho : R) : xreal :=
  let x_c0 := ((Fin (fst x) - Fin (fst mu)) / Fin (fst sigma))%X in
  let x_c1 := ((Fin (snd x) - Fin (snd mu)) / Fin (snd sigma))%X in
  let z := ((x_c0 * x_c0 + x_c1 * x_c1) - Fin 2 * Fin rho * x_c0 * x_c1)%X in
  ((- z / (Fin 2 * (Fin 1 - Fin rho * Fin rho)))
   - (Fin (ln (2 * PI)) + xlog (Fin (fst sigma)) + xlog (Fin (snd sigma))
      + Fin (/ 2) * xlog (Fin 1 - Fin rho * Fin rho))
   + Fin log_pi)%X.

(** [torch.logsumexp(t, dim=1)] of one row.  torch subtracts the row
    maximum before exponentiating; in exact arithmetic that is the log of
    the sum of the exponentials, also at the special values. *)
Definition logsumexp (row : list xreal) : xreal :=
  xlog (xsum (map xexp row)).

(** The components of one row: the zip of the rows of [log_pi], [mu],
    [sigma] and [rho] along the component axis. *)
Fixpoint components (log_pi : list R) (mu sigma : list (R * R)) (rho : list R)
  : list (R * (R * R) * (R * R) * R) :=
  match log_pi, mu, sigma, rho with
  | p :: log_pi', u :: mu', s :: sigma', r :: rho' =>
      (p, u, s, r) :: components log_pi' mu' sigma' rho'
  | _, _, _, _ => []
  end.

Definition row_log_density (x : R * R)
    (log_pi : list R) (mu sigma : list (R * R)) (rho : list R) : xreal :=
  logsumexp
    (map (fun '(p, u, s, r) => component_log_density x p u s r)
         (components log_pi mu sigma rho)).

(** [mog_density_2d(x, log_pi, mu, sigma, rho)], dimensions
    x (n, 2), log_pi (n, m), mu (n, m, 2), sigma (n, m, 2), rho (n, m);
    returns the n log-densities. *)
Fixpoint mog_density_2d (x : list (R * R)) (log_pi : list (list R))
    (mu sigma : list (list (R * R))) (rho : list (list R)) : list xreal :=
  match x, log_pi, mu, sigma, rho with
  | xi :: x', p :: log_pi', u :: mu', s :: sigma', r :: rho' =>
      row_log_density xi p u s r :: mog_density_2d x' log_pi' mu' sigma' rho'
  | _, _, _, _, _ => []
  end.

Definition epsillon : R := 1 / 10000.

(** [criterion(x, e, log_pi, mu, sigma, rho, masks)], dimensions
    x (n, b, 3), e (n, b), log_pi (n, b, m), mu (n, b, 2m),
    sigma (n, b, 2m), rho (n, b, m), masks (n, b). *)
Definition criterion
    (x : list (list (list R))) (e : list (list R))
    (log_pi mu sigma rho : list (list (list R)))
    (masks : list (list R)) : xreal :=
  let x := view_rows x in
  let e := view_rows e in
  let x0 := map (fun row => nth 0 row 0) x in
  let e := map2 (fun ei li => ei * li + (1 - ei) * (1 - li)) e x0 in
  let e := map (fun ei => (ei + epsillon) / (1 + 2 * epsillon)) e in
  let x := map (fun row => (nth 1 row 0, nth 2 row 0)) x in
  let log_pi := view_rows log_pi in
  let mu := map view_pairs (view_rows mu) in
  let sigma :=
    map (fun row => map (fun s => (fst s + epsillon, snd s + epsillon))
                        (view_pairs row))
        (view_rows sigma) in
  let rho := map (map (fun r => r / (1 + epsillon))) (view_rows rho) in
  let log_density := mog_density_2d x log_pi mu sigma rho in
  let masks := view_rows masks in
  let ll :=
    (xsum (map2 (fun t mk => (t * Fin mk)%X)
                (map2 (fun ld ei => (ld + xlog (Fin ei))%X) log_density e)
                masks)
     / Fin (Rsum masks))%X in
  (- ll)%X.

End Loss.


(** ** The loss as a sum over steps *)

Module LossSteps.
Import Loss.

(** The data of one row of the flattened tensors: the row of [x], the
    entry of [e], and the rows of [log_pi], [mu], [sigma] and [rho]. *)
Definition step_data : Type :=
  (list R * R * list R * list R * list R * list R)%type.

(** The rows of the flattened tensors, zipped. *)
Fixpoint steps (x : list (list R)) (e : list R)
    (log_pi mu sigma rho : list (list R)) : list step_data :=
  match x, e, log_pi, mu, sigma, rho with
  | xi :: x', ei :: e', p :: log_pi', u :: mu', s :: sigma', r :: rho' =>
      (xi, ei, p, u, s, r) :: steps x' e' log_pi' mu' sigma' rho'
  | _, _, _, _, _, _ => []
  end.

(** The likelihood of the observed pen-lift bit after the epsilon
    renormalisation, as [criterion] computes it. *)
Definition pen_term (e lift : R) : R :=
  (e * lift + (1 - e) * (1 - lift) + epsillon) / (1 + 2 * epsillon).

(** Entry i of [log_density + e.log()] in [criterion], from the data of
    row i. *)
Definition step_term (d : step_data) : xreal :=
  let '(x, e, log_pi, mu, sigma, rho) := d in
  let sigma :=
    map (fun s => (fst s + epsillon, snd s + epsillon)) (view_pairs sigma) in
  let rho := map (fun r => r / (1 + epsillon)) rho in
  xadd (row_log_density (nth 1 x 0, nth 2 x 0) log_pi (view_pairs mu) sigma rho)
       (xlog (Fin (pen_term e (nth 0 x 0)))).

(** [criterion] over the rows of the flattened tensors. *)
Definition criterion_rows (rows : list step_data) (masks : list R) : xreal :=
  (- (xsum (map2 (fun t mk => t * Fin mk) (map step_term rows) masks)
      / Fin (Rsum masks)))%X.

(** The value of [component_log_density] in real arithmetic. *)
Definition component_value
    (x : R * R) (log_pi : R) (mu sigma : R * R) (rho : R) : R :=
  let x_c0 := (fst x - fst mu) / fst sigma in
  let x_c1 := (snd x - snd mu) / snd sigma in
  let z := (x_c0 * x_c0 + x_c1 * x_c1) - 2 * rho * x_c0 * x_c1 in
  (- z / (2 * (1 - rho * rho)))
  - (ln (2 * PI) + ln (fst sigma) + ln (snd sigma)
     + / 2 * ln (1 - rho * rho))
  + log_pi.

Definition component_in_range (c : R * (R * R) * (R * R) * R) : Prop :=
  let '(_, _, sigma, rho) := c in
  0 < fst sigma /\ 0 < snd sigma /\ rho * rho < 1.

(** The value of a row's log-density in real arithmetic. *)
Definition row_value (x : R * R)
    (log_pi : list R) (mu sigma : list (R * R)) (rho : list R) : R :=
  ln (Rsum (map exp
              (map (fun '(p, u, s, r) => component_value x p u s r)
                   (components log_pi mu sigma rho)))).

(** The components of a step after the epsilon shifts of [criterion]. *)
Definition step_components (d : step_data)
  : list (R * (R * R) * (R * R) * R) :=
  let '(_, _, log_pi, mu, sigma, rho) := d in
  components log_pi (view_pairs mu)
    (map (fun s => (fst s + epsillon, snd s + epsillon)) (view_pairs sigma))
    (map (fun r => r / (1 + epsillon)) rho).

Definition step_pen (d : step_data) : R :=
  let '(x, e, _, _, _, _) := d in pen_term e (nth 0 x 0).

Definition step_in_range (d : step_data) : Prop :=
  step_components d <> []
  /\ Forall component_in_range (step_components d)
  /\ 0 < step_pen d.

(** The value of a step in real arithmetic. *)
Definition step_value (d : step_data) : R :=
  let '(x, _, _, _, _, _) := d in
  ln (Rsum (map exp
              (map (fun '(p, u, s, r) =>
                      component_value (nth 1 x 0, nth 2 x 0) p u s r)
                   (step_components d))))
  + ln (step_pen d).

(** The row read at an index past the end of a list of rows. *)
Definition no_step : step_data := ([], 0, [], [], [], []).

Definition binary (mk : R) : Prop := mk = 0 \/ mk = 1.

End LossSteps.

Import LossSteps.

(** ** Python exceptions and fallible computations *)

Module Py.

Inductive exn : Type :=
| TypeError (msg : string)
| ValueError (msg : string)
| IndexError (msg : string)
| RuntimeError (msg : string).

Inductive result (A : Type) : Type :=
| Ok (a : A)
| Raise (e : exn).
Arguments Ok {A} a.
Arguments Raise {A} e.

Definition bind {A B : Type} (c : result A) (k : A -> result B) : result B :=
  match c with
  | Ok a => k a
  | Raise e => Raise e
  end.

(** [l[i]] on a Python list. *)
Definition getitem {A : Type} (l : list A) (i : nat) : result A :=
  match nth_error l i with
  | Some a => Ok a
  | None => Raise (IndexError "list index out of range")
  end.


End Py.

Import Py.

Declare Scope py_scope.
Delimit Scope py_scope with py.
Notation "x <- c ;; k" := (bind c (fun x => k))
  (at level 61, c at next level, right associativity) : py_scope.
Notation "' p <- c ;; k" := (bind c (fun x => let p := x in k))
  (at level 61, p pattern, c at next level, right associativity) : py_scope.

(** ** model.py: layers shared by the two networks *)

Module Layers.

Abbreviation tensor1 := (list R).
Abbreviation tensor2 := (list (list R)).
Abbreviation tensor3 := (list (list (list R))).

Definition dot (u v : tensor1) : R := Rsum (map2 Rmult u v).

(** [torch.nn.Linear]: one output per row of [weight], [y = x W^T + b],
    applied to the last axis. *)
Record Linear : Type := mkLinear {
  weight : tensor2;
  bias : tensor1
}.

Definition linear1 (l : Linear) (x : tensor1) : tensor1 :=
  map2 (fun w b => dot w x + b) (weight l) (bias l).
Definition linear2 (l : Linear) (x : tensor2) : tensor2 := map (linear1 l) x.
Definition linear3 (l : Linear) (x : tensor3) : tensor3 := map (linear2 l) x.

Definition sigmoid (v : R) : R := 1 / (1 + exp (- v)).

(** [torch.nn.Softmax] along the last axis. *)
Definition softmax (row : tensor1) : tensor1 :=
  let s := Rsum (map exp row) in
  map (fun v => exp v / s) row.

(** [row[a:b]] on the last axis. *)
Definition cols (a b : nat) (row : tensor1) : tensor1 := slice a b row.

(** [torch.cat((s, t), dim=2)] of two tensors of dimensions (T, B, _). *)
Definition cat2 (s t : tensor3) : tensor3 := map2 (map2 (@app R)) s t.

(** The state (h, c) of one recurrent layer. *)
Definition lstm_state : Type := (tensor3 * tensor3)%type.

(** [torch.nn.LSTM] with its weights: from the input sequence (T, B, in)
    and the optional initial state to the outputs (T, B, memory_cells) and
    the final state.  The recurrent layers are torch's; the networks are
    parameterised by them. *)
Definition lstm : Type := tensor3 -> option lstm_state -> tensor3 * lstm_state.

(** The parameters of the output head, as both [forward] methods compute
    them from the projection [y] of dimensions (T, B, 6 m + 1):
<<
    pi = self.softmax(y[:, :, : self.n_gaussians])
    mu = y[:, :, self.n_gaussians: 3 * self.n_gaussians]
    sigma = torch.exp(y[:, :, 3 * self.n_gaussians: 5 * self.n_gaussians])
    rho = self.tanh(y[:, :, 5 * self.n_gaussians: 6 * self.n_gaussians])
    e = self.sigmoid(y[:, :, 6 * self.n_gaussians])
>>
    [y[:, :, 6 m]] raises IndexError on a row of at most [6 m] entries. *)
Record head : Type := mkHead {
  e : tensor2;
  pi : tensor3;
  mu : tensor3;
  sigma : tensor3;
  rho : tensor3
}.

(** [y[:, :, i]]. *)
Definition select_last (i : nat) (y : tensor3) : result tensor2 :=
  if forallb (forallb (fun row => (i <? length row)%nat)) y
  then Ok (map (map (fun row => nth i row 0)) y)
  else Raise (IndexError "index out of range").

Definition output_head (n_gaussians : nat) (y : tensor3) : result head :=
  let m := n_gaussians in
  let pi := map (map (fun row => softmax (cols 0 m row))) y in
  let mu := map (map (cols m (3 * m))) y in
  let sigma := map (map (fun row => map exp (cols (3 * m) (5 * m) row))) y in
  let rho := map (map (fun row => map tanh (cols (5 * m) (6 * m) row))) y in
  (y_e <- select_last (6 * m) y ;;
   let e := map (map sigmoid) y_e in
   Ok (mkHead e pi mu sigma rho))%py.

End Layers.

Import Layers.

(** ** model.py: HandWritingRNN *)

Module HandWritingRNN.

(** The attributes [__init__] sets: [rnns] has [num_layers] layers and
    [last_layer] has [6 * n_gaussians + 1] outputs. *)
Record t : Type := mk {
  n_gaussians : nat;
  rnns : list lstm;
  last_layer : Linear
}.

(** [lstm_in_states[i]] when states are given, no state otherwise. *)
Definition in_state (lstm_in_states : option (list lstm_state)) (i : nat)
  : result (option lstm_state) :=
  match lstm_in_states with
  | None => Ok None
  | Some sts => (s <- getitem sts i ;; Ok (Some s))%py
  end.

(** The loop [for i, rnn in enumerate(self.rnns[1:])]: [rnn_out] is kept
    in order, [prev] is [rnn_out[-1][0]]. *)
Fixpoint later_layers (layers : list lstm) (i : nat) (inp prev : tensor3)
    (lstm_in_states : option (list lstm_state))
  : result (list (tensor3 * lstm_state)) :=
  match layers with
  | [] => Ok []
  | rnn :: layers' =>
      (st <- in_state lstm_in_states (i + 1) ;;
       let o := rnn (cat2 prev inp) st in
       rest <- later_layers layers' (i + 1) inp (fst o) lstm_in_states ;;
       Ok (o :: rest))%py
  end.

(** [torch.cat([o[0] for o in rnn_out], dim=2)]. *)
Definition cat_outputs (o0 : tensor3) (rest : list tensor3) : tensor3 :=
  fold_left cat2 rest o0.

(** [forward(self, inp, lstm_in_states=None)].  The hooks registered
    with [register_hook] clamp gradients in the backward pass and leave
    the returned values unchanged. *)
Definition forward (self : t) (inp : tensor3)
    (lstm_in_states : option (list lstm_state))
  : result (head * list lstm_state) :=
  (rnn0 <- getitem (rnns self) 0 ;;
   st0 <- in_state lstm_in_states 0 ;;
   let o0 := rnn0 inp st0 in
   rest <- later_layers (tl (rnns self)) 0 inp (fst o0) lstm_in_states ;;
   let rnn_out := o0 :: rest in
   let lstm_out_states := map snd rnn_out in
   let rnn_out := cat_outputs (fst o0) (map fst rest) in
   let y := linear3 (last_layer self) rnn_out in
   hd <- output_head (n_gaussians self) y ;;
   Ok (hd, lstm_out_states))%py.

(** [forward] of [HandWritingRNN] up to the projection
    [y = self.last_layer(rnn_out)], the argument of the output head. *)
Definition projection (self : t) (inp : tensor3)
    (lstm_in_states : option (list lstm_state))
  : result (tensor3 * list lstm_state) :=
  (rnn0 <- getitem (rnns self) 0 ;;
   st0 <- in_state lstm_in_states 0 ;;
   let o0 := rnn0 inp st0 in
   rest <- later_layers (tl (rnns self)) 0 inp
             (fst o0) lstm_in_states ;;
   let rnn_out := cat_outputs (fst o0) (map fst rest) in
   Ok (linear3 (last_layer self) rnn_out,
       map snd (o0 :: rest)))%py.

End HandWritingRNN.


(** ** model.py: HandWritingSynthRNN *)

Module HandWritingSynthRNN.

(** [torch.nn.LSTMCell] with its weights: one step on a batch, from the
    input (B, in) and the state (h, c) to the next state. *)
Definition lstm_cell : Type :=
  tensor2 -> tensor2 * tensor2 -> tensor2 * tensor2.

Record t : Type := mk {
  n_gaussians : nat;
  n_gaussians_window : nat;
  memory_cells : nat;
  n_char : nat;
  first_rnn : lstm_cell;
  rnns : list lstm;
  h_to_w : Linear;
  last_layer : Linear
}.

(** The argument [prev_kappa]: the default is the number 0, which the
    in-place addition broadcasts; [generate] and the returned value carry
    a tensor of dimensions (B, K, 1), kept here as (B, K). *)
Inductive kappa_t : Type :=
| KScalar (r : R)
| KTensor (k : tensor2).

(** [lstm_in_states]: the state of the first cell, [lstm_in_states[0]],
    and the states of the later layers, [lstm_in_states[i + 1]]. *)
Definition states : Type := ((tensor2 * tensor2) * list lstm_state)%type.

(** [row.chunk(chunks=3)] of a row of 3 K entries: three consecutive
    chunks of ceil(len / 3) = K entries. *)
Definition chunk3 (row : tensor1) : tensor1 * tensor1 * tensor1 :=
  let k := ((length row + 2) / 3)%nat in
  (firstn k row, firstn k (skipn k row), skipn (2 * k) row).

(** [kappa += prev_kappa]. *)
Definition add_kappa (kappa : tensor2) (prev_kappa : kappa_t) : tensor2 :=
  match prev_kappa with
  | KScalar r => map (map (fun v => v + r)) kappa
  | KTensor p => map2 (map2 Rplus) kappa p
  end.

(** [torch.arange(1, U + 1).float()]. *)
Definition arange1 (U : nat) : tensor1 := map INR (seq 1 U).

(** [((beta * (kappa - u_seq) ** 2).exp() * alpha).sum(dim=1)] for one
    batch element: [alpha], [beta], [kappa] have K entries, broadcast
    against the U entries of [u_seq]; the sum runs over the K axis. *)
Definition window_weights (alpha beta kappa u_seq : tensor1) : tensor1 :=
  sum_axis0 (length u_seq)
    (map3 (fun a be ka => map (fun u => exp (be * (ka - u) ^ 2) * a) u_seq)
          alpha beta kappa).

(** [(phi.unsqueeze(2) * c_seq).sum(dim=1)] for one batch element: [phi]
    has U entries, [c_seq] is (U, n_char); the sum runs over the U axis. *)
Definition window_vector (width : nat) (phi : tensor1) (c_seq : tensor2)
  : tensor1 :=
  sum_axis0 width (map2 (fun p row => map (fun v => p * v) row) phi c_seq).

(** The variables of the loop [for x in inp]. *)
Record loop_state : Type := mkLoop {
  h : tensor2;
  c : tensor2;
  prev_window : tensor2;
  prev_kappa : kappa_t;
  first_rnn_out : list tensor2;
  window_list : list tensor2
}.

(** The soft window of one step: from the hidden state of the first cell
    to (phi, the new window, the new kappa).  [c_seq.shape[1]] is the
    length of the first character sequence; the context vectors have
    [n_char] entries. *)
Definition soft_window (self : t) (c_seq : tensor3) (h : tensor2)
    (prev_kappa : kappa_t) : tensor2 * tensor2 * tensor2 :=
  let window_params := map (map exp) (linear2 (h_to_w self) h) in
  let alpha := map (fun row => fst (fst (chunk3 row))) window_params in
  let beta := map (fun row => snd (fst (chunk3 row))) window_params in
  let kappa := map (fun row => snd (chunk3 row)) window_params in
  let kappa := add_kappa kappa prev_kappa in
  let beta := map (map Ropp) beta in
  let U := length (hd [] c_seq) in
  let u_seq := arange1 U in
  let phi :=
    map3 (fun a be ka => window_weights a be ka u_seq) alpha beta kappa in
  let window := map2 (window_vector (n_char self)) phi c_seq in
  (phi, window, kappa).

(** One iteration of [for x in inp]. *)
Definition step (self : t) (c_seq : tensor3) (st : loop_state) (x : tensor2)
  : loop_state :=
  let rnn_inp := map2 (@app R) x (prev_window st) in
  let '(h, c) := first_rnn self rnn_inp (h st, c st) in
  let '(phi, window, kappa) := soft_window self c_seq h (prev_kappa st) in
  mkLoop h c window (KTensor kappa)
         (first_rnn_out st ++ [h]) (window_list st ++ [window]).

Definition zeros2 (rows width : nat) : tensor2 := repeat (repeat 0 width) rows.

(** The state before the first iteration.  [inp.shape[1]] is the length
    of the first time step; [c_seq.shape[-1]] is [n_char] for a character
    sequence of the documented dimensions (B, U, n_char). *)
Definition init (self : t) (inp : tensor3) (lstm_in_states : option states)
    (prev_window : option tensor2) (prev_kappa : kappa_t) : loop_state :=
  let B := length (hd [] inp) in
  let prev_window :=
    match prev_window with
    | None => zeros2 B (n_char self)
    | Some w => w
    end in
  let '(h, c) :=
    match lstm_in_states with
    | None => (zeros2 B (memory_cells self), zeros2 B (memory_cells self))
    | Some sts => fst sts
    end in
  mkLoop h c prev_window prev_kappa [] [].

(** The loop variables after the first [t] iterations. *)
Definition loop (self : t) (c_seq : tensor3) (st : loop_state) (inp : tensor3)
  : loop_state :=
  fold_left (step self c_seq) inp st.

(** [torch.stack(l, dim=0)] raises on an empty list. *)
Definition stack0 (l : list tensor2) : result tensor3 :=
  match l with
  | [] => Raise (RuntimeError "stack expects a non-empty TensorList")
  | _ => Ok l
  end.

(** Entry [i] of the states of the later layers, when states are given. *)
Definition in_state (lstm_in_states : option states) (i : nat)
  : result (option lstm_state) :=
  match lstm_in_states with
  | None => Ok None
  | Some sts => (s <- getitem (snd sts) i ;; Ok (Some s))%py
  end.

(** The loop [for i, rnn in enumerate(self.rnns)]; [lstm_in_states[i + 1]]
    is entry [i] of the later states. *)
Fixpoint later_layers (layers : list lstm) (i : nat) (inp window prev : tensor3)
    (lstm_in_states : option states)
  : result (list (tensor3 * lstm_state)) :=
  match layers with
  | [] => Ok []
  | rnn :: layers' =>
      (st <- in_state lstm_in_states i ;;
       let o := rnn (cat2 (cat2 prev inp) window) st in
       rest <- later_layers layers' (i + 1) inp window (fst o) lstm_in_states ;;
       Ok (o :: rest))%py
  end.

(** What [forward] returns: the head parameters, [lstm_out_states],
    [prev_window] and [prev_kappa]. *)
Record output : Type := mkOutput {
  params : head;
  lstm_out_states : states;
  out_window : tensor2;
  out_kappa : kappa_t
}.

(** [forward(self, inp, c_seq, lstm_in_states=None, prev_window=None,
    prev_kappa=0)] on typed arguments; the gradient hooks leave the
    returned values unchanged.  The test [rnn_out[1][0].requires_grad]
    reads the output of the first later layer, [rnn_out[1]], and raises
    IndexError when [self.rnns] is empty (num_layers = 1). *)
Definition forward (self : t) (inp c_seq : tensor3)
    (lstm_in_states : option states) (prev_window : option tensor2)
    (prev_kappa : kappa_t) : result output :=
  let 'mkLoop h c prev_window prev_kappa first_rnn_out window_list :=
    loop self c_seq
         (init self inp lstm_in_states prev_window prev_kappa) inp in
  (out0 <- stack0 first_rnn_out ;;
   window <- stack0 window_list ;;
   rest <- later_layers (rnns self) 0 inp window out0 lstm_in_states ;;
   _ <- getitem rest 0 ;;
   let rnn_out := HandWritingRNN.cat_outputs out0 (map fst rest) in
   let y := linear3 (last_layer self) rnn_out in
   hd <- output_head (n_gaussians self) y ;;
   Ok (mkOutput hd ((h, c), map snd rest) prev_window prev_kappa))%py.

End HandWritingSynthRNN.


(** ** The ranges of the head parameters *)

Module HeadSpec.

(** What C4 asks of the parameters returned by a forward pass. *)
Definition head_in_range (hd : head) : Prop :=
  Forall (Forall (fun row => Rsum row = 1)) (pi hd)
  /\ Forall (Forall (Forall (fun s => 0 < s))) (sigma hd)
  /\ Forall (Forall (Forall (fun r => -1 < r < 1))) (rho hd)
  /\ Forall (Forall (fun p => 0 < p < 1)) (e hd).

End HeadSpec.

Import HeadSpec.

(** ** model.py on float32: the elementwise functions of the output head

    torch computes in IEEE 754 binary32.  The three elementwise functions
    of the output head are modelled as correctly rounded: each returns a
    number of the format nearest to the exact value (either neighbour on
    a tie), and +inf where the exact value overflows.  torch's kernels
    may differ from a correctly rounded function in the last place. *)

Module Float32.

(** The finite numbers of binary32: m * 2^(k - 149) with a significand
    |m| < 2^24 and 0 <= k <= 253, so from the subnormal 2^-149 up to
    (2^24 - 1) * 2^104. *)
Definition representable (x : R) : Prop :=
  exists m k : Z,
    (Z.abs m < 2 ^ 24)%Z /\ (0 <= k <= 253)%Z
    /\ x = IZR (m * 2 ^ k) / IZR (2 ^ 149).

(** [f] is a number of the format nearest to [x]. *)
Definition nearest (x f : R) : Prop :=
  representable f
  /\ forall g, representable g -> Rabs (f - x) <= Rabs (g - x).

(** Rounding to nearest overflows from 2^128 - 2^103 on, half-way between
    the largest number of the format and 2^128. *)
Definition overflow_threshold : R := IZR (2 ^ 128 - 2 ^ 103).

(** The float32 value of a function whose exact value is [x]. *)
Definition rounds_to (x : R) (v : xreal) : Prop :=
  match v with
  | Fin f => Rabs x < overflow_threshold /\ nearest x f
  | PInf => overflow_threshold <= x
  | NInf => x <= - overflow_threshold
  | NaN => False
  end.

(** The parameters of the output head that go through an elementwise
    function; [sigma] can be +inf.  [mu] is a slice of [y]; [pi], the
    softmax, is not modelled on float32. *)
Record head : Type := mkHead {
  e : tensor2;
  sigma : list (list (list xreal));
  rho : tensor3
}.

(** The lines
<<
    sigma = torch.exp(y[:, :, 3 * self.n_gaussians: 5 * self.n_gaussians])
    rho = self.tanh(y[:, :, 5 * self.n_gaussians: 6 * self.n_gaussians])
    e = self.sigmoid(y[:, :, 6 * self.n_gaussians])
>>
    of both [forward] methods (model.py:72-75 and 279-283) on a
    projection [y = self.last_layer(rnn_out)] of finite float32 numbers:
    [hd] is a value they can return. *)
Definition output_head (n_gaussians : nat) (y : tensor3) (hd : head) : Prop :=
  let m := n_gaussians in
  exists y_e,
    select_last (6 * m) y = Ok y_e
    /\ Forall2 (Forall2 (fun v f => nearest (sigmoid v) f)) y_e (e hd)
    /\ Forall2 (Forall2 (fun row out =>
                  Forall2 (fun v s => rounds_to (exp v) s)
                          (cols (3 * m) (5 * m) row) out))
               y (sigma hd)
    /\ Forall2 (Forall2 (fun row out =>
                  Forall2 (fun v f => nearest (tanh v) f)
                          (cols (5 * m) (6 * m) row) out))
               y (rho hd).

(** A value that is not negative: a finite number from 0 on, or +inf. *)
Definition nonneg (v : xreal) : Prop :=
  match v with
  | Fin r => 0 <= r
  | PInf => True
  | _ => False
  end.

(** A value that is positive. *)
Definition positive (v : xreal) : Prop :=
  match v with
  | Fin r => 0 < r
  | PInf => True
  | _ => False
  end.

(** The ranges of C4 with their ends: what holds of the three parameters
    on float32. *)
Definition head_in_closed_range (hd : head) : Prop :=
  Forall (Forall (Forall nonneg)) (sigma hd)
  /\ Forall (Forall (Forall (fun r => -1 <= r <= 1))) (rho hd)
  /\ Forall (Forall (fun p => 0 <= p <= 1)) (e hd).

(** The ranges as C4 states them, for the three parameters. *)
Definition head_in_range (hd : head) : Prop :=
  Forall (Forall (Forall positive)) (sigma hd)
  /\ Forall (Forall (Forall (fun r => -1 < r < 1))) (rho hd)
  /\ Forall (Forall (fun p => 0 < p < 1)) (e hd).

End Float32.

(** ** The window position and the window in the words of the spec *)

Module WindowSpec.
Import HandWritingSynthRNN.

(** Component (b, k) of a [prev_kappa] value; the scalar default
    broadcasts to every component. *)
Definition kappa_at (kp : kappa_t) (b k : nat) : R :=
  match kp with
  | KScalar r => r
  | KTensor p => nth k (nth b p []) 0
  end.


(** The loop variables after the first [t] time steps of [forward]. *)
Definition state_at (self : t) (inp c_seq : tensor3)
    (lstm_in_states : option states) (prev_window : option tensor2)
    (prev_kappa : kappa_t) (t : nat) : loop_state :=
  loop self c_seq (init self inp lstm_in_states prev_window prev_kappa)
       (firstn t inp).

(** The local variable [phi] of one iteration of [for x in inp]: the
    weights the iteration computes between the first cell and the new
    window. *)
Definition step_phi (self : t) (c_seq : tensor3) (st : loop_state)
    (x : tensor2) : tensor2 :=
  let rnn_inp := map2 (@app R) x (prev_window st) in
  let '(h, c) := first_rnn self rnn_inp (h st, c st) in
  let '(phi, window, kappa) := soft_window self c_seq h (prev_kappa st) in
  phi.

(** [phi] in time step [t] of [forward] (time steps from 0). *)
Definition phi_at (self : t) (inp c_seq : tensor3)
    (lstm_in_states : option states) (prev_window : option tensor2)
    (prev_kappa : kappa_t) (t : nat) : tensor2 :=
  step_phi self c_seq
    (state_at self inp c_seq lstm_in_states prev_window prev_kappa t)
    (nth t inp []).

(** Following the spec: the sum of [f u] for u = lo, ..., lo + n - 1. *)
Definition sum_range (lo n : nat) (f : nat -> R) : R :=
  Rsum (map f (seq lo n)).

(** Following the spec: the window weight at character position [u],
    [sum_k alpha_k * exp (- beta_k * (kappa_k - u)^2)]. *)
Definition spec_phi (K : nat) (alpha beta kappa : nat -> R) (u : nat) : R :=
  sum_range 0 K (fun k => alpha k * exp (- beta k * (kappa k - INR u) ^ 2)).

(** Following the spec: one entry of the context vector,
    [sum_u phi_u * c_u] for u = 1, ..., U. *)
Definition spec_context (U : nat) (phi c : nat -> R) : R :=
  sum_range 1 U (fun u => phi u * c u).

(** The three groups of window parameters of batch element [b]: entries
    [0..K), [K..2K) and [2K..3K) of the exponential of the projection. *)
Definition window_params (self : t) (h : tensor2) (b i : nat) : R :=
  nth i (nth b (map (map exp) (linear2 (h_to_w self) h)) []) 0.

(** [prev_kappa] has the dimensions (B, K) or is a scalar. *)
Definition kappa_dims (B K : nat) (kp : kappa_t) : Prop :=
  match kp with
  | KScalar _ => True
  | KTensor p => dims2 B K p
  end.

End WindowSpec.

Import WindowSpec.

(** ** Small instances of the two networks

    Networks whose weights are all zero: an LSTM with zero weights and
    biases outputs zeros and keeps a zero state, a zero linear layer
    outputs zeros. *)

Module Tiny.

Definition zero_linear (in_features out_features : nat) : Linear :=
  mkLinear (repeat (repeat 0 in_features) out_features)
           (repeat 0 out_features).

Definition zero_lstm (memory_cells : nat) : lstm :=
  fun inp _ =>
    let z := map (fun _ : tensor1 => repeat 0 memory_cells) (hd [] inp) in
    (map (map (fun _ => repeat 0 memory_cells)) inp, ([z], [z])).

Definition zero_cell (memory_cells : nat) : HandWritingSynthRNN.lstm_cell :=
  fun inp _ =>
    let z := map (fun _ : tensor1 => repeat 0 memory_cells) inp in (z, z).

(** [HandWritingRNN(memory_cells=1, n_gaussians=1, num_layers=1)]. *)
Definition uncond : HandWritingRNN.t :=
  HandWritingRNN.mk 1 [zero_lstm 1] (zero_linear 1 7).

(** [HandWritingSynthRNN(memory_cells=1, n_gaussians=1, num_layers=2,
    n_gaussians_window=1, n_char=2)]: the first cell, one later layer,
    and a last layer on the 2 concatenated outputs. *)
Definition synth : HandWritingSynthRNN.t :=
  HandWritingSynthRNN.mk 1 1 1 2 (zero_cell 1) [zero_lstm 1]
                         (zero_linear 1 3) (zero_linear 2 7).

(** [HandWritingRNN(memory_cells=1, n_gaussians=1, num_layers=1)] with
    zero weights and the bias (0, 0, 0, -200, -200, 30, 30) in the last
    layer: its projection is the bias for every input, and computing it
    needs no rounding (products with 0, sums with 0). *)
Definition saturated : HandWritingRNN.t :=
  HandWritingRNN.mk 1 [zero_lstm 1]
    (mkLinear (repeat [0] 7) [0; 0; 0; -200; -200; 30; 30]).

End Tiny.


(** ** train.py: the loss of one training batch *)

Module Batch.

(** [t.permute(1, 0)] or [t.permute(1, 0, 2)]: the first two axes are
    exchanged. *)
Fixpoint permute10 {A : Type} (t : list (list A)) : list (list A) :=
  match t with
  | [] => []
  | [row] => map (fun a => [a]) row
  | row :: rest => map2 cons row (permute10 rest)
  end.

(** One item of [dataloader_train]: (c_seq, x, masks, c_masks), batch
    first. *)
Record batch : Type := mkBatch {
  c_seq : tensor3;
  x : tensor3;
  masks : tensor2;
  c_masks : tensor2
}.

(** The tuple a forward pass returns starts with (e, pi, mu, sigma, rho);
    the training loop unpacks it by position as
    [e, log_pi, mu, sigma, rho] and a starred rest, so the name [log_pi]
    receives the second entry, the softmax output [pi]. *)
Definition unpack_outputs (hd : head)
  : tensor2 * tensor3 * tensor3 * tensor3 * tensor3 :=
  (Layers.e hd, Layers.pi hd, Layers.mu hd, Layers.sigma hd, Layers.rho hd).

(** The body of the training loop up to the loss, for the unconditional
    network ([inputs = (inp_x,)]). *)
Definition uncond_loss (model : HandWritingRNN.t) (bt : batch)
  : result xreal :=
  let x := permute10 (x bt) in
  let masks := permute10 (masks bt) in
  let inp_x := removelast x in
  let masks := removelast masks in
  (out <- HandWritingRNN.forward model inp_x None ;;
   let '(e, log_pi, mu, sigma, rho) := unpack_outputs (fst out) in
   Ok (Loss.criterion (tl x) e log_pi mu sigma rho masks))%py.

(** One sequence of two all-zero points, both valid: one input step and
    one target. *)
Definition failing_batch : batch :=
  mkBatch [] [[[0; 0; 0]; [0; 0; 0]]] [[1; 1]] [].

End Batch.


(** ** C1: the loss the spec describes *)

Module SpecLoss.
Import Loss.

(** Following the spec: the log of the bivariate normal density,
    [-z/(2(1-rho^2)) - (log(2 pi) + log sigma_x + log sigma_y
    + 0.5 log(1-rho^2))]. *)
Definition spec_log_normal (x mu sigma : R * R) (rho : R) : R :=
  let cx := (fst x - fst mu) / fst sigma in
  let cy := (snd x - snd mu) / snd sigma in
  let z := cx * cx + cy * cy - 2 * rho * cx * cy in
  - z / (2 * (1 - rho * rho))
  - (ln (2 * PI) + ln (fst sigma) + ln (snd sigma)
     + / 2 * ln (1 - rho * rho)).

(** Following the spec: the mixture density, the sum over the components
    of weight times normal density, after [sigma += eps] and
    [rho /= (1 + eps)]. *)
Definition spec_mixture_density (x : R * R) (pi : list R)
    (mu sigma : list (R * R)) (rho : list R) : R :=
  Rsum (map (fun '(w, u, s, r) =>
               w * exp (spec_log_normal
                          x u (fst s + epsillon, snd s + epsillon)
                          (r / (1 + epsillon))))
            (components pi mu sigma rho)).

(** Following the spec: the renormalised likelihood of the observed
    pen-lift bit. *)
Definition spec_pen (e bit : R) : R :=
  (e * bit + (1 - e) * (1 - bit) + epsillon) / (1 + 2 * epsillon).

(** Following the spec: the term of one step. *)
Definition spec_step (d : LossSteps.step_data) : R :=
  let '(x, e, pi, mu, sigma, rho) := d in
  ln (spec_mixture_density (nth 1 x 0, nth 2 x 0) pi
        (view_pairs mu) (view_pairs sigma) rho)
  + ln (spec_pen e (nth 0 x 0)).

Definition valid (mk : R) : bool := if Req_dec_T mk 1 then true else false.

(** Following the spec: minus the sum of the terms of the steps with mask 1
    over the number of these steps. *)
Definition spec_loss (rows : list LossSteps.step_data) (masks : list R) : R :=
  let kept := map fst (filter (fun p => valid (snd p)) (combine rows masks)) in
  - Rsum (map spec_step kept) / INR (length kept).

(** The spec's loss of a forward pass with output [hd] against the targets
    [x] (T, B, 3) under [masks] (T, B). *)
Definition spec_training_loss (x : tensor3) (hd : head) (masks : tensor2) : R :=
  spec_loss
    (LossSteps.steps (view_rows x) (view_rows (Layers.e hd))
       (view_rows (Layers.pi hd)) (view_rows (Layers.mu hd))
       (view_rows (Layers.sigma hd)) (view_rows (Layers.rho hd)))
    (view_rows masks).

End SpecLoss.


(** ** Python calls: dynamically typed values and argument binding *)

Module PyCall.

(** A tensor whose rank is not known statically. *)
Inductive dtensor : Type :=
| Scalar (r : R)
| Stack (items : list dtensor).

Inductive pyval : Type :=
| PNone
| PInt (n : Z)
| PFloat (r : R)
| PTensor (t : dtensor)
| PTuple (items : list pyval)
| PList (items : list pyval).

Definition of_tensor1 (t : tensor1) : dtensor := Stack (map Scalar t).
Definition of_tensor2 (t : tensor2) : dtensor := Stack (map of_tensor1 t).
Definition of_tensor3 (t : tensor3) : dtensor := Stack (map of_tensor2 t).

Fixpoint all_some {A : Type} (l : list (option A)) : option (list A) :=
  match l with
  | [] => Some []
  | Some a :: l' =>
      match all_some l' with
      | Some r => Some (a :: r)
      | None => None
      end
  | None :: _ => None
  end.

Definition as_scalar (t : dtensor) : option R :=
  match t with
  | Scalar r => Some r
  | Stack _ => None
  end.

Definition as_tensor1 (t : dtensor) : option tensor1 :=
  match t with
  | Scalar _ => None
  | Stack items => all_some (map as_scalar items)
  end.

Definition as_tensor2 (t : dtensor) : option tensor2 :=
  match t with
  | Scalar _ => None
  | Stack items => all_some (map as_tensor1 items)
  end.

Definition as_tensor3 (t : dtensor) : option tensor3 :=
  match t with
  | Scalar _ => None
  | Stack items => all_some (map as_tensor2 items)
  end.

(** A parameter of a [def]: its name and its default, if it has one. *)
Record param : Type := mkParam {
  pname : string;
  pdefault : option pyval
}.

Definition env : Type := list (string * pyval).

Fixpoint lookup (name : string) (en : env) : option pyval :=
  match en with
  | [] => None
  | (n, v) :: en' => if String.eqb n name then Some v else lookup name en'
  end.

Definition has_param (name : string) (params : list param) : bool :=
  existsb (fun p => String.eqb (pname p) name) params.

(** The positional arguments go to the first parameters. *)
Fixpoint bind_positional (params : list param) (args : list pyval) : env :=
  match params, args with
  | p :: params', a :: args' => (pname p, a) :: bind_positional params' args'
  | _, _ => []
  end.

(** The keyword arguments, in order: a keyword that names no parameter
    and a keyword for a parameter that already has a value raise
    TypeError. *)
Fixpoint bind_keywords (params : list param) (bound : env) (kwargs : env)
  : result env :=
  match kwargs with
  | [] => Ok bound
  | (name, v) :: kwargs' =>
      if negb (has_param name params) then
        Raise (TypeError ("got an unexpected keyword argument '" ++ name ++ "'"))
      else
        match lookup name bound with
        | Some _ =>
            Raise (TypeError ("got multiple values for argument '" ++ name ++ "'"))
        | None => bind_keywords params (bound ++ [(name, v)]) kwargs'
        end
  end.

(** The parameters without a value take their default; a parameter
    without a default raises TypeError. *)
Fixpoint fill_defaults (params : list param) (bound : env) : result env :=
  match params with
  | [] => Ok []
  | p :: params' =>
      (v <- match lookup (pname p) bound, pdefault p with
            | Some v, _ => Ok v
            | None, Some d => Ok d
            | None, None =>
                Raise (TypeError ("missing a required argument: '"
                                  ++ pname p ++ "'"))
            end ;;
       rest <- fill_defaults params' bound ;;
       Ok ((pname p, v) :: rest))%py
  end.

(** The binding of the positional and keyword arguments of a call to the
    parameters of a function without starred parameters; the result lists
    the parameters in order with their values. *)
Definition bind_args (params : list param) (args : list pyval) (kwargs : env)
  : result env :=
  (bound <- bind_keywords params (bind_positional params args) kwargs ;;
   if (length params <? length args)%nat then
     Raise (TypeError "too many positional arguments")
   else fill_defaults params bound)%py.

(** [v[i]]. *)
Definition py_getitem (v : pyval) (i : nat) : result pyval :=
  match v with
  | PTuple items | PList items => getitem items i
  | PTensor (Stack items) =>
      match nth_error items i with
      | Some t => Ok (PTensor t)
      | None => Raise (IndexError "index out of bounds for dimension 0")
      end
  | PTensor (Scalar _) =>
      Raise (IndexError "invalid index of a 0-dim tensor")
  | _ => Raise (TypeError "object is not subscriptable")
  end.

(** [a, b = v]: [v] is iterated; a tensor iterates over its first axis. *)
Definition unpack2 (v : pyval) : result (pyval * pyval) :=
  (items <- match v with
            | PTuple items | PList items => Ok items
            | PTensor (Stack items) => Ok (map PTensor items)
            | PTensor (Scalar _) =>
                Raise (TypeError "iteration over a 0-d tensor")
            | _ => Raise (TypeError "cannot unpack non-iterable object")
            end ;;
   match items with
   | [a; b] => Ok (a, b)
   | [] | [_] => Raise (ValueError "not enough values to unpack (expected 2)")
   | _ => Raise (ValueError "too many values to unpack (expected 2)")
   end)%py.

End PyCall.


(** ** Constructors and calls of the two networks *)

Module Construct.
Import PyCall.

Local Open Scope string_scope.

(** torch's layer constructors: each returns a layer with freshly
    initialised weights for the given input and output widths. *)
Record torch_nn : Type := mkNN {
  LSTM : nat -> nat -> lstm;
  LSTMCell : nat -> nat -> HandWritingSynthRNN.lstm_cell;
  new_Linear : nat -> nat -> Linear
}.

Definition get_nat (en : env) (name : string) : result nat :=
  match lookup name en with
  | Some (PInt n) => Ok (Z.to_nat n)
  | _ => Raise (TypeError ("an integer is required: '" ++ name ++ "'"))
  end.

Definition int_param (name : string) (default : Z) : param :=
  mkParam name (Some (PInt default)).

(** [HandWritingRNN.__init__(self, memory_cells=400, n_gaussians=20,
    num_layers=3)]. *)
Definition HandWritingRNN_params : list param :=
  [int_param "memory_cells" 400; int_param "n_gaussians" 20;
   int_param "num_layers" 3].

Definition HandWritingRNN_init (nn : torch_nn) (args : list pyval)
    (kwargs : env) : result HandWritingRNN.t :=
  (en <- bind_args HandWritingRNN_params args kwargs ;;
   memory_cells <- get_nat en "memory_cells" ;;
   n_gaussians <- get_nat en "n_gaussians" ;;
   num_layers <- get_nat en "num_layers" ;;
   let rnns :=
     map (fun i => LSTM nn (if (i =? 0)%nat then 3 else 3 + memory_cells)%nat
                        memory_cells)
         (seq 0 num_layers) in
   let last_layer :=
     new_Linear nn (memory_cells * num_layers) (6 * n_gaussians + 1) in
   Ok (HandWritingRNN.mk n_gaussians rnns last_layer))%py.

(** [HandWritingSynthRNN.__init__(self, memory_cells=400, n_gaussians=20,
    num_layers=3, n_gaussians_window=10, n_char=57, max_stroke_len=1000,
    max_sentence_len=59)]: seven named parameters and no starred one. *)
Definition HandWritingSynthRNN_params : list param :=
  [int_param "memory_cells" 400; int_param "n_gaussians" 20;
   int_param "num_layers" 3; int_param "n_gaussians_window" 10;
   int_param "n_char" 57; int_param "max_stroke_len" 1000;
   int_param "max_sentence_len" 59].

Definition HandWritingSynthRNN_init (nn : torch_nn) (args : list pyval)
    (kwargs : env) : result HandWritingSynthRNN.t :=
  (en <- bind_args HandWritingSynthRNN_params args kwargs ;;
   memory_cells <- get_nat en "memory_cells" ;;
   n_gaussians <- get_nat en "n_gaussians" ;;
   num_layers <- get_nat en "num_layers" ;;
   n_gaussians_window <- get_nat en "n_gaussians_window" ;;
   n_char <- get_nat en "n_char" ;;
   let first_rnn := LSTMCell nn (3 + n_char) memory_cells in
   let input_size := (3 + memory_cells + n_char)%nat in
   let rnns :=
     map (fun _ => LSTM nn input_size memory_cells) (seq 0 (num_layers - 1)) in
   let h_to_w := new_Linear nn memory_cells (3 * n_gaussians_window) in
   let last_layer :=
     new_Linear nn (memory_cells * num_layers) (6 * n_gaussians + 1) in
   Ok (HandWritingSynthRNN.mk n_gaussians n_gaussians_window memory_cells
         n_char first_rnn rnns h_to_w last_layer))%py.

(** [HandWritingSynthRNN.forward(self, inp, c_seq, lstm_in_states=None,
    prev_window=None, prev_kappa=0)]. *)
Definition forward_params : list param :=
  [mkParam "inp" None; mkParam "c_seq" None;
   mkParam "lstm_in_states" (Some PNone); mkParam "prev_window" (Some PNone);
   mkParam "prev_kappa" (Some (PInt 0))].

Definition get_arg (en : env) (name : string) : result pyval :=
  match lookup name en with
  | Some v => Ok v
  | None => Raise (TypeError ("unbound parameter '" ++ name ++ "'"))
  end.

Definition expect {A : Type} (what : string) (o : option A) : result A :=
  match o with
  | Some a => Ok a
  | None => Raise (RuntimeError ("expected " ++ what))
  end.

Definition tensor_of (v : pyval) : result dtensor :=
  match v with
  | PTensor t => Ok t
  | _ => Raise (TypeError "expected a tensor")
  end.

Fixpoint mapM {A B : Type} (f : A -> result B) (l : list A) : result (list B) :=
  match l with
  | [] => Ok []
  | a :: l' => (b <- f a ;; bs <- mapM f l' ;; Ok (b :: bs))%py
  end.

(** A state of the first cell: [torch.nn.LSTMCell] takes a batched input
    with two states of rank 2. *)
Definition cell_state (v : pyval) : result tensor2 :=
  (t <- tensor_of v ;; expect "a hidden state of rank 2" (as_tensor2 t))%py.

(** A state of a later layer: [torch.nn.LSTM] takes two states of rank 3. *)
Definition layer_state (v : pyval) : result lstm_state :=
  (hc <- unpack2 v ;;
   h <- tensor_of (fst hc) ;; c <- tensor_of (snd hc) ;;
   h <- expect "a hidden state of rank 3" (as_tensor3 h) ;;
   c <- expect "a hidden state of rank 3" (as_tensor3 c) ;;
   Ok (h, c))%py.

(** What [forward] does with the value of [lstm_in_states]: nothing when
    it is None; otherwise [h, c = lstm_in_states[0]] feeds the first cell
    and [lstm_in_states[i + 1]] the later layers. *)
Definition coerce_states (self : HandWritingSynthRNN.t) (v : pyval)
  : result (option HandWritingSynthRNN.states) :=
  match v with
  | PNone => Ok None
  | _ =>
      (first <- py_getitem v 0 ;;
       hc <- unpack2 first ;;
       h <- cell_state (fst hc) ;;
       c <- cell_state (snd hc) ;;
       rest <- mapM (fun i => (item <- py_getitem v (i + 1) ;; layer_state item))
                    (seq 0 (length (HandWritingSynthRNN.rnns self))) ;;
       Ok (Some ((h, c), rest)))%py
  end.

Definition coerce_window (v : pyval) : result (option tensor2) :=
  match v with
  | PNone => Ok None
  | _ => (t <- tensor_of v ;;
          w <- expect "a window of rank 2" (as_tensor2 t) ;;
          Ok (Some w))%py
  end.

Definition coerce_kappa (v : pyval) : result HandWritingSynthRNN.kappa_t :=
  match v with
  | PInt n => Ok (HandWritingSynthRNN.KScalar (IZR n))
  | PFloat r => Ok (HandWritingSynthRNN.KScalar r)
  | _ => (t <- tensor_of v ;;
          k <- expect "a kappa of rank 3" (as_tensor3 t) ;;
          Ok (HandWritingSynthRNN.KTensor
                (map (map (fun l => nth 0 l 0)) k)))%py
  end.

(** The call of the module on its arguments, which torch dispatches to
    [forward]: the arguments are bound to the parameters of [forward],
    then the body runs on their values. *)
Definition forward_call (self : HandWritingSynthRNN.t) (args : list pyval)
    (kwargs : env) : result HandWritingSynthRNN.output :=
  (en <- bind_args forward_params args kwargs ;;
   inp <- get_arg en "inp" ;;
   c_seq <- get_arg en "c_seq" ;;
   lstm_in_states <- get_arg en "lstm_in_states" ;;
   prev_window <- get_arg en "prev_window" ;;
   prev_kappa <- get_arg en "prev_kappa" ;;
   inp <- tensor_of inp ;;
   inp <- expect "an input of rank 3" (as_tensor3 inp) ;;
   c_seq <- tensor_of c_seq ;;
   c_seq <- expect "a character sequence of rank 3" (as_tensor3 c_seq) ;;
   prev_window <- coerce_window prev_window ;;
   lstm_in_states <- coerce_states self lstm_in_states ;;
   prev_kappa <- coerce_kappa prev_kappa ;;
   HandWritingSynthRNN.forward self inp c_seq lstm_in_states prev_window
                               prev_kappa)%py.

(** The exception [forward] raises on a rank 2 tensor of dimensions (B, U)
    in the place of [lstm_in_states]. *)
Definition mask_as_state_error (c_masks : tensor2) : exn :=
  match c_masks with
  | [] => IndexError "index out of bounds for dimension 0"
  | [] :: _ | [_] :: _ =>
      ValueError "not enough values to unpack (expected 2)"
  | [_; _] :: _ => RuntimeError "expected a hidden state of rank 2"
  | _ => ValueError "too many values to unpack (expected 2)"
  end.

End Construct.


(** ** train.py: train *)

Module Train.
Import PyCall Construct Batch.

Local Open Scope string_scope.

Inductive model : Type :=
| Uncond (m : HandWritingRNN.t)
| Cond (m : HandWritingSynthRNN.t).

(** The command-line arguments the modelled part of [train] reads. *)
Record args : Type := mkArgs {
  uncond : bool;
  resume : option string
}.

Definition N_CHAR : Z := 57.

Definition common_model_structure : env :=
  [("memory_cells", PInt 400); ("n_gaussians", PInt 20);
   ("num_layers", PInt 2)].

(** The keyword arguments of the constructor call for the conditional
    network: the three written out, then the unpacked dictionary. *)
Definition synth_kwargs : env :=
  ([("n_char", PInt N_CHAR); ("n_gaussians_window", PInt 10);
    ("kappa_factor", PFloat (5 / 100))]
   ++ common_model_structure)%list.

Definition build_model (nn : torch_nn) (a : args) : result model :=
  if uncond a then
    (m <- HandWritingRNN_init nn [] common_model_structure ;; Ok (Uncond m))%py
  else
    (m <- HandWritingSynthRNN_init nn [] synth_kwargs ;; Ok (Cond m))%py.

(** The body of the training loop up to the loss, for the conditional
    network: [inputs = (inp_x, c_seq, c_masks)] are the positional
    arguments of the call of the model. *)
Definition cond_loss (m : HandWritingSynthRNN.t) (bt : batch) : result xreal :=
  let x := permute10 (x bt) in
  let masks := permute10 (masks bt) in
  let inp_x := removelast x in
  let masks := removelast masks in
  let inputs :=
    [PTensor (of_tensor3 inp_x); PTensor (of_tensor3 (c_seq bt));
     PTensor (of_tensor2 (c_masks bt))] in
  (out <- forward_call m inputs [] ;;
   let '(e, log_pi, mu, sigma, rho) :=
     unpack_outputs (HandWritingSynthRNN.params out) in
   Ok (Loss.criterion (tl x) e log_pi mu sigma rho masks))%py.

Definition batch_loss (m : model) (bt : batch) : result xreal :=
  match m with
  | Uncond m => uncond_loss m bt
  | Cond m => cond_loss m bt
  end.

(** What [train] takes from outside the two modules: torch's layers, the
    data pipeline up to the data loaders (the batches of each epoch),
    [init_params] or [load_state_dict], the update of the weights
    (backward pass, gradient clipping, optimizer step), and the end of an
    epoch (scheduler, checkpoint, samples and figures). *)
Record world : Type := mkWorld {
  nn : torch_nn;
  prepare : args -> result (nat -> list batch);
  init_or_resume : args -> model -> result model;
  optimizer_step : model -> batch -> xreal -> model;
  end_of_epoch : model -> nat -> result unit
}.

(** The loop over the batches of one epoch; [n] counts the optimizer
    steps taken so far. *)
Fixpoint train_batches (w : world) (m : model) (batches : list batch)
    (n : nat) : nat * result model :=
  match batches with
  | [] => (n, Ok m)
  | bt :: rest =>
      match batch_loss m bt with
      | Raise e => (n, Raise e)
      | Ok loss => train_batches w (optimizer_step w m bt loss) rest (S n)
      end
  end.

Fixpoint train_epochs (w : world) (m : model) (data : nat -> list batch)
    (epochs : list nat) (n : nat) : nat * result unit :=
  match epochs with
  | [] => (n, Ok tt)
  | epoch :: rest =>
      match train_batches w m (data epoch) n with
      | (n', Raise e) => (n', Raise e)
      | (n', Ok m') =>
          match end_of_epoch w m' epoch with
          | Raise e => (n', Raise e)
          | Ok _ => train_epochs w m' data rest n'
          end
      end
  end.

(** [train(device, args)]: the number of optimizer steps taken and the
    outcome. *)
Definition train (w : world) (a : args) : nat * result unit :=
  match prepare w a with
  | Raise e => (0%nat, Raise e)
  | Ok data =>
      match build_model (nn w) a with
      | Raise e => (0%nat, Raise e)
      | Ok m =>
          match init_or_resume w a m with
          | Raise e => (0%nat, Raise e)
          | Ok m => train_epochs w m data (seq 0 10) 0
          end
      end
  end.

(** A world for examples: zero layers, one batch per epoch, weights left
    unchanged. *)
Definition zero_nn : torch_nn :=
  mkNN (fun _ h => Tiny.zero_lstm h) (fun _ h => Tiny.zero_cell h)
       Tiny.zero_linear.

Definition small_world : world :=
  mkWorld zero_nn
          (fun _ => Ok (fun _ =>
             [mkBatch [[[1; 0]]] [[[0; 0; 0]; [0; 0; 0]]] [[1; 1]] [[1]]]))
          (fun _ m => Ok m)
          (fun m _ _ => m)
          (fun _ _ => Ok tt).

End Train.


(** ** model.py: generation

    The samplers of [torch.distributions] draw from the state of torch's
    random generator.  A generation run threads that state and records,
    in order, the calls of the forward pass and the draws. *)

Module Generate.
Import PyCall.

Local Open Scope string_scope.

(** The three samplers: from the generator state and the parameters of
    the distribution to the sample and the next generator state.
    [bernoulli] takes probabilities (B,), [categorical] probabilities
    (B, m) and returns B component indices, [multivariate_normal] takes
    means (B, 2) and covariance matrices (B, 2, 2). *)
Record samplers (rng : Type) : Type := mkSamplers {
  bernoulli : rng -> tensor1 -> tensor1 * rng;
  categorical : rng -> tensor2 -> list nat * rng;
  multivariate_normal : rng -> tensor2 -> tensor3 -> tensor2 * rng
}.
Arguments bernoulli {rng} s.
Arguments categorical {rng} s.
Arguments multivariate_normal {rng} s.
Arguments mkSamplers {rng}.

Inductive event : Type :=
| Forward (inp : tensor3)
| Bernoulli (probs : tensor1)
| Categorical (probs : tensor2)
| MultivariateNormal (loc : tensor2) (covariance_matrix : tensor3).

(** A run: the outcome, the generator state and the events, oldest
    first. *)
Definition gen (rng A : Type) : Type := rng -> result A * rng * list event.

Definition ret {rng A : Type} (a : A) : gen rng A := fun g => (Ok a, g, []).

Definition gbind {rng A B : Type} (c : gen rng A) (k : A -> gen rng B)
  : gen rng B :=
  fun g =>
    match c g with
    | (Ok a, g', evs) =>
        match k a g' with
        | (r, g'', evs') => (r, g'', (evs ++ evs')%list)
        end
    | (Raise e, g', evs) => (Raise e, g', evs)
    end.

Definition lift {rng A : Type} (r : result A) : gen rng A :=
  fun g => (r, g, []).

Definition log {rng : Type} (ev : event) : gen rng unit :=
  fun g => (Ok tt, g, [ev]).

(** A draw: the event, then the sample from the generator state. *)
Definition draw {rng A : Type} (ev : event) (sample : rng -> A * rng)
  : gen rng A :=
  fun g => let '(a, g') := sample g in (Ok a, g', [ev]).

Definition events {rng A : Type} (run : result A * rng * list event)
  : list event := snd run.
Definition outcome {rng A : Type} (run : result A * rng * list event)
  : result A := fst (fst run).

End Generate.

Import Generate.

Declare Scope gen_scope.
Delimit Scope gen_scope with gen.
Notation "x <- c ;; k" := (gbind c (fun x => k))
  (at level 61, c at next level, right associativity) : gen_scope.
Notation "c ;; k" := (gbind c (fun _ => k))
  (at level 61, right associativity) : gen_scope.

(** ** model.py: the sampling step of both generators *)

Module Sampler.
Import PyCall.

Local Open Scope string_scope.

(** [t.squeeze()]: every axis of size 1 is removed. *)
Fixpoint squeeze (t : dtensor) : dtensor :=
  match t with
  | Scalar r => Scalar r
  | Stack items =>
      match items with
      | [t'] => squeeze t'
      | _ => Stack (map squeeze items)
      end
  end.

(** [t[:, j]] on a tensor of rank at most 2 (the ranks a squeezed tensor
    of dimensions (batch, 1, 2) can have); a tensor of rank below 2 has
    too many indices. *)
Definition select_col (t : dtensor) (j : nat) : result tensor1 :=
  match t with
  | Scalar _ => Raise (IndexError "too many indices for tensor of dimension 0")
  | Stack rows =>
      match all_some (map as_tensor1 rows) with
      | Some rows' =>
          if forallb (fun row => (j <? length row)%nat) rows'
          then Ok (map (fun row => nth j row 0) rows')
          else Raise (IndexError "index out of bounds for dimension 1")
      | None =>
          Raise (IndexError "too many indices for tensor of dimension 1")
      end
  end.

(** [t[:]] on a tensor of rank 1. *)
Definition select_all (t : dtensor) : result tensor1 :=
  match as_tensor1 t with
  | Some v => Ok v
  | None => Raise (IndexError "slice() cannot be applied to a 0-dim tensor")
  end.

(** [row.view(batch, m, 2)] of [mu[-1]] or [sigma[-1]], of dimensions
    (batch, 2 m). *)
Definition view_components (batch m : nat) (t : tensor2)
  : result (list (list (R * R))) :=
  if ((length t =? batch)%nat
      && forallb (fun row => (length row =? 2 * m)%nat) t)%bool
  then Ok (map view_pairs t)
  else Raise (RuntimeError "shape is invalid for input size").

(** [t.gather(dim=1, index=index_2)] on (batch, m, 2) with
    [index_2[b] = [[k_b, k_b]]]: the result (batch, 1, 2) holds, for each
    batch element, both coordinates of component [k_b]. *)
Definition gather_pairs (t : list (list (R * R))) (selected_mode : list nat)
  : result tensor3 :=
  if ((length selected_mode =? length t)%nat
      && forallb (fun p => (snd p <? length (fst p))%nat)
                 (combine t selected_mode))%bool
  then Ok (map2 (fun comps k =>
                   [[fst (nth k comps (0, 0)); snd (nth k comps (0, 0))]])
                t selected_mode)
  else Raise (RuntimeError "index out of range in gather").

(** [t.gather(dim=1, index=index_1)] on (batch, m) with
    [index_1[b] = [k_b]]: the result (batch, 1). *)
Definition gather_entries (t : tensor2) (selected_mode : list nat)
  : result tensor2 :=
  if ((length selected_mode =? length t)%nat
      && forallb (fun p => (snd p <? length (fst p))%nat)
                 (combine t selected_mode))%bool
  then Ok (map2 (fun row k => [nth k row 0]) t selected_mode)
  else Raise (RuntimeError "index out of range in gather").

(** The covariance matrices: [sigma2d[:, 0, 0]], [sigma2d[:, 1, 1]],
    [sigma2d[:, 0, 1]] and [sigma2d[:, 1, 0]] are assigned in this order
    from [sigma[:, 0] ** 2], [sigma[:, 1] ** 2] and
    [rho[:] * sigma[:, 0] * sigma[:, 1]]. *)
Definition covariance (sigma rho : dtensor) : result tensor3 :=
  (s0 <- select_col sigma 0 ;;
   let v00 := map (fun s => s ^ 2) s0 in
   s1 <- select_col sigma 1 ;;
   let v11 := map (fun s => s ^ 2) s1 in
   r <- select_all rho ;;
   s0 <- select_col sigma 0 ;;
   s1 <- select_col sigma 1 ;;
   let v01 := map3 (fun r a b => r * a * b) r s0 s1 in
   Ok (map3 (fun a b c => [[a; c]; [c; b]]) v00 v11 v01))%py.

(** The lines of both [generate] methods between the forward pass and
    the write of the offset: from the head of the last time step to the
    pen-lift values (batch,) and the offsets (batch, 2). *)
Definition sample_point {rng : Type} (S : samplers rng)
    (batch n_gaussians : nat) (hd : head) : gen rng (tensor1 * tensor2) :=
  (let e_last := last (Layers.e hd) [] in
   lift_bits <- draw (Bernoulli e_last) (fun g => bernoulli S g e_last) ;;
   let pi_last := last (Layers.pi hd) [] in
   selected_mode <-
     draw (Categorical pi_last) (fun g => categorical S g pi_last) ;;
   mu <- lift (mu_v <- view_components batch n_gaussians
                                       (last (Layers.mu hd) []) ;;
               mu_g <- gather_pairs mu_v selected_mode ;;
               Ok (squeeze (of_tensor3 mu_g)))%py ;;
   sigma <- lift (sigma_v <- view_components batch n_gaussians
                                             (last (Layers.sigma hd) []) ;;
                  sigma_g <- gather_pairs sigma_v selected_mode ;;
                  Ok (squeeze (of_tensor3 sigma_g)))%py ;;
   rho <- lift (rho_g <- gather_entries (last (Layers.rho hd) [])
                                        selected_mode ;;
                Ok (squeeze (of_tensor2 rho_g)))%py ;;
   sigma2d <- lift (covariance sigma rho) ;;
   loc <- lift (match as_tensor2 mu with
                | Some loc => Ok loc
                | None => Raise (ValueError "loc must be at least one-dimensional")
                end) ;;
   offsets <- draw (MultivariateNormal loc sigma2d)
                   (fun g => multivariate_normal S g loc sigma2d) ;;
   ret (lift_bits, offsets))%gen.

(** [samples[i, :, 0] = lift_bits] and [samples[i, :, 1:] = offsets]. *)
Definition write_point (samples : tensor3) (i : nat)
    (lift_bits : tensor1) (offsets : tensor2) : tensor3 :=
  firstn i samples
  ++ map3 (fun (_ : tensor1) l xy => l :: xy)
          (nth i samples []) lift_bits offsets
  :: skipn (S i) samples.

Definition zeros3 (a b c : nat) : tensor3 := repeat (repeat (repeat 0 c) b) a.

(** [torch.empty(a, b, c)]: a tensor of the given dimensions whose
    entries are whatever the memory holds, here [memory i j k]. *)
Definition empty3 (memory : nat -> nat -> nat -> R) (a b c : nat) : tensor3 :=
  map (fun i => map (fun j => map (memory i j) (seq 0 c)) (seq 0 b)) (seq 0 a).

End Sampler.


(** ** The parameters of the offset draw in the words of the spec *)

Module SamplerSpec.



End SamplerSpec.

Import SamplerSpec.

(** ** model.py: the two generate methods *)

Module Generation.
Import PyCall Sampler.

Local Open Scope string_scope.

(** The loop [for i in range(1, length + 1)] over a loop state. *)
Fixpoint for_each {rng St : Type} (indices : list nat)
    (body : nat -> St -> gen rng St) (st : St) : gen rng St :=
  match indices with
  | [] => ret st
  | i :: rest => (st' <- body i st ;; for_each rest body st')%gen
  end.

(** One iteration of the loop of [HandWritingRNN.generate]. *)
Definition uncond_step {rng : Type} (S : samplers rng)
    (self : HandWritingRNN.t) (batch : nat) (i : nat)
    (st : tensor3 * option (list lstm_state))
  : gen rng (tensor3 * option (list lstm_state)) :=
  (let '(samples, lstm_states) := st in
   let inp := slice (i - 1) i samples in
   log (Forward inp) ;;
   out <- lift (HandWritingRNN.forward self inp lstm_states) ;;
   pt <- sample_point S batch (HandWritingRNN.n_gaussians self) (fst out) ;;
   ret (write_point samples i (fst pt) (snd pt), Some (snd out)))%gen.

(** [HandWritingRNN.generate(self, length, batch)]. *)
Definition uncond_generate {rng : Type} (S : samplers rng)
    (self : HandWritingRNN.t) (length batch : nat) : gen rng tensor3 :=
  (let samples := zeros3 (length + 1) batch 3 in
   st <- for_each (seq 1 length) (uncond_step S self batch) (samples, None) ;;
   ret (tl (fst st)))%gen.

(** [torch.nn.utils.rnn.pad_sequence(sentences, batch_first=True,
    padding_value=0.0)]: every sentence (U_i, n_char) is extended with
    zero rows to the longest length. *)
Definition pad_sequence (sentences : list tensor2) : result tensor3 :=
  match sentences with
  | [] => Raise (RuntimeError "received an empty list of sequences")
  | first :: _ =>
      let U := fold_right Nat.max 0%nat (map (@length tensor1) sentences) in
      let n_char := length (hd [] first) in
      Ok (map (fun s => s ++ repeat (repeat 0 n_char) (U - length s))%list
              sentences)
  end.

(** The loop state of [HandWritingSynthRNN.generate]: samples,
    lstm_states, window and kappa. *)
Definition synth_state : Type :=
  (tensor3 * option HandWritingSynthRNN.states * tensor2
   * HandWritingSynthRNN.kappa_t)%type.

Definition synth_step {rng : Type} (S : samplers rng)
    (self : HandWritingSynthRNN.t) (c_seq : tensor3) (batch : nat) (i : nat)
    (st : synth_state) : gen rng synth_state :=
  (let '(samples, lstm_states, window, kappa) := st in
   let inp := slice (i - 1) i samples in
   log (Forward inp) ;;
   out <- lift (HandWritingSynthRNN.forward self inp c_seq lstm_states
                                            (Some window) kappa) ;;
   pt <- sample_point S batch (HandWritingSynthRNN.n_gaussians self)
                      (HandWritingSynthRNN.params out) ;;
   ret (write_point samples i (fst pt) (snd pt),
        Some (HandWritingSynthRNN.lstm_out_states out),
        HandWritingSynthRNN.out_window out,
        HandWritingSynthRNN.out_kappa out))%gen.

(** [HandWritingSynthRNN.generate(self, sentences)]; [memory] is the
    content of the buffer that [torch.empty] returns. *)
Definition synth_generate {rng : Type} (S : samplers rng)
    (memory : nat -> nat -> nat -> R)
    (self : HandWritingSynthRNN.t) (sentences : list tensor2)
  : gen rng tensor3 :=
  (c_seq <- lift (pad_sequence sentences) ;;
   let batch := length c_seq in
   let n_char := length (hd [] (hd [] c_seq)) in
   let length := 600%nat in
   let samples := empty3 memory (length + 1) batch 3 in
   let window := HandWritingSynthRNN.zeros2 batch n_char in
   let kappa :=
     HandWritingSynthRNN.KTensor
       (HandWritingSynthRNN.zeros2
          batch (HandWritingSynthRNN.n_gaussians_window self)) in
   st <- for_each (seq 1 length) (synth_step S self c_seq batch)
                  (samples, None, window, kappa) ;;
   ret (tl (fst (fst (fst st)))))%gen.

(** Samplers for examples: every pen-lift bit is 0, every component is
    component 0, every offset is the mean. *)
Definition mode_samplers : samplers unit :=
  mkSamplers (fun g probs => (map (fun _ => 0) probs, g))
             (fun g probs => (map (fun _ => 0%nat) probs, g))
             (fun g loc _ => (loc, g)).

End Generation.


(** ** train.py: HandWritingData *)

Module HandWritingData.

Local Open Scope string_scope.

(** The attributes [__init__] and [pad_data] set. *)
Record t : Type := mk {
  len : nat;
  sentences : list tensor2;
  padded_strokes : tensor3;
  masks : tensor2;
  padded_sentences : tensor3;
  sentence_masks : tensor2;
  strokes_padded_len : nat;
  sentences_padded_len : nat
}.

(** What the constructor does: it returns the dataset, fails its
    [assert], or raises an exception of torch. *)
Inductive construction : Type :=
| Constructed (d : t)
| AssertionError
| Raised (e : exn).

(** [row[: n] = 1]: the first [n] entries of the row are set to 1, all of
    them when the row has fewer. *)
Definition set_prefix (n : nat) (row : tensor1) : tensor1 :=
  (repeat 1 (Nat.min n (length row)) ++ skipn n row)%list.

(** [masks[i] = row]. *)
Definition set_row (masks : tensor2) (i : nat) (row : tensor1) : tensor2 :=
  (firstn i masks ++ row :: skipn (S i) masks)%list.

(** The loop [for i, s in enumerate(seqs): masks[i, : s.shape[0]] = 1],
    from index [i] on; [masks[i]] raises IndexError past the last row. *)
Fixpoint mark_rows (masks : tensor2) (i : nat) (seqs : list tensor2)
  : result tensor2 :=
  match seqs with
  | [] => Ok masks
  | s :: rest =>
      (row <- getitem masks i ;;
       mark_rows (set_row masks i (set_prefix (length s) row)) (S i) rest)%py
  end.

(** [t.shape[1]] of a tensor of dimensions (N, T, d). *)
Definition shape1 (t : tensor3) : nat := length (hd [] t).

(** [pad_data(self, sentences, strokes)] with [self.len] and
    [self.sentences] already set. *)
Definition pad_data (len : nat) (sentences strokes : list tensor2) : result t :=
  (padded_strokes <- Generation.pad_sequence strokes ;;
   masks <- mark_rows (HandWritingSynthRNN.zeros2 len (shape1 padded_strokes))
                      0 strokes ;;
   padded_sentences <- Generation.pad_sequence sentences ;;
   sentence_masks <-
     mark_rows (HandWritingSynthRNN.zeros2 len (shape1 padded_sentences))
               0 sentences ;;
   Ok (mk len sentences padded_strokes masks padded_sentences sentence_masks
          (shape1 padded_strokes) (shape1 padded_sentences)))%py.

(** [HandWritingData(sentences, strokes)]. *)
Definition init (sentences strokes : list tensor2) : construction :=
  if (length sentences =? length strokes)%nat then
    match pad_data (length strokes) sentences strokes with
    | Ok d => Constructed d
    | Raise e => Raised e
    end
  else AssertionError.

(** [t[idx]] on the first axis of a tensor, for an index from 0. *)
Definition index0 {A : Type} (t : list A) (idx : nat) : result A :=
  match nth_error t idx with
  | Some a => Ok a
  | None => Raise (IndexError "index is out of bounds for dimension 0")
  end.

(** [__getitem__(self, idx)]. *)
Definition __getitem__ (self : t) (idx : nat)
  : result (tensor2 * tensor2 * tensor1 * tensor1) :=
  (sentence <- index0 (padded_sentences self) idx ;;
   stroke <- index0 (padded_strokes self) idx ;;
   mask <- index0 (masks self) idx ;;
   sentence_mask <- index0 (sentence_masks self) idx ;;
   Ok (sentence, stroke, mask, sentence_mask))%py.

(** [__len__(self)]. *)
Definition __len__ (self : t) : nat := len self.


End HandWritingData.

(** ** train.py: the tensors of one iteration of the training loop *)

Module LoopTensors.
Import Batch.

(** From one item of the data loader to [inp_x = x[:-1]], the targets
    [x[1:]] and [masks[:-1]], after [x] and [masks] were permuted to
    time-major order. *)
Definition loop_tensors (bt : batch) : tensor3 * tensor3 * tensor2 :=
  let x := permute10 (x bt) in
  let masks := permute10 (masks bt) in
  let inp_x := removelast x in
  let masks := removelast masks in
  (inp_x, tl x, masks).

End LoopTensors.

(** ** The loss as a function of its weighted steps *)

Module LossGrid.

(** The zip of six lists. *)
Fixpoint zip6 {A B C D E F : Type} (a : list A) (b : list B) (c : list C)
    (d : list D) (e : list E) (f : list F) : list (A * B * C * D * E * F) :=
  match a, b, c, d, e, f with
  | a0 :: a', b0 :: b', c0 :: c', d0 :: d', e0 :: e', f0 :: f' =>
      (a0, b0, c0, d0, e0, f0) :: zip6 a' b' c' d' e' f'
  | _, _, _, _, _, _ => []
  end.

(** [criterion] on the list of the steps with their masks. *)
Definition weighted_loss (steps : list (step_data * R)) : xreal :=
  (- (xsum (map (fun sm => step_term (fst sm) * Fin (snd sm)) steps)
      / Fin (Rsum (map snd steps))))%X.

(** The steps of one time step with their masks. *)
Definition time_step_data : Type :=
  (list (list R) * list R * list (list R) * list (list R) * list (list R)
   * list (list R) * list R)%type.

Definition block (ts : time_step_data) : list (step_data * R) :=
  let '(x, e, log_pi, mu, sigma, rho, masks) := ts in
  combine (zip6 x e log_pi mu sigma rho) masks.

End LossGrid.

(** ** What padding and masks are to be *)

Module DataSpec.

(** The length of the longest sequence. *)
Definition longest (seqs : list tensor2) : nat :=
  fold_right Nat.max 0%nat (map (@length tensor1) seqs).


(** The sequences have one width: their rows all have the same number
    of entries, as [pad_sequence] requires of the trailing dimensions. *)
Definition uniform_width (seqs : list tensor2) : Prop :=
  exists width, Forall (Forall (fun row : tensor1 => length row = width)) seqs.

End DataSpec.

(** ** The calls of a generation run by kind *)

Module Trace.

Inductive call : Type :=
| CForward
| CBernoulli
| CCategorical
| CMultivariateNormal.

Definition kind (ev : event) : call :=
  match ev with
  | Forward _ => CForward
  | Bernoulli _ => CBernoulli
  | Categorical _ => CCategorical
  | MultivariateNormal _ _ => CMultivariateNormal
  end.

(** The calls of one generation step, in order. *)
Definition step_calls : list call :=
  [CForward; CBernoulli; CCategorical; CMultivariateNormal].

End Trace.

(** ** Translations of the plane *)

Module Plane.

(** The point [p] moved by the offset [d]. *)
Definition translate (d p : R * R) : R * R := (fst p + fst d, snd p + snd d).

End Plane.


(** * Part II: lemmas and theorems *)

(** ** Arithmetic of the extended reals *)

Module XRealFacts.

Lemma Rsign_pos (r : R) : 0 < r -> Rsign r = Pos.
Proof.
  intros H. unfold Rsign.
  destruct (total_order_T r 0) as [[Hlt | Heq] | Hgt]; try reflexivity; lra.
Qed.

Lemma Rsign_neg (r : R) : r < 0 -> Rsign r = Neg.
Proof.
  intros H. unfold Rsign.
  destruct (total_order_T r 0) as [[Hlt | Heq] | Hgt]; try reflexivity; lra.
Qed.

Lemma Rsign_zero : Rsign 0 = Zero.
Proof.
  unfold Rsign.
  destruct (total_order_T 0 0) as [[Hlt | Heq] | Hgt]; try reflexivity; lra.
Qed.

Lemma Rsign_nonzero (r : R) : r <> 0 -> Rsign r <> Zero.
Proof.
  intros H. unfold Rsign.
  destruct (total_order_T r 0) as [[Hlt | Heq] | Hgt]; congruence.
Qed.

Lemma xdiv_fin (r s : R) : s <> 0 -> xdiv (Fin r) (Fin s) = Fin (r / s).
Proof.
  intros H. simpl. pose proof (Rsign_nonzero s H) as Hs.
  destruct (Rsign s); congruence.
Qed.

Lemma xlog_fin (r : R) : 0 < r -> xlog (Fin r) = Fin (ln r).
Proof. intros H. simpl. rewrite (Rsign_pos r H). reflexivity. Qed.

Lemma xlog_neg (r : R) : r < 0 -> xlog (Fin r) = NaN.
Proof. intros H. simpl. rewrite (Rsign_neg r H). reflexivity. Qed.

Lemma xadd_comm (a b : xreal) : xadd a b = xadd b a.
Proof.
  destruct a, b; simpl; try reflexivity.
  f_equal. apply Rplus_comm.
Qed.

Lemma xadd_assoc (a b c : xreal) : xadd a (xadd b c) = xadd (xadd a b) c.
Proof.
  destruct a, b, c; simpl; try reflexivity.
  f_equal. symmetry. apply Rplus_assoc.
Qed.

Lemma xadd_nan_r (a : xreal) : xadd a NaN = NaN.
Proof. destruct a; reflexivity. Qed.

Lemma xmul_nan_l (a : xreal) : xmul NaN a = NaN.
Proof. destruct a; reflexivity. Qed.

Lemma xmul_fin_zero (r : R) : xmul (Fin r) (Fin 0) = Fin 0.
Proof. simpl. f_equal. apply Rmult_0_r. Qed.

Lemma xmul_fin_one (r : R) : xmul (Fin r) (Fin 1) = Fin r.
Proof. simpl. f_equal. apply Rmult_1_r. Qed.

(** Summation does not depend on the order of the summands. *)
Lemma xsum_perm (l l' : list xreal) : Permutation l l' -> xsum l = xsum l'.
Proof.
  induction 1 as [| a l l' _ IH | a b l | l l' l'' _ IH1 _ IH2]; simpl.
  - reflexivity.
  - now rewrite IH.
  - rewrite !xadd_assoc. f_equal. apply xadd_comm.
  - now rewrite IH1.
Qed.

Lemma xsum_fin (l : list R) : xsum (map Fin l) = Fin (Rsum l).
Proof.
  induction l as [| r l IH]; simpl; [reflexivity |].
  now rewrite IH.
Qed.

(** A NaN summand makes the sum NaN. *)
Lemma xsum_nan (l : list xreal) : In NaN l -> xsum l = NaN.
Proof.
  induction l as [| a l IH]; simpl; [tauto |].
  intros [-> | Hin].
  - reflexivity.
  - rewrite (IH Hin). apply xadd_nan_r.
Qed.

End XRealFacts.


(** ** Lists: indexing by a permutation *)

Module TensorFacts.

Lemma map_nth_seq {A : Type} (d : A) (row : list A) :
  map (fun i => nth i row d) (seq 0 (length row)) = row.
Proof.
  induction row as [| a row IH]; simpl; [reflexivity |].
  f_equal. rewrite <- seq_shift, map_map. exact IH.
Qed.

Lemma permute_Permutation {A : Type} (d : A) (p : list nat) (row : list A) :
  Permutation p (seq 0 (length row)) -> Permutation (permute d p row) row.
Proof.
  intros Hp. unfold permute.
  apply (Permutation_map (fun i => nth i row d)) in Hp.
  now rewrite map_nth_seq in Hp.
Qed.

Lemma Permutation_seq_bound (p : list nat) (m : nat) :
  Permutation p (seq 0 m) -> Forall (fun i => (i < m)%nat) p.
Proof.
  intros Hp. apply Forall_forall. intros i Hi.
  apply (Permutation_in _ Hp), in_seq in Hi. lia.
Qed.

Lemma length_map2 {A B C : Type} (f : A -> B -> C) (l : list A) (l' : list B) :
  length (map2 f l l') = Nat.min (length l) (length l').
Proof.
  revert l'. induction l as [| a l IH]; intros [| b l']; simpl; auto.
Qed.

Lemma nth_map2 {A B C : Type} (f : A -> B -> C) (l : list A) (l' : list B)
    (i : nat) (da : A) (db : B) (dc : C) :
  (i < length (map2 f l l'))%nat ->
  nth i (map2 f l l') dc = f (nth i l da) (nth i l' db).
Proof.
  revert l l'. induction i as [| i IH]; intros [| a l] [| b l']; simpl;
    intros H; try lia; try reflexivity.
  apply IH. lia.
Qed.

Lemma nth_map_in {A B : Type} (f : A -> B) (l : list A) (i : nat)
    (da : A) (db : B) :
  (i < length l)%nat -> nth i (map f l) db = f (nth i l da).
Proof.
  intros H. rewrite (nth_indep _ db (f da)) by now rewrite length_map.
  apply map_nth.
Qed.

Lemma firstn_succ {A : Type} (l : list A) (i : nat) (d : A) :
  (i < length l)%nat -> firstn (S i) l = firstn i l ++ [nth i l d].
Proof.
  revert l. induction i as [| i IH]; intros [| a l]; simpl; intros H;
    try lia; try reflexivity.
  f_equal. apply IH. lia.
Qed.

(** A zip of two lists of length [n], entry by entry. *)
Lemma map2_seq {A B C : Type} (f : A -> B -> C) (l : list A) (l' : list B)
    (n : nat) (da : A) (db : B) :
  length l = n -> length l' = n ->
  map2 f l l' = map (fun i => f (nth i l da) (nth i l' db)) (seq 0 n).
Proof.
  revert l l'. induction n as [| n IH]; intros [| a l] [| b l'] Hl Hl';
    simpl in *; try lia; try reflexivity.
  f_equal. rewrite <- seq_shift, map_map. apply IH; lia.
Qed.

Lemma map3_seq {A B C D : Type} (f : A -> B -> C -> D)
    (l : list A) (l' : list B) (l'' : list C) (n : nat)
    (da : A) (db : B) (dc : C) :
  length l = n -> length l' = n -> length l'' = n ->
  map3 f l l' l''
  = map (fun i => f (nth i l da) (nth i l' db) (nth i l'' dc)) (seq 0 n).
Proof.
  revert l l' l''.
  induction n as [| n IH]; intros [| a l] [| b l'] [| c l''] Hl Hl' Hl'';
    simpl in *; try lia; try reflexivity.
  f_equal. rewrite <- seq_shift, map_map. apply IH; lia.
Qed.

Lemma Rsum_app (l l' : list R) : Rsum (l ++ l') = Rsum l + Rsum l'.
Proof.
  induction l as [| r l IH]; simpl; [lra |]. rewrite IH. lra.
Qed.

Lemma length_sum_axis0 (width : nat) (rows : list (list R)) :
  Forall (fun row => length row = width) rows ->
  length (sum_axis0 width rows) = width.
Proof.
  induction 1 as [| row rows Hrow _ IH]; simpl.
  - apply repeat_length.
  - rewrite length_map2, IH, Hrow. apply Nat.min_id.
Qed.

(** Entry [j] of the sum of the rows is the sum of the entries [j]. *)
Lemma nth_sum_axis0 (width : nat) (rows : list (list R)) (j : nat) :
  Forall (fun row => length row = width) rows ->
  (j < width)%nat ->
  nth j (sum_axis0 width rows) 0 = Rsum (map (fun row => nth j row 0) rows).
Proof.
  intros Hrows Hj.
  induction Hrows as [| row rows Hrow Hrows IH]; simpl.
  - apply nth_repeat_lt. exact Hj.
  - rewrite (nth_map2 _ _ _ j 0 0 0).
    + fold (sum_axis0 width rows). now rewrite IH.
    + rewrite length_map2. fold (sum_axis0 width rows).
      rewrite (length_sum_axis0 width rows Hrows), Hrow. lia.
Qed.

End TensorFacts.


(** ** The mixture log-density does not depend on the order of the components *)

Module MogFacts.
Import Loss XRealFacts TensorFacts.

Lemma nth_components (i : nat) (log_pi : list R) (mu sigma : list (R * R))
    (rho : list R) :
  (i < length log_pi)%nat -> (i < length mu)%nat ->
  (i < length sigma)%nat -> (i < length rho)%nat ->
  nth i (components log_pi mu sigma rho) (0, (0, 0), (0, 0), 0)
  = (nth i log_pi 0, nth i mu (0, 0), nth i sigma (0, 0), nth i rho 0).
Proof.
  revert log_pi mu sigma rho.
  induction i as [| i IH]; intros [| p lp] [| u mu] [| s sg] [| r rho];
    simpl; intros; try lia; try reflexivity.
  apply IH; lia.
Qed.

Lemma length_components (m : nat) (log_pi : list R) (mu sigma : list (R * R))
    (rho : list R) :
  length log_pi = m -> length mu = m -> length sigma = m -> length rho = m ->
  length (components log_pi mu sigma rho) = m.
Proof.
  revert log_pi mu sigma rho.
  induction m as [| m IH]; intros [| p lp] [| u mu] [| s sg] [| r rho];
    simpl; intros; try lia; try reflexivity.
  f_equal. apply IH; lia.
Qed.

(** Indexing the four rows by [p] is indexing their zip by [p]. *)
Lemma components_permute (m : nat) (p : list nat) (log_pi : list R)
    (mu sigma : list (R * R)) (rho : list R) :
  Forall (fun i => (i < m)%nat) p ->
  length log_pi = m -> length mu = m -> length sigma = m -> length rho = m ->
  components (permute 0 p log_pi) (permute (0, 0) p mu)
             (permute (0, 0) p sigma) (permute 0 p rho)
  = permute (0, (0, 0), (0, 0), 0) p (components log_pi mu sigma rho).
Proof.
  intros Hp Hlp Hmu Hsg Hrho.
  induction Hp as [| i p Hi _ IH]; simpl; [reflexivity |].
  rewrite IH. f_equal.
  symmetry. apply nth_components; lia.
Qed.

Lemma logsumexp_perm (l l' : list xreal) :
  Permutation l l' -> logsumexp l = logsumexp l'.
Proof.
  intros H. unfold logsumexp. f_equal.
  apply xsum_perm. now apply Permutation_map.
Qed.

Lemma row_log_density_permute (m : nat) (p : list nat) (x : R * R)
    (log_pi : list R) (mu sigma : list (R * R)) (rho : list R) :
  Permutation p (seq 0 m) ->
  length log_pi = m -> length mu = m -> length sigma = m -> length rho = m ->
  row_log_density x (permute 0 p log_pi) (permute (0, 0) p mu)
                  (permute (0, 0) p sigma) (permute 0 p rho)
  = row_log_density x log_pi mu sigma rho.
Proof.
  intros Hp Hlp Hmu Hsg Hrho. unfold row_log_density.
  rewrite (components_permute m) by
    (try assumption; now apply Permutation_seq_bound).
  apply logsumexp_perm, Permutation_map, permute_Permutation.
  now rewrite (length_components m).
Qed.

(** C8.  For every [x] and every permutation [p] of the [m] mixture
    components, reordering the component axis of [log_pi], [mu], [sigma]
    and [rho] by [p] leaves every log-density returned by
    [mog_density_2d] unchanged. *)
Theorem mog_density_2d_permutation_invariant (m : nat) (p : list nat)
    (x : list (R * R)) (log_pi : list (list R))
    (mu sigma : list (list (R * R))) (rho : list (list R)) :
  Permutation p (seq 0 m) ->
  Forall (dims1 m) log_pi -> Forall (dims1 m) mu ->
  Forall (dims1 m) sigma -> Forall (dims1 m) rho ->
  mog_density_2d x (map (permute 0 p) log_pi) (map (permute (0, 0) p) mu)
                 (map (permute (0, 0) p) sigma) (map (permute 0 p) rho)
  = mog_density_2d x log_pi mu sigma rho.
Proof.
  intros Hp Hlp. revert x mu sigma rho.
  induction Hlp as [| lp log_pi Hlen _ IH];
    intros [| xi x] mu sigma rho Hmu Hsg Hrho; try reflexivity.
  destruct Hmu as [| u mu Hu Hmu]; [reflexivity |].
  destruct Hsg as [| s sigma Hs Hsg]; [reflexivity |].
  destruct Hrho as [| r rho Hr Hrho]; [reflexivity |].
  simpl. f_equal.
  - now apply (row_log_density_permute m).
  - now apply IH.
Qed.

(** The invariance at two rows of two components, swapped. *)
Lemma mog_density_2d_permutation_invariant_witness :
  mog_density_2d [(0, 0); (1, 2)]
    (map (permute 0 [1; 0]%nat) [[-1; -2]; [-3; -4]])
    (map (permute (0, 0) [1; 0]%nat) [[(0, 0); (1, 1)]; [(2, 0); (0, 2)]])
    (map (permute (0, 0) [1; 0]%nat) [[(1, 1); (2, 3)]; [(1, 2); (3, 1)]])
    (map (permute 0 [1; 0]%nat) [[0; / 2]; [- / 2; 0]])
  = mog_density_2d [(0, 0); (1, 2)]
      [[-1; -2]; [-3; -4]]
      [[(0, 0); (1, 1)]; [(2, 0); (0, 2)]]
      [[(1, 1); (2, 3)]; [(1, 2); (3, 1)]]
      [[0; / 2]; [- / 2; 0]].
Proof.
  apply (mog_density_2d_permutation_invariant 2).
  - simpl. apply perm_swap.
  - repeat constructor.
  - repeat constructor.
  - repeat constructor.
  - repeat constructor.
Defined.

End MogFacts.


(** ** The output head keeps its parameters in range *)

Module HeadFacts.

Lemma tanh_range (v : R) : -1 < tanh v < 1.
Proof.
  unfold tanh, sinh, cosh.
  pose proof (exp_pos v) as Hp. pose proof (exp_pos (- v)) as Hn.
  assert (Hc : 0 < (exp v + exp (- v)) / 2) by lra.
  split.
  - apply Rmult_lt_reg_r with ((exp v + exp (- v)) / 2); [exact Hc |].
    unfold Rdiv at 2. rewrite Rmult_assoc, Rinv_l by lra. lra.
  - apply Rmult_lt_reg_r with ((exp v + exp (- v)) / 2); [exact Hc |].
    unfold Rdiv at 1. rewrite Rmult_assoc, Rinv_l by lra. lra.
Qed.

Lemma sigmoid_range (v : R) : 0 < sigmoid v < 1.
Proof.
  unfold sigmoid. pose proof (exp_pos (- v)) as Hn.
  split.
  - apply Rdiv_lt_0_compat; lra.
  - apply Rmult_lt_reg_r with (1 + exp (- v)); [lra |].
    unfold Rdiv. rewrite Rmult_assoc, Rinv_l by lra. lra.
Qed.

Lemma Rsum_exp_pos (row : tensor1) : row <> [] -> 0 < Rsum (map exp row).
Proof.
  destruct row as [| v row]; [congruence | intros _].
  simpl. pose proof (exp_pos v) as Hv.
  assert (H0 : 0 <= Rsum (map exp row)).
  { induction row as [| w row IH]; simpl; [lra |].
    pose proof (exp_pos w). lra. }
  lra.
Qed.

Lemma Rsum_map_div (f : R -> R) (s : R) (row : tensor1) :
  Rsum (map (fun v => f v / s) row) = Rsum (map f row) / s.
Proof.
  induction row as [| v row IH]; simpl.
  - unfold Rdiv. now rewrite Rmult_0_l.
  - rewrite IH. unfold Rdiv. now rewrite Rmult_plus_distr_r.
Qed.

(** The weights of a softmax over a non-empty axis sum to 1. *)
Lemma softmax_sum (row : tensor1) : row <> [] -> Rsum (softmax row) = 1.
Proof.
  intros Hne. unfold softmax. rewrite Rsum_map_div.
  pose proof (Rsum_exp_pos row Hne) as Hs.
  unfold Rdiv. apply Rinv_r. lra.
Qed.

Lemma select_last_ok (i : nat) (y : tensor3) (v : tensor2) :
  select_last i y = Ok v ->
  v = map (map (fun row => nth i row 0)) y
  /\ Forall (Forall (fun row => (i < length row)%nat)) y.
Proof.
  unfold select_last.
  destruct (forallb _ y) eqn:Hall; [| discriminate].
  intros [= <-]. split; [reflexivity |].
  rewrite forallb_forall in Hall.
  apply Forall_forall. intros plane Hplane.
  specialize (Hall plane Hplane). rewrite forallb_forall in Hall.
  apply Forall_forall. intros row Hrow.
  now apply Nat.ltb_lt, Hall.
Qed.

Lemma Forall_map_iff {A B : Type} (f : A -> B) (P : B -> Prop) (l : list A) :
  Forall P (map f l) <-> Forall (fun a => P (f a)) l.
Proof. apply Forall_map. Qed.

Lemma output_head_in_range (m : nat) (y : tensor3) (hd : head) :
  (0 < m)%nat -> output_head m y = Ok hd -> head_in_range hd.
Proof.
  intros Hm. unfold output_head.
  destruct (select_last (6 * m) y) as [v | ex] eqn:Hsel; [| discriminate].
  simpl. intros [= <-].
  apply select_last_ok in Hsel. destruct Hsel as [-> Hlen].
  unfold head_in_range. simpl. repeat split.
  - apply Forall_map_iff.
    eapply Forall_impl; [| exact Hlen]. intros plane Hplane.
    apply Forall_map_iff.
    eapply Forall_impl; [| exact Hplane]. intros row Hrow. simpl in *.
    apply softmax_sum. unfold cols, slice.
    destruct row as [| r row]; simpl in Hrow; [lia |].
    destruct m as [| m']; [lia |]. simpl. congruence.
  - apply Forall_map_iff, Forall_forall. intros plane _.
    apply Forall_map_iff, Forall_forall. intros row _.
    apply Forall_map_iff, Forall_forall. intros s _. apply exp_pos.
  - apply Forall_map_iff, Forall_forall. intros plane _.
    apply Forall_map_iff, Forall_forall. intros row _.
    apply Forall_map_iff, Forall_forall. intros s _. apply tanh_range.
  - apply Forall_map_iff, Forall_forall. intros plane _.
    apply Forall_map_iff, Forall_forall. intros p _. apply sigmoid_range.
Qed.

End HeadFacts.


(** ** The numbers of float32 around 0 and 1, and the head on float32 *)

Module Float32Facts.
Import Float32 HeadFacts.

Lemma scale_pos : 0 < IZR (2 ^ 149).
Proof. apply IZR_lt. reflexivity. Qed.

Lemma representable_IZR (n : Z) :
  (Z.abs n < 2 ^ 24)%Z -> representable (IZR n).
Proof.
  intros Hn. exists n, 149%Z. split; [exact Hn |]. split; [lia |].
  rewrite mult_IZR. field. pose proof scale_pos. lra.
Qed.

Lemma representable_0 : representable 0.
Proof. apply (representable_IZR 0). reflexivity. Qed.

Lemma representable_1 : representable 1.
Proof. apply (representable_IZR 1). reflexivity. Qed.

Lemma representable_m1 : representable (-1).
Proof. apply (representable_IZR (-1)). reflexivity. Qed.

(** Every number of the format is a multiple of 2^-149. *)
Lemma representable_grid (g : R) :
  representable g -> exists n : Z, g = IZR n / IZR (2 ^ 149).
Proof. intros (m & k & _ & _ & ->). now exists (m * 2 ^ k)%Z. Qed.

(** The largest number of the format below 1 is 1 - 2^-24. *)
Lemma below_one (g : R) :
  representable g -> g < 1 -> g <= 1 - / IZR (2 ^ 24).
Proof.
  intros (m & k & Hm & Hk & ->) Hlt.
  pose proof scale_pos as HS.
  assert (Hz : (m * 2 ^ k < 2 ^ 149)%Z).
  { apply lt_IZR. apply (Rmult_lt_reg_r (/ IZR (2 ^ 149))).
    - now apply Rinv_0_lt_compat.
    - rewrite Rinv_r by lra. exact Hlt. }
  assert (Hle : (m * 2 ^ k <= 2 ^ 149 - 2 ^ 125)%Z).
  { destruct (Z_lt_le_dec k 125) as [Hk1 | Hk1].
    - destruct (Z_le_gt_dec m 0) as [Hm0 | Hm0].
      + assert (0 <= 2 ^ k)%Z by (apply Z.pow_nonneg; lia).
        assert (m * 2 ^ k <= 0)%Z by nia.
        assert (0 <= 2 ^ 149 - 2 ^ 125)%Z by (vm_compute; discriminate).
        lia.
      + assert (Hp : (2 ^ k <= 2 ^ 124)%Z) by (apply Z.pow_le_mono_r; lia).
        assert (0 < 2 ^ k)%Z by (apply Z.pow_pos_nonneg; lia).
        assert (Hm1 : (m <= 2 ^ 24 - 1)%Z) by lia.
        assert (m * 2 ^ k <= (2 ^ 24 - 1) * 2 ^ 124)%Z.
        { apply Z.mul_le_mono_nonneg; lia. }
        assert ((2 ^ 24 - 1) * 2 ^ 124 <= 2 ^ 149 - 2 ^ 125)%Z
          by (vm_compute; discriminate).
        lia.
    - replace k with ((k - 125) + 125)%Z in * by lia.
      rewrite Z.pow_add_r in * by lia.
      set (q := (m * 2 ^ (k - 125))%Z).
      assert (Hq : (q * 2 ^ 125 < 2 ^ 24 * 2 ^ 125)%Z).
      { unfold q. rewrite <- Z.mul_assoc.
        replace (2 ^ 24 * 2 ^ 125)%Z with (2 ^ 149)%Z by reflexivity.
        exact Hz. }
      apply Z.mul_lt_mono_pos_r in Hq; [| reflexivity].
      assert (Hq1 : (q <= 2 ^ 24 - 1)%Z) by lia.
      rewrite Z.mul_assoc. fold q.
      replace (2 ^ 149 - 2 ^ 125)%Z with ((2 ^ 24 - 1) * 2 ^ 125)%Z
        by reflexivity.
      apply Z.mul_le_mono_nonneg_r; [vm_compute; discriminate | exact Hq1]. }
  apply IZR_le in Hle. rewrite minus_IZR in Hle.
  replace (/ IZR (2 ^ 24)) with (IZR (2 ^ 125) / IZR (2 ^ 149)).
  - apply (Rmult_le_reg_r (IZR (2 ^ 149))); [exact HS |].
    unfold Rdiv. rewrite Rmult_assoc, Rinv_l by lra.
    rewrite Rmult_minus_distr_r, Rmult_assoc, Rinv_l by lra. lra.
  - replace (2 ^ 149)%Z with (2 ^ 125 * 2 ^ 24)%Z by reflexivity.
    rewrite mult_IZR. field.
    split; apply not_0_IZR; discriminate.
Qed.

(** The smallest positive number of the format is 2^-149. *)
Lemma above_zero (g : R) :
  representable g -> 0 < g -> / IZR (2 ^ 149) <= g.
Proof.
  intros Hg Hpos. destruct (representable_grid g Hg) as [n ->].
  pose proof scale_pos as HS.
  assert (Hn : (0 < n)%Z).
  { apply lt_IZR. apply (Rmult_lt_reg_r (/ IZR (2 ^ 149))).
    - now apply Rinv_0_lt_compat.
    - rewrite Rmult_0_l. exact Hpos. }
  assert (H1 : 1 <= IZR n) by (apply IZR_le; lia).
  unfold Rdiv. apply (Rmult_le_reg_r (IZR (2 ^ 149))); [exact HS |].
  rewrite Rmult_assoc, !Rinv_l by lra. lra.
Qed.

(** Rounding to nearest keeps a value between the numbers of the format
    around it. *)
Lemma nearest_ge (x f a : R) :
  nearest x f -> representable a -> a <= x -> a <= f.
Proof.
  intros [_ Hmin] Ha Hax. specialize (Hmin a Ha).
  destruct (Rle_or_lt a f) as [H | H]; [exact H | exfalso].
  unfold Rabs in Hmin.
  destruct (Rcase_abs (f - x)), (Rcase_abs (a - x)); lra.
Qed.

Lemma nearest_le (x f b : R) :
  nearest x f -> representable b -> x <= b -> f <= b.
Proof.
  intros [_ Hmin] Hb Hxb. specialize (Hmin b Hb).
  destruct (Rle_or_lt f b) as [H | H]; [exact H | exfalso].
  unfold Rabs in Hmin.
  destruct (Rcase_abs (f - x)), (Rcase_abs (b - x)); lra.
Qed.

Lemma inv_2_25 : / IZR (2 ^ 24) = 2 * / IZR (2 ^ 25).
Proof.
  replace (2 ^ 25)%Z with (2 * 2 ^ 24)%Z by reflexivity.
  rewrite mult_IZR. field. apply not_0_IZR. discriminate.
Qed.

Lemma inv_2_25_pos : 0 < / IZR (2 ^ 25).
Proof. apply Rinv_0_lt_compat, IZR_lt. reflexivity. Qed.

(** Saturation: a value within 2^-25 below 1 is rounded to 1. *)
Lemma nearest_near_one (x f : R) :
  1 - / IZR (2 ^ 25) < x <= 1 -> nearest x f -> f = 1.
Proof.
  intros Hx Hf.
  pose proof (nearest_le x f 1 Hf representable_1 ltac:(lra)) as Hle.
  destruct (Rle_lt_or_eq_dec f 1 Hle) as [Hlt | Heq]; [exfalso | exact Heq].
  destruct Hf as [Hrep Hmin].
  pose proof (below_one f Hrep Hlt) as Hb.
  specialize (Hmin 1 representable_1).
  pose proof inv_2_25 as H24. pose proof inv_2_25_pos as Hp.
  unfold Rabs in Hmin.
  destruct (Rcase_abs (f - x)), (Rcase_abs (1 - x)); lra.
Qed.

Lemma inv_2_150 : / IZR (2 ^ 149) = 2 * / IZR (2 ^ 150).
Proof.
  replace (2 ^ 150)%Z with (2 * 2 ^ 149)%Z by reflexivity.
  rewrite mult_IZR. field. apply not_0_IZR. discriminate.
Qed.

Lemma inv_2_150_pos : 0 < / IZR (2 ^ 150).
Proof. apply Rinv_0_lt_compat, IZR_lt. reflexivity. Qed.

(** Underflow: a value from 0 to below 2^-150 is rounded to 0. *)
Lemma nearest_near_zero (x f : R) :
  0 <= x < / IZR (2 ^ 150) -> nearest x f -> f = 0.
Proof.
  intros Hx Hf.
  pose proof (nearest_ge x f 0 Hf representable_0 ltac:(lra)) as Hge.
  destruct (Rle_lt_or_eq_dec 0 f Hge) as [Hlt | Heq];
    [exfalso | now symmetry].
  destruct Hf as [Hrep Hmin].
  pose proof (above_zero f Hrep Hlt) as Hb.
  specialize (Hmin 0 representable_0).
  pose proof inv_2_150 as H. pose proof inv_2_150_pos as Hp.
  unfold Rabs in Hmin.
  destruct (Rcase_abs (f - x)), (Rcase_abs (0 - x)); lra.
Qed.

(** *** Rounding to nearest is total *)

(** A set of integers with an element up to [b] has a greatest such
    element. *)
Lemma greatest_below (P : Z -> Prop) (b : Z) :
  (exists n, P n /\ (n <= b)%Z) ->
  exists n, P n /\ (n <= b)%Z /\ forall n', P n' -> (n' <= b)%Z -> (n' <= n)%Z.
Proof.
  intros (n0 & Hn0 & Hle0).
  destruct (dec_inh_nat_subset_has_unique_least_element
              (fun j => P (b - Z.of_nat j)%Z))
    as (j & [Hj Hleast] & _).
  - intros j. apply classic.
  - exists (Z.to_nat (b - n0)).
    replace (b - Z.of_nat (Z.to_nat (b - n0)))%Z with n0 by lia. exact Hn0.
  - exists (b - Z.of_nat j)%Z. split; [exact Hj |]. split; [lia |].
    intros n' Hn' Hle'.
    specialize (Hleast (Z.to_nat (b - n'))).
    replace (b - Z.of_nat (Z.to_nat (b - n')))%Z with n' in Hleast by lia.
    specialize (Hleast Hn'). lia.
Qed.

Lemma least_above (P : Z -> Prop) (a : Z) :
  (exists n, P n /\ (a <= n)%Z) ->
  exists n, P n /\ (a <= n)%Z /\ forall n', P n' -> (a <= n')%Z -> (n <= n')%Z.
Proof.
  intros (n0 & Hn0 & Hle0).
  destruct (greatest_below (fun n => P (- n)%Z) (- a)%Z)
    as (n & Hn & Hle & Hmax).
  - exists (- n0)%Z. rewrite Z.opp_involutive. split; [exact Hn0 | lia].
  - exists (- n)%Z. split; [exact Hn |]. split; [lia |].
    intros n' Hn' Hle'. specialize (Hmax (- n')%Z).
    rewrite Z.opp_involutive in Hmax. specialize (Hmax Hn'). lia.
Qed.

Lemma dist_scale (n : Z) (x : R) :
  Rabs (IZR n / IZR (2 ^ 149) - x)
  = Rabs (IZR n - x * IZR (2 ^ 149)) / IZR (2 ^ 149).
Proof.
  pose proof scale_pos as HS.
  replace (IZR n / IZR (2 ^ 149) - x)
    with ((IZR n - x * IZR (2 ^ 149)) / IZR (2 ^ 149)) by (field; lra).
  unfold Rdiv. rewrite Rabs_mult. f_equal.
  apply Rabs_pos_eq. left. now apply Rinv_0_lt_compat.
Qed.

(** Every real number has a nearest number of the format. *)
Lemma nearest_exists (x : R) : exists f, nearest x f.
Proof.
  pose proof scale_pos as HS.
  set (X := x * IZR (2 ^ 149)).
  set (N0 := (up X - 1)%Z).
  assert (HN0 : IZR N0 <= X < IZR N0 + 1).
  { unfold N0. rewrite minus_IZR. destruct (archimed X). lra. }
  set (in_format := fun n : Z => representable (IZR n / IZR (2 ^ 149))).
  set (d := fun n : Z => Rabs (IZR n - X)).
  assert (Hlow : forall n n', (n' <= n)%Z -> (n <= N0)%Z -> d n <= d n').
  { intros n n' H1 H2. unfold d.
    apply IZR_le in H1. apply IZR_le in H2.
    unfold Rabs.
    destruct (Rcase_abs (IZR n - X)), (Rcase_abs (IZR n' - X)); lra. }
  assert (Hhigh : forall n n', (n <= n')%Z -> (N0 + 1 <= n)%Z -> d n <= d n').
  { intros n n' H1 H2. unfold d.
    apply IZR_le in H1. apply IZR_le in H2. rewrite plus_IZR in H2.
    unfold Rabs.
    destruct (Rcase_abs (IZR n - X)), (Rcase_abs (IZR n' - X)); lra. }
  (* a minimiser of the distance on the grid gives a nearest number *)
  assert (Hdone : forall n, in_format n ->
            (forall n', in_format n' -> d n <= d n') ->
            exists f, nearest x f).
  { intros n Hn Hmin. exists (IZR n / IZR (2 ^ 149)). split; [exact Hn |].
    intros g Hg. destruct (representable_grid g Hg) as [n' ->].
    rewrite !dist_scale. fold X. fold (d n) (d n').
    unfold Rdiv. apply Rmult_le_compat_r.
    - left. now apply Rinv_0_lt_compat.
    - apply Hmin. exact Hg. }
  assert (H0 : in_format 0%Z).
  { unfold in_format. replace (IZR 0 / IZR (2 ^ 149)) with 0 by (field; lra).
    exact representable_0. }
  destruct (classic (exists n, in_format n /\ (n <= N0)%Z)) as [Hlo | Hlo];
    destruct (classic (exists n, in_format n /\ (N0 + 1 <= n)%Z)) as [Hhi | Hhi].
  - destruct (greatest_below in_format N0 Hlo) as (nl & Hnl & Hlel & Hmaxl).
    destruct (least_above in_format (N0 + 1)%Z Hhi) as (nh & Hnh & Hleh & Hminh).
    destruct (Rle_or_lt (d nl) (d nh)) as [Hc | Hc].
    + apply (Hdone nl Hnl). intros n' Hn'.
      destruct (Z_le_gt_dec n' N0) as [Hn0 | Hn0].
      * apply Hlow; [now apply Hmaxl | exact Hlel].
      * eapply Rle_trans; [exact Hc |].
        apply Hhigh; [apply Hminh; [exact Hn' | lia] | exact Hleh].
    + apply (Hdone nh Hnh). intros n' Hn'.
      destruct (Z_le_gt_dec n' N0) as [Hn0 | Hn0].
      * eapply Rle_trans; [left; exact Hc |].
        apply Hlow; [now apply Hmaxl | exact Hlel].
      * apply Hhigh; [apply Hminh; [exact Hn' | lia] | exact Hleh].
  - destruct (greatest_below in_format N0 Hlo) as (nl & Hnl & Hlel & Hmaxl).
    apply (Hdone nl Hnl). intros n' Hn'.
    destruct (Z_le_gt_dec n' N0) as [Hn0 | Hn0].
    + apply Hlow; [now apply Hmaxl | exact Hlel].
    + exfalso. apply Hhi. exists n'. split; [exact Hn' | lia].
  - destruct (least_above in_format (N0 + 1)%Z Hhi) as (nh & Hnh & Hleh & Hminh).
    apply (Hdone nh Hnh). intros n' Hn'.
    destruct (Z_le_gt_dec n' N0) as [Hn0 | Hn0].
    + exfalso. apply Hlo. exists n'. split; [exact Hn' | exact Hn0].
    + apply Hhigh; [apply Hminh; [exact Hn' | lia] | exact Hleh].
  - exfalso. destruct (Z_le_gt_dec 0 N0) as [Hn0 | Hn0].
    + apply Hlo. exists 0%Z. split; [exact H0 | exact Hn0].
    + apply Hhi. exists 0%Z. split; [exact H0 | lia].
Qed.

(** Every exact value has a float32 value. *)
Lemma rounds_to_exists (x : R) : exists v, rounds_to x v.
Proof.
  destruct (Rle_or_lt overflow_threshold x) as [Hhi | Hhi];
    [exists PInf; exact Hhi |].
  destruct (Rle_or_lt x (- overflow_threshold)) as [Hlo | Hlo];
    [exists NInf; exact Hlo |].
  destruct (nearest_exists x) as [f Hf].
  exists (Fin f). split; [| exact Hf].
  unfold Rabs. destruct (Rcase_abs x); lra.
Qed.

(** *** Where exp, sigmoid and tanh leave the format *)

Lemma exp_ge_pow2 (n : nat) : 2 ^ n <= exp (INR n).
Proof.
  induction n as [| n IH].
  - simpl. rewrite exp_0. lra.
  - rewrite S_INR, exp_plus. pose proof (exp_ineq1_le 1) as H1.
    change (2 ^ S n) with (2 * 2 ^ n).
    assert (0 < 2 ^ n) by (apply pow_lt; lra).
    nra.
Qed.

Lemma exp_neg_le (n : nat) : 0 < exp (- INR n) <= / IZR (2 ^ Z.of_nat n).
Proof.
  split; [apply exp_pos |].
  rewrite exp_Ropp, <- pow_IZR.
  apply Rinv_le_contravar; [apply pow_lt; lra | apply exp_ge_pow2].
Qed.

Lemma exp_m30 : 0 < exp (Ropp 30) <= / IZR (2 ^ 30).
Proof.
  replace 30 with (INR 30) by (simpl; lra). apply (exp_neg_le 30).
Qed.

Lemma inv_2_30 : / IZR (2 ^ 25) = 32 * / IZR (2 ^ 30).
Proof.
  replace (2 ^ 30)%Z with (32 * 2 ^ 25)%Z by reflexivity.
  rewrite mult_IZR. field. apply not_0_IZR. discriminate.
Qed.

Lemma inv_2_30_pos : 0 < / IZR (2 ^ 30).
Proof. apply Rinv_0_lt_compat, IZR_lt. reflexivity. Qed.

(** sigmoid(30) is within 2^-25 of 1. *)
Lemma sigmoid_30 : 1 - / IZR (2 ^ 25) < sigmoid 30 <= 1.
Proof.
  pose proof exp_m30 as [Hpos Hle]. pose proof inv_2_30 as H25.
  pose proof inv_2_30_pos as Hp.
  split; [| left; apply sigmoid_range].
  unfold sigmoid.
  apply (Rmult_lt_reg_r (1 + exp (Ropp 30))); [lra |].
  unfold Rdiv. rewrite Rmult_assoc, Rinv_l by lra. nra.
Qed.

(** tanh(30) is within 2^-25 of 1. *)
Lemma tanh_30 : 1 - / IZR (2 ^ 25) < tanh 30 <= 1.
Proof.
  pose proof exp_m30 as [Hpos Hle]. pose proof inv_2_30 as H25.
  pose proof inv_2_30_pos as Hp.
  split; [| left; apply tanh_range].
  assert (Hprod : exp 30 * exp (Ropp 30) = 1).
  { rewrite <- exp_plus. replace (30 + Ropp 30) with 0 by lra. apply exp_0. }
  pose proof (exp_pos 30) as Ha.
  assert (Hone : 1 <= exp 30).
  { pose proof (exp_ineq1_le 30). lra. }
  unfold tanh, sinh, cosh.
  apply (Rmult_lt_reg_r ((exp 30 + exp (Ropp 30)) / 2)); [lra |].
  unfold Rdiv at 2. rewrite Rmult_assoc, Rinv_l by lra. nra.
Qed.

(** exp(-200) is below half the smallest positive number of the format. *)
Lemma exp_m200 : 0 <= exp (-200) < / IZR (2 ^ 150).
Proof.
  assert (H : 0 < exp (-200) <= / IZR (2 ^ 200)).
  { replace (-200) with (- INR 200) by (simpl; lra). apply (exp_neg_le 200). }
  destruct H as [Hpos Hle]. split; [lra |].
  eapply Rle_lt_trans; [exact Hle |].
  apply Rinv_lt_contravar.
  - apply Rmult_lt_0_compat; apply IZR_lt; reflexivity.
  - apply IZR_lt. reflexivity.
Qed.

Lemma exp_m200_small : Rabs (exp (-200)) < overflow_threshold.
Proof.
  destruct exp_m200 as [H0 H1].
  rewrite Rabs_pos_eq by exact H0.
  eapply Rlt_trans; [exact H1 |].
  assert (/ IZR (2 ^ 150) < 1).
  { rewrite <- Rinv_1. apply Rinv_lt_contravar.
    - rewrite Rmult_1_l. apply IZR_lt. reflexivity.
    - apply IZR_lt. reflexivity. }
  assert (1 < overflow_threshold) by (apply IZR_lt; reflexivity).
  lra.
Qed.

(** *** The head on float32 *)

Lemma Forall2_Forall_r {A B : Type} (R : A -> B -> Prop) (P : B -> Prop)
    (l : list A) (l' : list B) :
  (forall a b, R a b -> P b) -> Forall2 R l l' -> Forall P l'.
Proof.
  intros HR H. induction H as [| a b l l' Hab _ IH]; constructor.
  - eapply HR. exact Hab.
  - exact IH.
Qed.

Lemma Forall2_exists {A B : Type} (R : A -> B -> Prop) :
  (forall a, exists b, R a b) -> forall l, exists l', Forall2 R l l'.
Proof.
  intros HR l. induction l as [| a l [l' IH]].
  - exists []. constructor.
  - destruct (HR a) as [b Hb]. exists (b :: l'). now constructor.
Qed.

Lemma overflow_threshold_pos : 0 < overflow_threshold.
Proof. apply IZR_lt. reflexivity. Qed.

Lemma rounds_to_exp_nonneg (v : R) (s : xreal) :
  rounds_to (exp v) s -> nonneg s.
Proof.
  pose proof (exp_pos v) as Hpos. pose proof overflow_threshold_pos as Ht.
  destruct s as [f | | |]; simpl.
  - intros [_ Hf]. apply (nearest_ge (exp v) f 0 Hf representable_0). lra.
  - trivial.
  - lra.
  - trivial.
Qed.

Lemma nearest_tanh_range (v f : R) : nearest (tanh v) f -> -1 <= f <= 1.
Proof.
  intros Hf. pose proof (tanh_range v) as Hr. split.
  - apply (nearest_ge (tanh v) f (-1) Hf representable_m1). lra.
  - apply (nearest_le (tanh v) f 1 Hf representable_1). lra.
Qed.

Lemma nearest_sigmoid_range (v f : R) : nearest (sigmoid v) f -> 0 <= f <= 1.
Proof.
  intros Hf. pose proof (sigmoid_range v) as Hr. split.
  - apply (nearest_ge (sigmoid v) f 0 Hf representable_0). lra.
  - apply (nearest_le (sigmoid v) f 1 Hf representable_1). lra.
Qed.

(** On float32 the three parameters are in the closed ranges. *)
Lemma output_head_in_closed_range (m : nat) (y : tensor3) (hd : head) :
  output_head m y hd -> head_in_closed_range hd.
Proof.
  intros (y_e & _ & He & Hsigma & Hrho). split; [| split].
  - eapply Forall2_Forall_r; [| exact Hsigma]. cbv beta.
    intros plane out Hplane.
    eapply Forall2_Forall_r; [| exact Hplane]. cbv beta.
    intros row out' Hrow.
    eapply Forall2_Forall_r; [| exact Hrow].
    intros v s. apply rounds_to_exp_nonneg.
  - eapply Forall2_Forall_r; [| exact Hrho]. cbv beta.
    intros plane out Hplane.
    eapply Forall2_Forall_r; [| exact Hplane]. cbv beta.
    intros row out' Hrow.
    eapply Forall2_Forall_r; [| exact Hrow].
    intros v f. apply nearest_tanh_range.
  - eapply Forall2_Forall_r; [| exact He]. cbv beta.
    intros row out Hrow.
    eapply Forall2_Forall_r; [| exact Hrow].
    intros v f. apply nearest_sigmoid_range.
Qed.

(** The head on float32 returns wherever the read of the end-of-stroke
    column does. *)
Lemma output_head_total (m : nat) (y : tensor3) (y_e : tensor2) :
  select_last (6 * m) y = Ok y_e -> exists hd, output_head m y hd.
Proof.
  intros Hsel.
  destruct (Forall2_exists
              (Forall2 (fun v f => nearest (sigmoid v) f))
              (Forall2_exists _ (fun v => nearest_exists (sigmoid v))) y_e)
    as [e Ee].
  destruct (Forall2_exists
              (Forall2 (fun row out =>
                 Forall2 (fun v s => rounds_to (exp v) s)
                         (cols (3 * m) (5 * m) row) out))
              (Forall2_exists _ (fun row =>
                 Forall2_exists _ (fun v => rounds_to_exists (exp v))
                                (cols (3 * m) (5 * m) row))) y)
    as [sigma Es].
  destruct (Forall2_exists
              (Forall2 (fun row out =>
                 Forall2 (fun v f => nearest (tanh v) f)
                         (cols (5 * m) (6 * m) row) out))
              (Forall2_exists _ (fun row =>
                 Forall2_exists _ (fun v => nearest_exists (tanh v))
                                (cols (5 * m) (6 * m) row))) y)
    as [rho Er].
  exists (mkHead e sigma rho), y_e. auto.
Qed.

End Float32Facts.


(** ** C4: the ranges of the parameters both forward passes return *)

Module ForwardFacts.
Import HeadFacts Float32 Float32Facts.

Ltac invert_bind H :=
  repeat match type of H with
    | bind ?c _ = Ok _ =>
        let E := fresh "E" in
        destruct c eqn:E; simpl in H; [| discriminate H]
    end.

(** [forward] applies the output head to the projection. *)
Lemma forward_by_projection (self : HandWritingRNN.t) (inp : tensor3)
    (lstm_in_states : option (list lstm_state)) :
  HandWritingRNN.forward self inp lstm_in_states
  = ('(y, out_states) <- HandWritingRNN.projection self inp lstm_in_states ;;
     hd <- Layers.output_head (HandWritingRNN.n_gaussians self) y ;;
     Ok (hd, out_states))%py.
Proof.
  unfold HandWritingRNN.forward, HandWritingRNN.projection.
  destruct (getitem (HandWritingRNN.rnns self) 0) as [rnn0 |]; [| reflexivity].
  cbn [bind].
  destruct (HandWritingRNN.in_state lstm_in_states 0) as [st0 |];
    [| reflexivity].
  cbn [bind].
  destruct (HandWritingRNN.later_layers _ _ _ _ _) as [rest |]; reflexivity.
Qed.

Lemma saturated_projection :
  HandWritingRNN.projection Tiny.saturated [[[0; 0; 0]]] None
  = Ok ([[[0; 0; 0; -200; -200; 30; 30]]], [([[[0]]], [[[0]]])]).
Proof.
  unfold HandWritingRNN.projection, Tiny.saturated. cbn.
  unfold dot, Rsum. cbn.
  repeat (f_equal; try lra).
Qed.

Ltac invert_Forall2 :=
  repeat match goal with
    | H : Forall2 _ (_ :: _) _ |- _ => inversion H; clear H; subst
    | H : Forall2 _ [] _ |- _ => inversion H; clear H; subst
    end.

(** The head on float32 at the projection of the saturated network. *)
Lemma saturated_head (hd : head) :
  output_head 1 [[[0; 0; 0; -200; -200; 30; 30]]] hd ->
  e hd = [[1]] /\ sigma hd = [[[Fin 0; Fin 0]]] /\ rho hd = [[[1]]].
Proof.
  intros (y_e & Hsel & He & Hsigma & Hrho).
  cbn in Hsel. injection Hsel as <-.
  destruct hd as [e sigma rho]. cbn [Float32.e Float32.sigma Float32.rho] in *.
  cbn in Hsigma, Hrho.
  invert_Forall2.
  repeat match goal with
    | H : nearest (sigmoid 30) _ |- _ =>
        apply (nearest_near_one _ _ sigmoid_30) in H; subst
    | H : nearest (tanh 30) _ |- _ =>
        apply (nearest_near_one _ _ tanh_30) in H; subst
    end.
  split; [reflexivity |]. split; [| reflexivity].
  repeat match goal with
    | H : rounds_to (exp (-200)) ?s |- _ =>
        assert (s = Fin 0);
        [ destruct s as [f | | |]; simpl in H;
          [ destruct H as [_ H];
            apply (nearest_near_zero _ _ exp_m200) in H; now subst
          | pose proof exp_m200_small as Hs;
            rewrite Rabs_pos_eq in Hs by (left; apply exp_pos); lra
          | pose proof (exp_pos (-200));
            pose proof overflow_threshold_pos; lra
          | contradiction ]
        | subst; clear H ]
    end.
  reflexivity.
Qed.

Lemma saturated_head_exists :
  exists hd, output_head 1 [[[0; 0; 0; -200; -200; 30; 30]]] hd.
Proof. apply (output_head_total 1 _ [[30]]). reflexivity. Qed.

(** C4, amended.  For every input on which the forward pass of either
    network returns, with at least one mixture component, the parameters
    computed in exact arithmetic satisfy the claim as it stands: the
    mixture weights sum to 1 along the mixture axis, every sigma is
    positive, every rho lies strictly between -1 and 1 and every pen-lift
    probability strictly between 0 and 1.  Computed on float32, for every
    projection [y] of finite numbers, the three ranges hold with their
    ends only: every sigma is at least 0 (or +inf), every rho lies between
    -1 and 1 and every pen-lift probability between 0 and 1, ends
    included; and the head returns on float32 wherever it returns in exact
    arithmetic. *)
Theorem forward_head_in_range :
  (forall (self : HandWritingRNN.t) (inp : tensor3)
          (lstm_in_states : option (list lstm_state))
          (hd : Layers.head) (out_states : list lstm_state),
      (0 < HandWritingRNN.n_gaussians self)%nat ->
      HandWritingRNN.forward self inp lstm_in_states = Ok (hd, out_states) ->
      HeadSpec.head_in_range hd)
  /\ (forall (self : HandWritingSynthRNN.t) (inp c_seq : tensor3)
             (lstm_in_states : option HandWritingSynthRNN.states)
             (prev_window : option tensor2)
             (prev_kappa : HandWritingSynthRNN.kappa_t)
             (out : HandWritingSynthRNN.output),
         (0 < HandWritingSynthRNN.n_gaussians self)%nat ->
         HandWritingSynthRNN.forward self inp c_seq lstm_in_states
                                     prev_window prev_kappa = Ok out ->
         HeadSpec.head_in_range (HandWritingSynthRNN.params out))
  /\ (forall (n_gaussians : nat) (y : tensor3) (hd : Float32.head),
         Float32.output_head n_gaussians y hd ->
         Float32.head_in_closed_range hd)
  /\ (forall (n_gaussians : nat) (y : tensor3) (hd : Layers.head),
         Layers.output_head n_gaussians y = Ok hd ->
         exists hd32, Float32.output_head n_gaussians y hd32).
Proof.
  split; [| split; [| split]].
  - intros self inp sts hd out Hm H.
    unfold HandWritingRNN.forward in H.
    invert_bind H. injection H as <- _.
    eapply output_head_in_range; eassumption.
  - intros self inp c_seq sts w k out Hm H.
    unfold HandWritingSynthRNN.forward in H.
    destruct (HandWritingSynthRNN.loop _ _ _ _) as [h c pw pk fro wl].
    invert_bind H. injection H as <-. simpl.
    eapply output_head_in_range; eassumption.
  - intros m y hd. apply output_head_in_closed_range.
  - intros m y hd H. unfold Layers.output_head in H.
    destruct (select_last (6 * m) y) as [y_e |] eqn:Hsel; [| discriminate H].
    eapply output_head_total. exact Hsel.
Qed.

(** Both zero networks on one all-zero point, and the head on float32 at
    a projection that saturates. *)
Lemma forward_head_in_range_witness :
  (exists hd out_states,
      HandWritingRNN.forward Tiny.uncond [[[0; 0; 0]]] None
      = Ok (hd, out_states)
      /\ HeadSpec.head_in_range hd)
  /\ (exists out,
         HandWritingSynthRNN.forward Tiny.synth [[[0; 0; 0]]]
           [[[1; 0]; [0; 1]]] None None (HandWritingSynthRNN.KScalar 0)
         = Ok out
         /\ HeadSpec.head_in_range (HandWritingSynthRNN.params out))
  /\ (exists hd32,
         Float32.output_head 1 [[[0; 0; 0; -200; -200; 30; 30]]] hd32
         /\ Float32.head_in_closed_range hd32).
Proof.
  split; [| split].
  - eexists. eexists. split; [reflexivity |].
    apply (proj1 forward_head_in_range Tiny.uncond [[[0; 0; 0]]] None _
                 [([[repeat 0 1]], [[repeat 0 1]])]).
    + simpl. lia.
    + reflexivity.
  - eexists. split; [reflexivity |].
    apply (proj1 (proj2 forward_head_in_range) Tiny.synth [[[0; 0; 0]]]
                 [[[1; 0]; [0; 1]]] None None (HandWritingSynthRNN.KScalar 0)).
    + simpl. lia.
    + reflexivity.
  - destruct saturated_head_exists as [hd32 H]. exists hd32.
    split; [exact H |].
    exact (proj1 (proj2 (proj2 forward_head_in_range)) 1%nat _ hd32 H).
Defined.

(** C4 as stated fails on float32.  The network [Tiny.saturated] projects
    every input to y = (0, 0, 0, -200, -200, 30, 30).  There sigmoid(30)
    and tanh(30) are within 2^-25 of 1 and are rounded to exactly 1, and
    exp(-200) is below 2^-150 and is rounded to exactly 0: the pen-lift
    probability is 1, rho is 1 and both sigma are 0, so none of the three
    strict bounds holds. *)
Lemma float32_head_saturates_counterexample :
  let y := [[[0; 0; 0; -200; -200; 30; 30]]] in
  (exists out_states,
      HandWritingRNN.projection Tiny.saturated [[[0; 0; 0]]] None
      = Ok (y, out_states))
  /\ (exists hd, Float32.output_head 1 y hd)
  /\ (forall hd,
         Float32.output_head 1 y hd ->
         Float32.e hd = [[1]]
         /\ Float32.sigma hd = [[[Fin 0; Fin 0]]]
         /\ Float32.rho hd = [[[1]]]
         /\ ~ Float32.head_in_range hd).
Proof.
  cbv zeta. split; [| split].
  - eexists. apply saturated_projection.
  - apply saturated_head_exists.
  - intros hd H. destruct (saturated_head hd H) as (He & Hs & Hr).
    repeat split; try assumption.
    intros (_ & _ & Hrange). rewrite He in Hrange.
    inversion Hrange as [| ? ? Hrow _]; subst.
    inversion Hrow as [| ? ? Hp _]; subst. lra.
Qed.

End ForwardFacts.


(** ** C3: the window position never moves backwards *)

Module KappaFacts.
Import HandWritingSynthRNN TensorFacts.



Lemma state_at_succ (self : t) (inp c_seq : tensor3)
    (lstm_in_states : option states) (prev_window : option tensor2)
    (prev_kappa : kappa_t) (i : nat) :
  (i < length inp)%nat ->
  state_at self inp c_seq lstm_in_states prev_window prev_kappa (S i)
  = step self c_seq
         (state_at self inp c_seq lstm_in_states prev_window prev_kappa i)
         (nth i inp []).
Proof.
  intros Hi. unfold state_at, loop.
  rewrite (firstn_succ inp i []) by exact Hi.
  now rewrite fold_left_app.
Qed.



End KappaFacts.


(** ** C7: the soft window in closed form *)

Module WindowFacts.
Import HandWritingSynthRNN TensorFacts KappaFacts.

Lemma sum_range_shift (n : nat) (f : nat -> R) :
  sum_range 1 n f = sum_range 0 n (fun i => f (S i)).
Proof. unfold sum_range. now rewrite <- seq_shift, map_map. Qed.

Lemma sum_range_ext (lo n : nat) (f g : nat -> R) :
  (forall i, (lo <= i < lo + n)%nat -> f i = g i) ->
  sum_range lo n f = sum_range lo n g.
Proof.
  intros H. unfold sum_range. f_equal.
  apply map_ext_in. intros i Hi. apply in_seq in Hi. now apply H.
Qed.

Lemma nth_map_seq {A : Type} (g : nat -> A) (n i : nat) (d : A) :
  (i < n)%nat -> nth i (map g (seq 0 n)) d = g i.
Proof.
  intros Hi. rewrite (nth_map_in g _ i 0%nat d) by now rewrite length_seq.
  now rewrite seq_nth.
Qed.

Lemma length_arange1 (U : nat) : length (arange1 U) = U.
Proof. unfold arange1. now rewrite length_map, length_seq. Qed.

Lemma nth_arange1 (U u : nat) :
  (u < U)%nat -> nth u (arange1 U) 0 = INR (S u).
Proof.
  intros Hu. unfold arange1.
  rewrite (nth_map_in INR _ u 0%nat 0) by now rewrite length_seq.
  now rewrite seq_nth.
Qed.

(** The weights of one batch element, index by index. *)
Lemma nth_window_weights (K U u : nat) (alpha beta kappa : tensor1) :
  length alpha = K -> length beta = K -> length kappa = K -> (u < U)%nat ->
  nth u (window_weights alpha beta kappa (arange1 U)) 0
  = sum_range 0 K
      (fun k => exp (nth k beta 0 * (nth k kappa 0 - INR (S u)) ^ 2)
                * nth k alpha 0).
Proof.
  intros Ha Hb Hk Hu. unfold window_weights.
  rewrite length_arange1.
  rewrite (map3_seq _ alpha beta kappa K 0 0 0) by assumption.
  rewrite nth_sum_axis0.
  - unfold sum_range. rewrite map_map. f_equal.
    apply map_ext. intros k.
    rewrite (nth_map_in _ _ u 0 0) by now rewrite length_arange1.
    now rewrite nth_arange1.
  - apply Forall_forall. intros row Hrow.
    apply in_map_iff in Hrow. destruct Hrow as [k [<- _]].
    now rewrite length_map, length_arange1.
  - exact Hu.
Qed.

(** The context vector of one batch element, index by index. *)
Lemma nth_window_vector (width U j : nat) (phi : tensor1) (c_seq : tensor2) :
  length phi = U -> dims2 U width c_seq -> (j < width)%nat ->
  nth j (window_vector width phi c_seq) 0
  = sum_range 0 U (fun u => nth u phi 0 * nth j (nth u c_seq []) 0).
Proof.
  intros Hphi [Hlen Hrows] Hj. unfold window_vector.
  rewrite (map2_seq _ phi c_seq U 0 []) by assumption.
  rewrite nth_sum_axis0.
  - unfold sum_range. rewrite map_map. f_equal.
    apply map_ext_in. intros u Hu. apply in_seq in Hu.
    rewrite (nth_map_in _ _ j 0 0); [reflexivity |].
    rewrite Forall_forall in Hrows.
    rewrite (Hrows (nth u c_seq [])); [exact Hj |].
    apply nth_In. lia.
  - apply Forall_forall. intros row Hrow.
    apply in_map_iff in Hrow. destruct Hrow as [u [<- Hu]].
    apply in_seq in Hu. rewrite length_map.
    rewrite Forall_forall in Hrows. apply Hrows, nth_In. lia.
  - exact Hj.
Qed.

Lemma chunk3_thirds (K : nat) (row : tensor1) :
  length row = (3 * K)%nat ->
  chunk3 row = (firstn K row, firstn K (skipn K row), skipn (2 * K) row).
Proof.
  intros Hlen. unfold chunk3. rewrite Hlen.
  replace ((3 * K + 2) / 3)%nat with K; [reflexivity |].
  apply (Nat.div_unique (3 * K + 2) 3 K 2); lia.
Qed.

Lemma nth_firstn_lt {A : Type} (n i : nat) (l : list A) (d : A) :
  (i < n)%nat -> nth i (firstn n l) d = nth i l d.
Proof.
  intros Hi. rewrite nth_firstn.
  destruct (Nat.ltb_spec i n); [reflexivity | lia].
Qed.

Lemma length_linear1 (l : Linear) (n : nat) (x : tensor1) :
  length (weight l) = n -> length (bias l) = n -> length (linear1 l x) = n.
Proof.
  intros Hw Hb. unfold linear1. rewrite length_map2, Hw, Hb.
  apply Nat.min_id.
Qed.

(** One step of the window on a batch of [B] elements and [U] characters,
    for a projection [h_to_w] with [3 * K] outputs. *)
Section SoftWindow.
Variable self : t.
Variables B U K : nat.
Variable c_seq : tensor3.
Variable h : tensor2.
Variable prev_kappa : kappa_t.
Hypothesis Hweight : length (weight (h_to_w self)) = (3 * K)%nat.
Hypothesis Hbias : length (bias (h_to_w self)) = (3 * K)%nat.
Hypothesis Hh : length h = B.
Hypothesis Hc : dims3 B U (n_char self) c_seq.
Hypothesis Hkappa : kappa_dims B K prev_kappa.

Let wp : tensor2 := map (map exp) (linear2 (h_to_w self) h).

Lemma length_wp : length wp = B.
Proof. unfold wp, linear2. now rewrite !length_map. Qed.

Lemma length_wp_row (b : nat) : (b < B)%nat -> length (nth b wp []) = (3 * K)%nat.
Proof.
  intros Hb. unfold wp, linear2.
  rewrite (nth_map_in _ _ b [] []) by now rewrite length_map, Hh.
  rewrite (nth_map_in _ _ b [] []) by now rewrite Hh.
  rewrite length_map. now apply length_linear1.
Qed.

Lemma hd_c_seq : (0 < B)%nat -> length (hd [] c_seq) = U.
Proof.
  intros HB. destruct Hc as [Hlen Hrows].
  destruct c_seq as [| c0 cs]; simpl in *; [lia |].
  inversion Hrows as [| ? ? [H0 _] _]. exact H0.
Qed.

Lemma nth_c_seq (b : nat) :
  (b < B)%nat -> dims2 U (n_char self) (nth b c_seq []).
Proof.
  intros Hb. destruct Hc as [Hlen Hrows].
  rewrite Forall_forall in Hrows. apply Hrows, nth_In. lia.
Qed.

(** The three tensors of one step, batch element by batch element. *)
Lemma soft_window_rows (b : nat) :
  (b < B)%nat ->
  let '(phi, window, kappa) := soft_window self c_seq h prev_kappa in
  let row := nth b wp [] in
  let kappa_b :=
    match prev_kappa with
    | KScalar r => map (fun v => v + r) (skipn (2 * K) row)
    | KTensor p => map2 Rplus (skipn (2 * K) row) (nth b p [])
    end in
  let phi_b :=
    window_weights (firstn K row) (map Ropp (firstn K (skipn K row)))
                   kappa_b (arange1 U) in
  nth b kappa [] = kappa_b
  /\ nth b phi [] = phi_b
  /\ nth b window [] = window_vector (n_char self) phi_b (nth b c_seq []).
Proof.
  intros Hb. unfold soft_window. fold wp.
  rewrite (hd_c_seq ltac:(lia)).
  set (alpha := map (fun row => fst (fst (chunk3 row))) wp).
  set (beta := map (map Ropp) (map (fun row => snd (fst (chunk3 row))) wp)).
  set (kappa := add_kappa (map (fun row => snd (chunk3 row)) wp) prev_kappa).
  cbv zeta.
  assert (Hrow := length_wp_row b Hb).
  assert (Halpha : nth b alpha [] = firstn K (nth b wp [])).
  { unfold alpha. rewrite (nth_map_in _ _ b [] []) by now rewrite length_wp.
    now rewrite (chunk3_thirds K). }
  assert (Hbeta : nth b beta [] = map Ropp (firstn K (skipn K (nth b wp [])))).
  { unfold beta.
    rewrite (nth_map_in _ _ b [] []) by now rewrite length_map, length_wp.
    rewrite (nth_map_in _ _ b [] []) by now rewrite length_wp.
    now rewrite (chunk3_thirds K). }
  assert (Hkap : nth b kappa []
                 = match prev_kappa with
                   | KScalar r => map (fun v => v + r) (skipn (2 * K) (nth b wp []))
                   | KTensor p => map2 Rplus (skipn (2 * K) (nth b wp [])) (nth b p [])
                   end).
  { unfold kappa, add_kappa. destruct prev_kappa as [r | p].
    - rewrite (nth_map_in _ _ b [] []) by now rewrite length_map, length_wp.
      rewrite (nth_map_in _ _ b [] []) by now rewrite length_wp.
      now rewrite (chunk3_thirds K).
    - destruct Hkappa as [Hp _].
      rewrite (nth_map2 _ _ _ b [] [] [])
        by (rewrite length_map2, length_map, length_wp, Hp; lia).
      rewrite (nth_map_in _ _ b [] []) by now rewrite length_wp.
      now rewrite (chunk3_thirds K). }
  assert (Hlens : length alpha = B /\ length beta = B /\ length kappa = B).
  { unfold alpha, beta, kappa, add_kappa. rewrite !length_map, length_wp.
    repeat split; try reflexivity.
    destruct prev_kappa as [r | p].
    - now rewrite !length_map, length_wp.
    - destruct Hkappa as [Hp _].
      rewrite length_map2, length_map, length_wp, Hp. apply Nat.min_id. }
  destruct Hlens as [La [Lb Lk]].
  assert (Hphi : nth b (map3 (fun a be ka => window_weights a be ka (arange1 U))
                            alpha beta kappa) []
                 = window_weights (nth b alpha []) (nth b beta [])
                                  (nth b kappa []) (arange1 U)).
  { rewrite (map3_seq _ alpha beta kappa B [] [] []) by assumption.
    now rewrite nth_map_seq. }
  split; [exact Hkap |]. split.
  - now rewrite Hphi, Halpha, Hbeta, Hkap.
  - rewrite (nth_map2 _ _ _ b [] [] []).
    + now rewrite Hphi, Halpha, Hbeta, Hkap.
    + rewrite length_map2.
      rewrite (map3_seq _ alpha beta kappa B [] [] []) by assumption.
      rewrite length_map, length_seq. destruct Hc as [-> _]. lia.
Qed.

(** The three tensors of one call of [soft_window], entry by entry. *)
Lemma soft_window_entries (b : nat) :
  (b < B)%nat ->
  let '(phi, window, kappa) := soft_window self c_seq h prev_kappa in
  let alpha k := window_params self h b k in
  let beta k := window_params self h b (K + k) in
  let kappa_increment k := window_params self h b (2 * K + k) in
  (forall k, (k < K)%nat ->
     nth k (nth b kappa []) 0 = kappa_increment k + kappa_at prev_kappa b k)
  /\ (forall u, (1 <= u <= U)%nat ->
        nth (u - 1) (nth b phi []) 0
        = spec_phi K alpha beta (fun k => nth k (nth b kappa []) 0) u)
  /\ (forall j, (j < n_char self)%nat ->
        nth j (nth b window []) 0
        = spec_context U (fun u => nth (u - 1) (nth b phi []) 0)
                       (fun u => nth j (nth (u - 1) (nth b c_seq []) []) 0)).
Proof.
  intros Hb. pose proof (soft_window_rows b Hb) as Hrows.
  destruct (soft_window self c_seq h prev_kappa) as [[phi window] kappa].
  cbv zeta in Hrows. destruct Hrows as [Ekappa [Ephi Ewindow]].
  pose proof (length_wp_row b Hb) as Hrow.
  unfold window_params. fold wp.
  set (row := nth b wp []) in *.
  assert (Lalpha : length (firstn K row) = K)
    by (rewrite length_firstn, Hrow; lia).
  assert (Lbeta : length (map Ropp (firstn K (skipn K row))) = K)
    by (rewrite length_map, length_firstn, length_skipn, Hrow; lia).
  assert (Linc : length (skipn (2 * K) row) = K)
    by (rewrite length_skipn, Hrow; lia).
  assert (Lkappa : length (nth b kappa []) = K).
  { rewrite Ekappa. destruct prev_kappa as [r | p].
    - now rewrite length_map.
    - destruct Hkappa as [Hp Hprows]. rewrite Forall_forall in Hprows.
      rewrite length_map2, Linc, (Hprows (nth b p [])); [apply Nat.min_id |].
      apply nth_In. lia. }
  assert (Hk : forall k, (k < K)%nat ->
             nth k (nth b kappa []) 0
             = nth (2 * K + k) row 0 + kappa_at prev_kappa b k).
  { intros k Hlt. pose proof Lkappa as Lk'. rewrite Ekappa in Lk' |- *.
    destruct prev_kappa as [r | p]; cbn [kappa_at].
    - rewrite (nth_map_in _ _ k 0 0) by lia. now rewrite nth_skipn.
    - rewrite (nth_map2 _ _ _ k 0 0 0) by lia. now rewrite nth_skipn. }
  assert (Lphi : length (nth b phi []) = U).
  { rewrite Ephi. unfold window_weights. rewrite length_arange1.
    apply length_sum_axis0, Forall_forall. intros r Hr.
    rewrite (map3_seq _ _ _ _ K 0 0 0) in Hr; try assumption.
    - apply in_map_iff in Hr. destruct Hr as [k [<- _]].
      now rewrite length_map, length_arange1.
    - now rewrite <- Ekappa. }
  split; [exact Hk |]. split.
  - intros u Hu. rewrite Ephi.
    rewrite (nth_window_weights K U (u - 1)); try assumption; try lia;
      [| now rewrite <- Ekappa].
    unfold spec_phi. apply sum_range_ext. intros k Hlt.
    rewrite <- Ekappa.
    rewrite (nth_map_in Ropp _ k 0 0) by (rewrite length_map in Lbeta; lia).
    rewrite !nth_firstn_lt by lia. rewrite nth_skipn.
    replace (S (u - 1)) with u by lia.
    rewrite Rmult_comm. reflexivity.
  - intros j Hj. rewrite Ewindow, <- Ephi.
    rewrite (nth_window_vector (n_char self) U j); try assumption.
    + unfold spec_context. rewrite sum_range_shift.
      apply sum_range_ext. intros u Hu. simpl. now rewrite Nat.sub_0_r.
    + now apply nth_c_seq.
Qed.

End SoftWindow.

(** C7.  At each step [i] of the conditional forward pass, with alpha, beta
    and kappa_increment the three groups of the exponential of the
    projection of the hidden state the first cell returned in that step,
    and kappa the sum of kappa_increment and the kappa before the step:
    the window weight [phi] of the step at character position u (from 1
    to U) is sum_k alpha_k * exp (- beta_k * (kappa_k - u)^2), and the
    context vector the step leaves in [prev_window] (and appends to
    [window_list]) is sum_u phi_u * c_u. *)
Theorem soft_window_closed_form (self : t) (B U K : nat) (inp c_seq : tensor3)
    (lstm_in_states : option states) (prev_window0 : option tensor2)
    (prev_kappa0 : kappa_t) (i b : nat) :
  let before :=
    state_at self inp c_seq lstm_in_states prev_window0 prev_kappa0 i in
  let after :=
    state_at self inp c_seq lstm_in_states prev_window0 prev_kappa0 (S i) in
  let phi := phi_at self inp c_seq lstm_in_states prev_window0 prev_kappa0 i in
  length (weight (h_to_w self)) = (3 * K)%nat ->
  length (bias (h_to_w self)) = (3 * K)%nat ->
  (i < length inp)%nat ->
  length (h after) = B ->
  dims3 B U (n_char self) c_seq ->
  kappa_dims B K (prev_kappa before) ->
  (b < B)%nat ->
  let alpha k := window_params self (h after) b k in
  let beta k := window_params self (h after) b (K + k) in
  let kappa_increment k := window_params self (h after) b (2 * K + k) in
  let kappa k := kappa_at (prev_kappa after) b k in
  (forall k, (k < K)%nat ->
     kappa k = kappa_increment k + kappa_at (prev_kappa before) b k)
  /\ (forall u, (1 <= u <= U)%nat ->
        nth (u - 1) (nth b phi []) 0 = spec_phi K alpha beta kappa u)
  /\ (forall j, (j < n_char self)%nat ->
        nth j (nth b (prev_window after) []) 0
        = spec_context U (fun u => nth (u - 1) (nth b phi []) 0)
                       (fun u => nth j (nth (u - 1) (nth b c_seq []) []) 0))
  /\ window_list after = (window_list before ++ [prev_window after])%list.
Proof.
  intros before after phi Hw Hbias Hi Hh Hc Hk Hb.
  subst before after phi. unfold phi_at.
  rewrite state_at_succ in * by exact Hi.
  set (st := state_at self inp c_seq lstm_in_states prev_window0 prev_kappa0 i)
    in *.
  unfold step, step_phi in *.
  destruct (first_rnn self _ _) as [h' c'].
  pose proof (soft_window_entries self B U K c_seq h' (prev_kappa st)
                Hw Hbias) as Hs.
  destruct (soft_window self c_seq h' (prev_kappa st)) as [[phi window] kappa].
  cbn [HandWritingSynthRNN.h HandWritingSynthRNN.prev_window
       HandWritingSynthRNN.prev_kappa HandWritingSynthRNN.window_list] in *.
  specialize (Hs Hh Hc Hk b Hb). cbv zeta in Hs.
  destruct Hs as (Hkappa & Hphi & Hwin).
  cbv zeta. cbn [kappa_at].
  split; [exact Hkappa |]. split; [exact Hphi |]. split; [exact Hwin |].
  reflexivity.
Qed.

(** The first step of the zero network on two characters. *)
Lemma soft_window_closed_form_witness :
  let self := Tiny.synth in
  let inp := [[[0; 0; 0]]] in
  let c_seq := [[[1; 0]; [0; 1]]] in
  let before := state_at self inp c_seq None None (KScalar 0) 0 in
  let after := state_at self inp c_seq None None (KScalar 0) 1 in
  let phi := phi_at self inp c_seq None None (KScalar 0) 0 in
  let alpha k := window_params self (h after) 0 k in
  let beta k := window_params self (h after) 0 (1 + k) in
  let kappa_increment k := window_params self (h after) 0 (2 * 1 + k) in
  let kappa k := kappa_at (prev_kappa after) 0 k in
  (forall k, (k < 1)%nat ->
     kappa k = kappa_increment k + kappa_at (prev_kappa before) 0 k)
  /\ (forall u, (1 <= u <= 2)%nat ->
        nth (u - 1) (nth 0 phi []) 0 = spec_phi 1 alpha beta kappa u)
  /\ (forall j, (j < n_char self)%nat ->
        nth j (nth 0 (prev_window after) []) 0
        = spec_context 2 (fun u => nth (u - 1) (nth 0 phi []) 0)
                       (fun u => nth j (nth (u - 1) (nth 0 c_seq []) []) 0))
  /\ window_list after = (window_list before ++ [prev_window after])%list.
Proof.
  apply (soft_window_closed_form Tiny.synth 1 2 1 [[[0; 0; 0]]]
           [[[1; 0]; [0; 1]]] None None (KScalar 0) 0 0).
  - reflexivity.
  - reflexivity.
  - simpl. lia.
  - reflexivity.
  - repeat constructor.
  - exact I.
  - lia.
Defined.

End WindowFacts.


(** ** The loss, step by step *)

Module LossFacts.
Import Loss XRealFacts TensorFacts.

Lemma step_terms_eq (x : list (list R)) (e : list R)
    (log_pi mu sigma rho : list (list R)) :
  map2 (fun ld ei => (ld + xlog (Fin ei))%X)
       (mog_density_2d
          (map (fun row => (nth 1 row 0, nth 2 row 0)) x) log_pi
          (map view_pairs mu)
          (map (fun row => map (fun s => (fst s + epsillon, snd s + epsillon))
                               (view_pairs row)) sigma)
          (map (map (fun r => r / (1 + epsillon))) rho))
       (map (fun ei => (ei + epsillon) / (1 + 2 * epsillon))
            (map2 (fun ei li => ei * li + (1 - ei) * (1 - li)) e
                  (map (fun row => nth 0 row 0) x)))
  = map step_term (steps x e log_pi mu sigma rho).
Proof.
  revert e log_pi mu sigma rho.
  induction x as [| xi x IH];
    intros [| ei e] [| p log_pi] [| u mu] [| s sigma] [| r rho];
    try reflexivity.
  cbn [map map2 mog_density_2d steps]. f_equal. apply IH.
Qed.

(** [criterion] is [criterion_rows] on the flattened tensors. *)
Lemma criterion_by_rows (x : list (list (list R))) (e : list (list R))
    (log_pi mu sigma rho : list (list (list R))) (masks : list (list R)) :
  criterion x e log_pi mu sigma rho masks
  = criterion_rows
      (steps (view_rows x) (view_rows e) (view_rows log_pi) (view_rows mu)
             (view_rows sigma) (view_rows rho))
      (view_rows masks).
Proof.
  unfold criterion, criterion_rows. now rewrite step_terms_eq.
Qed.

(** *** Finite steps

    When every standard deviation is positive, every correlation lies
    strictly between -1 and 1 and the pen term is positive, the
    computation of a step stays within the finite values. *)

Lemma xadd_fin (a b : R) : xadd (Fin a) (Fin b) = Fin (a + b).
Proof. reflexivity. Qed.
Lemma xsub_fin (a b : R) : xsub (Fin a) (Fin b) = Fin (a - b).
Proof. reflexivity. Qed.
Lemma xmul_fin (a b : R) : xmul (Fin a) (Fin b) = Fin (a * b).
Proof. reflexivity. Qed.
Lemma xneg_fin (a : R) : xneg (Fin a) = Fin (- a).
Proof. reflexivity. Qed.
Lemma xexp_fin (a : R) : xexp (Fin a) = Fin (exp a).
Proof. reflexivity. Qed.

(** Evaluation of an expression on finite values; [side] proves that the
    denominators are not 0 and the arguments of logarithms positive. *)
Ltac xfin side :=
  repeat first
    [ rewrite xadd_fin | rewrite xsub_fin | rewrite xmul_fin
    | rewrite xneg_fin | rewrite xexp_fin
    | rewrite xdiv_fin by side | rewrite xlog_fin by side ].

Lemma component_log_density_fin
    (x : R * R) (log_pi : R) (mu sigma : R * R) (rho : R) :
  component_in_range (log_pi, mu, sigma, rho) ->
  component_log_density x log_pi mu sigma rho
  = Fin (component_value x log_pi mu sigma rho).
Proof.
  intros [Hs0 [Hs1 Hrho]].
  unfold component_log_density, component_value. cbv zeta.
  xfin lra. reflexivity.
Qed.

Lemma components_fin (x : R * R) (comps : list (R * (R * R) * (R * R) * R)) :
  Forall component_in_range comps ->
  map (fun '(p, u, s, r) => component_log_density x p u s r) comps
  = map Fin (map (fun '(p, u, s, r) => component_value x p u s r) comps).
Proof.
  induction 1 as [| [[[p u] s] r] comps Hc _ IH]; simpl; [reflexivity |].
  now rewrite IH, component_log_density_fin.
Qed.

Lemma map_xexp_fin (l : list R) : map xexp (map Fin l) = map Fin (map exp l).
Proof. rewrite !map_map. reflexivity. Qed.

Lemma row_log_density_fin (x : R * R)
    (log_pi : list R) (mu sigma : list (R * R)) (rho : list R) :
  components log_pi mu sigma rho <> [] ->
  Forall component_in_range (components log_pi mu sigma rho) ->
  row_log_density x log_pi mu sigma rho
  = Fin (row_value x log_pi mu sigma rho).
Proof.
  intros Hne Hall. unfold row_log_density, logsumexp, row_value.
  rewrite (components_fin x _ Hall), map_xexp_fin, xsum_fin.
  apply xlog_fin, HeadFacts.Rsum_exp_pos.
  destruct (components log_pi mu sigma rho); [congruence | discriminate].
Qed.

Lemma step_term_fin (d : step_data) :
  step_in_range d -> step_term d = Fin (step_value d).
Proof.
  destruct d as [[[[[x e] log_pi] mu] sigma] rho].
  unfold step_in_range, step_components, step_pen, step_term, step_value.
  intros [Hne [Hall Hpen]]. cbv zeta.
  rewrite row_log_density_fin by assumption.
  rewrite xlog_fin by assumption. reflexivity.
Qed.

(** What [criterion] returns when every step is in range and some mask is
    not 0: minus the mask-weighted sum of the step values over the sum of
    the masks. *)
Lemma criterion_rows_fin (rows : list step_data) (masks : list R) :
  Forall step_in_range rows -> Rsum masks <> 0 ->
  criterion_rows rows masks
  = Fin (- (Rsum (map2 Rmult (map step_value rows) masks) / Rsum masks)).
Proof.
  intros Hrows Hsum. unfold criterion_rows.
  assert (E : map2 (fun t mk => xmul t (Fin mk)) (map step_term rows) masks
              = map Fin (map2 Rmult (map step_value rows) masks)).
  { clear Hsum. revert masks.
    induction Hrows as [| d rows Hd _ IH]; intros [| mk masks];
      try reflexivity.
    cbn [map map2]. now rewrite IH, step_term_fin. }
  rewrite E, xsum_fin, xdiv_fin by exact Hsum. reflexivity.
Qed.

End LossFacts.


(** ** C5: what a masked step contributes *)

Module MaskFacts.
Import Loss LossFacts XRealFacts TensorFacts.

Lemma masked_products_eq (masks : list R) (rows1 rows2 : list step_data) :
  length rows1 = length masks -> length rows2 = length masks ->
  Forall binary masks ->
  (forall i, (i < length masks)%nat -> nth i masks 0 = 1 ->
             nth i rows1 no_step = nth i rows2 no_step) ->
  (forall i, (i < length masks)%nat -> nth i masks 0 = 0 ->
             is_finite (step_term (nth i rows1 no_step))
             /\ is_finite (step_term (nth i rows2 no_step))) ->
  map2 (fun t mk => xmul t (Fin mk)) (map step_term rows1) masks
  = map2 (fun t mk => xmul t (Fin mk)) (map step_term rows2) masks.
Proof.
  revert rows1 rows2.
  induction masks as [| mk masks IH]; intros [| r1 rows1] [| r2 rows2];
    simpl; intros L1 L2 Hbin Hvalid Hmasked; try lia; try reflexivity.
  inversion Hbin as [| ? ? Hmk Hbin']; subst.
  f_equal.
  - destruct Hmk as [-> | ->].
    + destruct (Hmasked 0%nat ltac:(lia) eq_refl) as [[v1 E1] [v2 E2]].
      simpl in E1, E2. rewrite E1, E2. now rewrite !xmul_fin_zero.
    + now rewrite (Hvalid 0%nat ltac:(lia) eq_refl : r1 = r2).
  - apply IH; try lia; try assumption.
    + intros i Hi Hm. apply (Hvalid (S i)); [lia | exact Hm].
    + intros i Hi Hm. apply (Hmasked (S i)); [lia | exact Hm].
Qed.

(** C5, amended.  Take two calls of [criterion] with the same 0/1 masks
    whose inputs agree at every step with mask 1.  If at every step with
    mask 0 the term [log_density + e.log()] is finite in both calls, the
    two losses are equal: such a step contributes exactly 0. *)
Theorem criterion_ignores_finite_masked_steps
    (x1 x2 : list (list (list R))) (e1 e2 : list (list R))
    (log_pi1 log_pi2 mu1 mu2 sigma1 sigma2 rho1 rho2 : list (list (list R)))
    (masks : list (list R)) :
  let rows1 :=
    steps (view_rows x1) (view_rows e1) (view_rows log_pi1) (view_rows mu1)
          (view_rows sigma1) (view_rows rho1) in
  let rows2 :=
    steps (view_rows x2) (view_rows e2) (view_rows log_pi2) (view_rows mu2)
          (view_rows sigma2) (view_rows rho2) in
  let flat_masks := view_rows masks in
  length rows1 = length flat_masks -> length rows2 = length flat_masks ->
  Forall binary flat_masks ->
  (forall i, (i < length flat_masks)%nat -> nth i flat_masks 0 = 1 ->
             nth i rows1 no_step = nth i rows2 no_step) ->
  (forall i, (i < length flat_masks)%nat -> nth i flat_masks 0 = 0 ->
             is_finite (step_term (nth i rows1 no_step))
             /\ is_finite (step_term (nth i rows2 no_step))) ->
  criterion x1 e1 log_pi1 mu1 sigma1 rho1 masks
  = criterion x2 e2 log_pi2 mu2 sigma2 rho2 masks.
Proof.
  intros rows1 rows2 flat_masks L1 L2 Hbin Hvalid Hmasked.
  rewrite !criterion_by_rows. fold rows1 rows2 flat_masks.
  unfold criterion_rows.
  now rewrite (masked_products_eq flat_masks rows1 rows2).
Qed.

(** A step with positive shifted standard deviations, a correlation
    strictly between -1 and 1 after the rescaling and a positive pen term
    is finite. *)
Lemma in_range_is_finite (d : step_data) :
  step_in_range d -> is_finite (step_term d).
Proof. intros H. exists (step_value d). now apply step_term_fin. Qed.

(** Two time steps of one sequence with one component; the second step
    is masked.  The calls differ in the offsets of the masked step. *)
Lemma criterion_ignores_finite_masked_steps_witness :
  criterion [[[0; 0; 0]]; [[0; 0; 0]]] [[1 / 2]; [1 / 10]]
            [[[0]]; [[0]]] [[[0; 0]]; [[0; 0]]] [[[1; 1]]; [[1; 1]]]
            [[[0]]; [[0]]] [[1]; [0]]
  = criterion [[[0; 0; 0]]; [[0; 7; -3]]] [[1 / 2]; [1 / 10]]
              [[[0]]; [[0]]] [[[0; 0]]; [[0; 0]]] [[[1; 1]]; [[1; 1]]]
              [[[0]]; [[0]]] [[1]; [0]].
Proof.
  apply criterion_ignores_finite_masked_steps.
  - reflexivity.
  - reflexivity.
  - simpl. constructor; [right; reflexivity |].
    constructor; [left; reflexivity | constructor].
  - intros [| [| i]] Hi Hm; simpl in Hi, Hm; try lia; [reflexivity | lra].
  - intros [| [| i]] Hi Hm; simpl in Hi, Hm; try lia; [lra |].
    split; apply in_range_is_finite;
      unfold step_in_range, step_components, step_pen, pen_term,
        component_in_range, epsillon; simpl;
      (split; [discriminate | split; [repeat constructor; simpl; lra | lra]]).
Defined.

(** C5 as stated fails: the two calls below agree at the step with mask 1
    and differ, by finite values, at the step with mask 0, where the
    second call has the pen-lift value 5.  Its pen term is negative, so
    its logarithm is NaN, the product with the mask 0 is NaN, and the
    loss is NaN, while the loss of the first call is finite. *)
Lemma criterion_masked_garbage_counterexample :
  let loss1 :=
    criterion [[[0; 0; 0]]; [[0; 0; 0]]] [[1 / 2]; [1 / 10]]
              [[[0]]; [[0]]] [[[0; 0]]; [[0; 0]]] [[[1; 1]]; [[1; 1]]]
              [[[0]]; [[0]]] [[1]; [0]] in
  let loss2 :=
    criterion [[[0; 0; 0]]; [[5; 0; 0]]] [[1 / 2]; [1 / 10]]
              [[[0]]; [[0]]] [[[0; 0]]; [[0; 0]]] [[[1; 1]]; [[1; 1]]]
              [[[0]]; [[0]]] [[1]; [0]] in
  is_finite loss1 /\ loss2 = NaN /\ loss1 <> loss2.
Proof.
  assert (H2 :
    criterion [[[0; 0; 0]]; [[5; 0; 0]]] [[1 / 2]; [1 / 10]]
              [[[0]]; [[0]]] [[[0; 0]]; [[0; 0]]] [[[1; 1]]; [[1; 1]]]
              [[[0]]; [[0]]] [[1]; [0]] = NaN).
  { rewrite criterion_by_rows. unfold criterion_rows.
    cbn [view_rows concat app steps map map2].
    assert (E : step_term ([5; 0; 0], 1 / 10, [0], [0; 0], [1; 1], [0]) = NaN).
    { unfold step_term. cbv zeta.
      rewrite (xlog_neg (pen_term (1 / 10) (nth 0 [5; 0; 0] 0)))
        by (unfold pen_term, epsillon; simpl; lra).
      apply xadd_nan_r. }
    rewrite E, xmul_nan_l. unfold xsum. cbn [fold_right].
    change (xadd NaN (Fin 0)) with NaN. now rewrite xadd_nan_r. }
  assert (H1 : is_finite
    (criterion [[[0; 0; 0]]; [[0; 0; 0]]] [[1 / 2]; [1 / 10]]
               [[[0]]; [[0]]] [[[0; 0]]; [[0; 0]]] [[[1; 1]]; [[1; 1]]]
               [[[0]]; [[0]]] [[1]; [0]])).
  { rewrite criterion_by_rows. unfold criterion_rows.
    cbn [view_rows concat app steps map map2].
    rewrite !step_term_fin;
      [| unfold step_in_range, step_components, step_pen, pen_term,
           component_in_range, epsillon; simpl;
         (split; [discriminate | split; [repeat constructor; simpl; lra | lra]])
         ..].
    unfold xsum, Rsum. cbn [fold_right].
    xfin lra. eexists. reflexivity. }
  cbv zeta. split; [exact H1 |]. split; [exact H2 |].
  rewrite H2. destruct H1 as [v ->]. discriminate.
Qed.

End MaskFacts.


(** ** C1: the loss of a training batch weighs the components by exp(pi) *)

Module TrainingLossFacts.
Import Loss LossFacts XRealFacts TensorFacts SpecLoss Batch.

Lemma tanh_zero : tanh 0 = 0.
Proof.
  unfold tanh, sinh. rewrite Ropp_0, exp_0. unfold Rdiv.
  rewrite Rminus_diag. now rewrite !Rmult_0_l.
Qed.

Lemma component_value_spec
    (x : R * R) (log_pi : R) (mu sigma : R * R) (rho : R) :
  component_value x log_pi mu sigma rho
  = spec_log_normal x mu sigma rho + log_pi.
Proof. reflexivity. Qed.

(** In general: the finite value of a step is the log of the mixture whose
    weights are the exponentials of the [log_pi] argument.  The training
    loop passes the softmax output [pi] there, so the weights of the loss
    are exp(pi_k), not pi_k. *)
Lemma step_value_weights (d : step_data) :
  step_value d
  = ln (Rsum (map (fun '(p, u, s, r) =>
                     exp p * exp (spec_log_normal
                                    (nth 1 (fst (fst (fst (fst (fst d))))) 0,
                                     nth 2 (fst (fst (fst (fst (fst d))))) 0)
                                    u s r))
                  (step_components d)))
    + ln (step_pen d).
Proof.
  destruct d as [[[[[x e] log_pi] mu] sigma] rho].
  unfold step_value. cbn [fst]. f_equal. f_equal. f_equal.
  rewrite map_map. apply map_ext. intros [[[p u] s] r].
  rewrite component_value_spec, exp_plus. apply Rmult_comm.
Qed.

(** C1 fails on the code.  On the zero network and one valid step the
    head returns pi = [1]; the loss the training loop computes is the
    loss of the claim minus 1, because [criterion] adds pi to the
    log-density of the component instead of log pi = 0. *)
Theorem uncond_loss_is_not_the_mixture_nll :
  exists hd out_states,
    HandWritingRNN.forward Tiny.uncond [[[0; 0; 0]]] None
    = Ok (hd, out_states)
    /\ uncond_loss Tiny.uncond failing_batch
       = Ok (Fin (spec_training_loss [[[0; 0; 0]]] hd [[1]] - 1))
    /\ uncond_loss Tiny.uncond failing_batch
       <> Ok (Fin (spec_training_loss [[[0; 0; 0]]] hd [[1]])).
Proof.
  eexists. eexists. split; [reflexivity |].
  match goal with |- ?A = ?B /\ _ => assert (E : A = B) end.
  { unfold uncond_loss, failing_batch.
    cbn [x masks permute10 map removelast tl].
    unfold HandWritingRNN.forward.
    cbn -[Loss.criterion spec_training_loss exp tanh sigmoid Rsum dot].
    replace (dot [0] [0] + 0) with 0 by (unfold dot; simpl; lra).
    rewrite exp_0, tanh_zero.
    f_equal. rewrite criterion_by_rows.
    unfold criterion_rows, spec_training_loss, spec_loss.
    cbn [view_rows concat app steps map map2 e pi mu sigma rho
         combine filter snd fst].
    unfold valid. destruct (Req_dec_T 1 1) as [_ | Hne]; [| congruence].
    cbn [map fst length].
    assert (Hsig : 0 < sigmoid 0 < 1) by apply HeadFacts.sigmoid_range.
    rewrite step_term_fin.
    2:{ unfold step_in_range, step_components, step_pen, pen_term,
          component_in_range, epsillon; simpl.
        split; [discriminate |]. split; [repeat constructor; simpl; lra |].
        apply Rdiv_lt_0_compat; lra. }
    unfold xsum. cbn [fold_right].
    xfin ltac:(unfold Rsum; simpl; lra). f_equal.
    unfold step_value, spec_step, step_components, step_pen,
      spec_mixture_density, spec_pen, pen_term.
    cbn [view_pairs map components nth fst snd].
    rewrite component_value_spec.
    set (L := spec_log_normal _ _ _ _).
    set (lp := ln (_ / _)).
    unfold Rsum. cbn [fold_right INR].
    replace (1 / (1 + 0)) with 1
      by (unfold Rdiv; rewrite Rplus_0_r, Rinv_1; lra).
    rewrite Rmult_1_l, !Rplus_0_r, !ln_exp. lra. }
  split; [exact E |].
  rewrite E. intros [= H]. lra.
Qed.

End TrainingLossFacts.


(** ** C10: the conditional network cannot be constructed by [train] *)

Module TrainFacts.
Import PyCall Construct Train.

Local Open Scope string_scope.

(** C10.  When [--uncond] is not given, [train] calls the constructor of
    the conditional network with the keyword [kappa_factor], which is not
    among its parameters: the call raises TypeError, no optimizer step is
    ever taken, and when the data pipeline succeeds that TypeError is the
    outcome of [train]. *)
Theorem conditional_training_fails_at_construction (w : world) (a : args) :
  uncond a = false ->
  HandWritingSynthRNN_init (nn w) [] synth_kwargs
  = Raise (TypeError "got an unexpected keyword argument 'kappa_factor'")
  /\ fst (train w a) = 0%nat
  /\ (exists e, snd (train w a) = Raise e)
  /\ (forall data, prepare w a = Ok data ->
        train w a
        = (0%nat,
           Raise (TypeError "got an unexpected keyword argument 'kappa_factor'"))).
Proof.
  intros Hcond.
  assert (Hinit :
    HandWritingSynthRNN_init (nn w) [] synth_kwargs
    = Raise (TypeError "got an unexpected keyword argument 'kappa_factor'"))
    by reflexivity.
  assert (Hbuild :
    build_model (nn w) a
    = Raise (TypeError "got an unexpected keyword argument 'kappa_factor'")).
  { unfold build_model. rewrite Hcond, Hinit. reflexivity. }
  split; [exact Hinit |].
  unfold train. rewrite Hbuild.
  destruct (prepare w a) as [data | e]; simpl.
  - split; [reflexivity |]. split; [eexists; reflexivity |].
    intros data' _. reflexivity.
  - split; [reflexivity |]. split; [eexists; reflexivity |].
    intros data' H. discriminate H.
Qed.

(** The conditional run in the small world. *)
Lemma conditional_training_fails_at_construction_witness :
  HandWritingSynthRNN_init (nn small_world) [] synth_kwargs
  = Raise (TypeError "got an unexpected keyword argument 'kappa_factor'")
  /\ fst (train small_world (mkArgs false None)) = 0%nat
  /\ (exists e, snd (train small_world (mkArgs false None)) = Raise e)
  /\ (forall data, prepare small_world (mkArgs false None) = Ok data ->
        train small_world (mkArgs false None)
        = (0%nat,
           Raise (TypeError "got an unexpected keyword argument 'kappa_factor'"))).
Proof.
  apply (conditional_training_fails_at_construction small_world
           (mkArgs false None)).
  reflexivity.
Defined.

(** By contrast the constructor call of the unconditional network binds
    its three keywords. *)
Lemma unconditional_model_is_built (w : world) (a : args) :
  uncond a = true -> exists m, build_model (nn w) a = Ok (Uncond m).
Proof.
  intros H. unfold build_model. rewrite H. eexists. reflexivity.
Qed.

(** In the small world the unconditional run takes its ten optimizer
    steps, one batch in each of the ten epochs. *)
Example unconditional_run_takes_steps :
  train small_world (mkArgs true None) = (10%nat, Ok tt).
Proof. reflexivity. Qed.

End TrainFacts.


(** ** C2: what the conditional forward pass does with the character mask *)

Module MaskArgumentFacts.
Import PyCall Construct Train.

Local Open Scope string_scope.

Lemma all_some_map_Some {A B : Type} (f : A -> B) (g : B -> option A)
    (l : list A) :
  (forall a, g (f a) = Some a) -> all_some (map g (map f l)) = Some l.
Proof.
  intros Hgf. induction l as [| a l IH]; simpl; [reflexivity |].
  now rewrite Hgf, IH.
Qed.

Lemma as_of_tensor1 (t : tensor1) : as_tensor1 (of_tensor1 t) = Some t.
Proof. apply all_some_map_Some. reflexivity. Qed.

Lemma as_of_tensor2 (t : tensor2) : as_tensor2 (of_tensor2 t) = Some t.
Proof. apply all_some_map_Some, as_of_tensor1. Qed.

Lemma as_of_tensor3 (t : tensor3) : as_tensor3 (of_tensor3 t) = Some t.
Proof. apply all_some_map_Some, as_of_tensor2. Qed.

Lemma coerce_states_of_mask (self : HandWritingSynthRNN.t) (c_masks : tensor2) :
  coerce_states self (PTensor (of_tensor2 c_masks))
  = Raise (mask_as_state_error c_masks).
Proof.
  destruct c_masks as [| row rest]; [reflexivity |].
  destruct row as [| a [| b [| c row]]]; reflexivity.
Qed.

(** C2 fails on the code.  The training loop calls the conditional
    network on (inp_x, c_seq, c_masks).  The third parameter of [forward]
    is [lstm_in_states], so the mask is bound to it, no parameter receives
    a character mask, and the forward pass raises on every batch when it
    unpacks [lstm_in_states[0]] into the state of the first cell. *)
Theorem character_mask_is_taken_as_lstm_state
    (self : HandWritingSynthRNN.t) (inp_x c_seq : tensor3) (c_masks : tensor2) :
  let inputs :=
    [PTensor (of_tensor3 inp_x); PTensor (of_tensor3 c_seq);
     PTensor (of_tensor2 c_masks)] in
  bind_args forward_params inputs []
  = Ok [("inp", PTensor (of_tensor3 inp_x));
        ("c_seq", PTensor (of_tensor3 c_seq));
        ("lstm_in_states", PTensor (of_tensor2 c_masks));
        ("prev_window", PNone); ("prev_kappa", PInt 0)]
  /\ forward_call self inputs [] = Raise (mask_as_state_error c_masks)
  /\ (forall bt, cond_loss self bt
                 = Raise (mask_as_state_error (Batch.c_masks bt))).
Proof.
  assert (Hcall : forall i c k,
    forward_call self
      [PTensor (of_tensor3 i); PTensor (of_tensor3 c); PTensor (of_tensor2 k)]
      []
    = Raise (mask_as_state_error k)).
  { intros i c k. unfold forward_call.
    change (bind_args forward_params
              [PTensor (of_tensor3 i); PTensor (of_tensor3 c);
               PTensor (of_tensor2 k)] [])
      with (Ok [("inp", PTensor (of_tensor3 i));
                ("c_seq", PTensor (of_tensor3 c));
                ("lstm_in_states", PTensor (of_tensor2 k));
                ("prev_window", PNone); ("prev_kappa", PInt 0)]).
    cbn [bind get_arg lookup String.eqb Ascii.eqb Bool.eqb tensor_of
         coerce_window].
    rewrite !as_of_tensor3. cbn [bind expect coerce_window].
    now rewrite coerce_states_of_mask. }
  cbv zeta. split; [reflexivity |]. split; [apply Hcall |].
  intros bt. unfold cond_loss. now rewrite Hcall.
Qed.

End MaskArgumentFacts.


(** ** C6: the first input of a generation run *)

Module GenerationFacts.
Import PyCall Sampler Generation.

Local Open Scope string_scope.

(** The events of a sequence start with the events of its first part. *)
Lemma events_gbind {rng A B : Type} (c : gen rng A) (k : A -> gen rng B)
    (g : rng) :
  exists rest, events (gbind c k g) = (events (c g) ++ rest)%list.
Proof.
  unfold gbind, events. destruct (c g) as [[[a | e] g'] evs]; simpl.
  - destruct (k a g') as [[r g''] evs']. simpl. now exists evs'.
  - exists []. now rewrite app_nil_r.
Qed.

Lemma events_lift_ok {rng A B : Type} (a : A) (k : A -> gen rng B) (g : rng) :
  events (gbind (lift (Ok a)) k g) = events (k a g).
Proof.
  unfold gbind, lift, events. destruct (k a g) as [[r g'] evs]. reflexivity.
Qed.

Lemma events_log {rng B : Type} (ev : event) (k : unit -> gen rng B) (g : rng) :
  exists rest, events (gbind (log ev) k g) = ev :: rest.
Proof.
  unfold gbind, log, events. destruct (k tt g) as [[r g'] evs]. simpl.
  now exists evs.
Qed.

(** The first row of an uninitialised buffer. *)
Lemma slice_empty3 (memory : nat -> nat -> nat -> R) (a b c : nat) :
  slice 0 1 (empty3 memory (S a) b c)
  = [map (fun j => map (memory 0%nat j) (seq 0 c)) (seq 0 b)].
Proof. reflexivity. Qed.

Lemma slice_zeros3 (a b c : nat) :
  slice 0 1 (zeros3 (S a) b c) = [repeat (repeat 0 c) b].
Proof. reflexivity. Qed.

Lemma pad_sequence_ok (sentences : list tensor2) :
  sentences <> [] ->
  exists c_seq, pad_sequence sentences = Ok c_seq
                /\ length c_seq = length sentences.
Proof.
  destruct sentences as [| s rest]; [congruence | intros _].
  eexists. split; [reflexivity |]. now rewrite length_map.
Qed.

(** X15.  The unconditional run starts from the zero point: the first call of
    the forward pass receives one time step of [batch] all-zero points. *)
Lemma uncond_generate_first_input {rng : Type} (sm : samplers rng)
    (self : HandWritingRNN.t) (length batch : nat) (g : rng) :
  (0 < length)%nat ->
  exists rest,
    events (uncond_generate sm self length batch g)
    = Forward [repeat [0; 0; 0] batch] :: rest.
Proof.
  intros Hlen. destruct length as [| n]; [lia |].
  unfold uncond_generate.
  destruct (events_gbind
              (for_each (seq 1 (S n)) (uncond_step sm self batch)
                        (zeros3 (S n + 1) batch 3, None))
              (fun st => ret (tl (fst st))) g) as [rest1 ->].
  cbn [seq for_each].
  destruct (events_gbind
              (uncond_step sm self batch 1 (zeros3 (S n + 1) batch 3, None))
              (fun st' => for_each (seq 2 n) (uncond_step sm self batch) st')
              g) as [rest2 ->].
  unfold uncond_step at 1.
  destruct (events_log (rng := rng)
              (Forward (slice (1 - 1) 1 (zeros3 (S n + 1) batch 3)))
              (fun _ =>
                 (out <- lift (HandWritingRNN.forward self
                                 (slice (1 - 1) 1 (zeros3 (S n + 1) batch 3))
                                 None) ;;
                  pt <- sample_point sm batch (HandWritingRNN.n_gaussians self)
                                     (fst out) ;;
                  ret (write_point (zeros3 (S n + 1) batch 3) 1
                                   (fst pt) (snd pt), Some (snd out)))%gen)
              g) as [rest3 ->].
  eexists. reflexivity.
Qed.

(** C6 fails on the code for the conditional entry point.  The buffer of
    [HandWritingSynthRNN.generate] comes from [torch.empty], and its row 0
    is never written: the first call of the forward pass receives whatever
    the memory holds there, not the zero point. *)
Theorem synth_generate_first_input_is_uninitialised {rng : Type}
    (sm : samplers rng) (memory : nat -> nat -> nat -> R)
    (self : HandWritingSynthRNN.t) (sentences : list tensor2) (g : rng) :
  sentences <> [] ->
  exists rest,
    events (synth_generate sm memory self sentences g)
    = Forward [map (fun j => [memory 0 j 0; memory 0 j 1; memory 0 j 2])%nat
                   (seq 0 (length sentences))]
      :: rest.
Proof.
  intros Hne. unfold synth_generate.
  destruct (pad_sequence_ok sentences Hne) as [c_seq [-> Hlen]].
  rewrite events_lift_ok. cbv zeta. rewrite Hlen.
  set (st0 := (empty3 memory (600 + 1) (length sentences) 3, None,
               HandWritingSynthRNN.zeros2 (length sentences)
                 (length (hd [] (hd [] c_seq))),
               HandWritingSynthRNN.KTensor
                 (HandWritingSynthRNN.zeros2
                    (length sentences)
                    (HandWritingSynthRNN.n_gaussians_window self)))).
  set (body := synth_step sm self c_seq (length sentences)).
  destruct (events_gbind (for_each (seq 1 600) body st0)
              (fun st => ret (tl (fst (fst (fst st))))) g) as [rest1 ->].
  change (seq 1 600) with (1%nat :: seq 2 599). cbn [for_each].
  destruct (events_gbind (body 1%nat st0)
              (fun st' => for_each (seq 2 599) body st') g) as [rest2 ->].
  assert (Hfirst : exists rest3,
             events (body 1%nat st0 g)
             = Forward (slice (1 - 1) 1
                          (empty3 memory (600 + 1) (length sentences) 3))
               :: rest3).
  { unfold body, synth_step, st0. cbv beta iota. apply events_log. }
  destruct Hfirst as [rest3 ->].
  eexists. reflexivity.
Qed.

(** Two sentences of one character and a memory full of ones: the first
    input of the forward pass is the all-ones point. *)
Lemma synth_generate_first_input_is_uninitialised_witness :
  exists rest,
    events (synth_generate mode_samplers (fun _ _ _ => 1) Tiny.synth
                           [[[1; 0]]; [[0; 1]]] tt)
    = Forward [[[1; 1; 1]; [1; 1; 1]]] :: rest.
Proof.
  apply (synth_generate_first_input_is_uninitialised mode_samplers
           (fun _ _ _ => 1) Tiny.synth [[[1; 0]]; [[0; 1]]] tt).
  discriminate.
Defined.

(** *** The number of returned points *)

Lemma outcome_gbind_ok {rng A B : Type} (c : gen rng A) (k : A -> gen rng B)
    (g : rng) (b : B) :
  outcome (gbind c k g) = Ok b ->
  exists a g' evs, c g = (Ok a, g', evs) /\ outcome (k a g') = Ok b.
Proof.
  unfold gbind, outcome. destruct (c g) as [[[a | e] g'] evs]; simpl.
  - intros H. exists a, g', evs. split; [reflexivity |].
    destruct (k a g') as [[r g''] evs']. exact H.
  - discriminate.
Qed.

Lemma for_each_invariant {rng St : Type} (P : St -> Prop) (indices : list nat)
    (body : nat -> St -> gen rng St) :
  (forall i st g st', In i indices -> P st ->
                      outcome (body i st g) = Ok st' -> P st') ->
  forall st g st',
    P st -> outcome (for_each indices body st g) = Ok st' -> P st'.
Proof.
  induction indices as [| i rest IH]; intros Hbody st g st' HP Hrun.
  - unfold outcome in Hrun. simpl in Hrun. now injection Hrun as <-.
  - cbn [for_each] in Hrun.
    apply outcome_gbind_ok in Hrun.
    destruct Hrun as [st1 [g1 [evs [Hfirst Hrest]]]].
    apply (IH (fun j s h s' Hj => Hbody j s h s' (or_intror Hj)) st1 g1 st').
    + apply (Hbody i st g st1 (or_introl eq_refl) HP).
      unfold outcome. now rewrite Hfirst.
    + exact Hrest.
Qed.

Lemma length_write_point (samples : tensor3) (i : nat)
    (lift_bits : tensor1) (offsets : tensor2) :
  (i < length samples)%nat ->
  length (write_point samples i lift_bits offsets) = length samples.
Proof.
  intros Hi. unfold write_point.
  rewrite length_app, length_firstn. cbn [length].
  rewrite length_skipn. lia.
Qed.

(** X16.  When the unconditional run returns, it returns [length] points: the
    buffer without its row 0. *)
Lemma uncond_generate_length {rng : Type} (sm : samplers rng)
    (self : HandWritingRNN.t) (length batch : nat) (g : rng)
    (samples : tensor3) :
  outcome (uncond_generate sm self length batch g) = Ok samples ->
  List.length samples = length.
Proof.
  unfold uncond_generate. intros Hrun.
  apply outcome_gbind_ok in Hrun.
  destruct Hrun as [st [g' [evs [Hloop Hret]]]].
  unfold outcome, ret in Hret. simpl in Hret. injection Hret as <-.
  assert (Hinv : List.length (fst st) = (length + 1)%nat).
  { apply (for_each_invariant
             (fun s : tensor3 * option (list lstm_state) =>
                List.length (fst s) = (length + 1)%nat)
             (seq 1 length) (uncond_step sm self batch))
      with (st := (zeros3 (length + 1) batch 3, None)) (g := g).
    - intros i [smp sts] h st' Hi HP Hstep. simpl in HP.
      unfold uncond_step in Hstep.
      apply outcome_gbind_ok in Hstep.
      destruct Hstep as [u [h1 [e1 [_ Hstep]]]].
      apply outcome_gbind_ok in Hstep.
      destruct Hstep as [out [h2 [e2 [_ Hstep]]]].
      apply outcome_gbind_ok in Hstep.
      destruct Hstep as [pt [h3 [e3 [_ Hstep]]]].
      unfold outcome, ret in Hstep. simpl in Hstep. injection Hstep as <-.
      simpl. rewrite length_write_point; [exact HP |].
      apply in_seq in Hi. lia.
    - simpl. unfold zeros3. apply repeat_length.
    - unfold outcome. now rewrite Hloop. }
  destruct (fst st) as [| row0 rest]; simpl in *; lia.
Qed.

(** X17.  When the conditional run returns, it returns 600 points. *)
Lemma synth_generate_length {rng : Type} (sm : samplers rng)
    (memory : nat -> nat -> nat -> R) (self : HandWritingSynthRNN.t)
    (sentences : list tensor2) (g : rng) (samples : tensor3) :
  outcome (synth_generate sm memory self sentences g) = Ok samples ->
  List.length samples = 600%nat.
Proof.
  unfold synth_generate. intros Hrun.
  apply outcome_gbind_ok in Hrun.
  destruct Hrun as [c_seq [g0 [evs0 [_ Hrun]]]].
  cbv zeta in Hrun.
  apply outcome_gbind_ok in Hrun.
  destruct Hrun as [st [g' [evs [Hloop Hret]]]].
  unfold outcome, ret in Hret. simpl in Hret. injection Hret as <-.
  assert (Hinv : List.length (fst (fst (fst st))) = 601%nat).
  { apply (for_each_invariant
             (fun s : synth_state => List.length (fst (fst (fst s))) = 601%nat)
             (seq 1 600) (synth_step sm self c_seq (List.length c_seq)))
      with (2 := eq_refl : List.length
                   (fst (fst (fst (empty3 memory (600 + 1)
                                     (List.length c_seq) 3, None,
                                   HandWritingSynthRNN.zeros2
                                     (List.length c_seq)
                                     (List.length (hd [] (hd [] c_seq))),
                                   HandWritingSynthRNN.KTensor
                                     (HandWritingSynthRNN.zeros2
                                        (List.length c_seq)
                                        (HandWritingSynthRNN.n_gaussians_window
                                           self))))))
                 = 601%nat)
           (g := g0).
    - intros i [[[smp sts] w] kp] h st' Hi HP Hstep. simpl in HP.
      unfold synth_step in Hstep.
      apply outcome_gbind_ok in Hstep.
      destruct Hstep as [u [h1 [e1 [_ Hstep]]]].
      apply outcome_gbind_ok in Hstep.
      destruct Hstep as [out [h2 [e2 [_ Hstep]]]].
      apply outcome_gbind_ok in Hstep.
      destruct Hstep as [pt [h3 [e3 [_ Hstep]]]].
      unfold outcome, ret in Hstep. simpl in Hstep. injection Hstep as <-.
      simpl. rewrite length_write_point; [exact HP |].
      apply in_seq in Hi. lia.
    - unfold outcome. now rewrite Hloop. }
  destruct (fst (fst (fst st))) as [| row0 rest]; simpl in *; lia.
Qed.

(** The unconditional generator on two sequences and two steps, with the
    samplers that return the modes: two points for each sequence. *)
Example uncond_generate_two_sequences :
  exists p1 p2,
    outcome (uncond_generate mode_samplers Tiny.uncond 2 2 tt)
    = Ok [[p1; p1]; [p2; p2]].
Proof. eexists. eexists. reflexivity. Qed.

(** The same generator with its default batch of one sequence raises on
    the first step. *)
Example uncond_generate_one_sequence :
  outcome (uncond_generate mode_samplers Tiny.uncond 2 1 tt)
  = Raise (IndexError "too many indices for tensor of dimension 1").
Proof. reflexivity. Qed.

End GenerationFacts.


(** ** C9: the draws of one generation step *)

Module SamplerFacts.
Import PyCall Sampler Generation.

Local Open Scope string_scope.

Lemma length_view_pairs {A : Type} (m : nat) (row : list A) :
  length row = (2 * m)%nat -> length (view_pairs row) = m.
Proof.
  revert row. induction m as [| m IH]; intros row Hlen.
  - destruct row; [reflexivity | discriminate].
  - destruct row as [| a [| b row]]; simpl in Hlen; try lia.
    simpl. f_equal. apply IH. lia.
Qed.


Lemma view_components_ok (batch m : nat) (t : tensor2) :
  length t = batch -> Forall (fun row => length row = (2 * m)%nat) t ->
  view_components batch m t = Ok (map view_pairs t).
Proof.
  intros Hlen Hrows. unfold view_components.
  rewrite Hlen, Nat.eqb_refl. cbn [andb].
  replace (forallb _ t) with true; [reflexivity |].
  symmetry. apply forallb_forall. intros row Hrow.
  rewrite Forall_forall in Hrows. rewrite (Hrows row Hrow).
  apply Nat.eqb_refl.
Qed.

Lemma in_range_indices {A : Type} (m : nat) (t : list (list A))
    (ks : list nat) :
  Forall (fun row => length row = m) t -> Forall (fun k => (k < m)%nat) ks ->
  forallb (fun p => (snd p <? length (fst p))%nat) (combine t ks) = true.
Proof.
  intros Ht Hks. apply forallb_forall. intros [row k] Hin. cbn [fst snd].
  apply Nat.ltb_lt.
  rewrite Forall_forall in Ht, Hks.
  rewrite (Ht row (in_combine_l _ _ _ _ Hin)).
  apply Hks, (in_combine_r _ _ _ _ Hin).
Qed.

(** C9 fails on the code for a batch of one sequence, the default of
    [HandWritingRNN.generate] and the case of one sentence.  After the
    pen-lift draw and the component draw, [squeeze()] removes the batch
    axis too: the gathered sigma has the dimensions (2,), [sigma[:, 0]]
    raises IndexError, and no offset is drawn. *)
Theorem sample_point_raises_for_one_sequence {rng : Type}
    (sm : samplers rng) (g : rng) (m : nat) (hd : head)
    (mu_row sigma_row rho_row : tensor1) (k : nat) :
  let e_last := last (Layers.e hd) [] in
  let pi_last := last (Layers.pi hd) [] in
  last (Layers.mu hd) [] = [mu_row] -> length mu_row = (2 * m)%nat ->
  last (Layers.sigma hd) [] = [sigma_row] -> length sigma_row = (2 * m)%nat ->
  last (Layers.rho hd) [] = [rho_row] -> length rho_row = m ->
  fst (categorical sm (snd (bernoulli sm g e_last)) pi_last) = [k] ->
  (k < m)%nat ->
  outcome (sample_point sm 1 m hd g)
  = Raise (IndexError "too many indices for tensor of dimension 1")
  /\ events (sample_point sm 1 m hd g)
     = [Bernoulli e_last; Categorical pi_last].
Proof.
  intros e_last pi_last Hmu Lmu Hsigma Lsigma Hrho Lrho Hk Hlt.
  unfold sample_point, gbind, draw, lift, outcome, events.
  fold e_last pi_last.
  destruct (bernoulli sm g e_last) as [lift_bits g1]. cbn [snd] in Hk.
  destruct (categorical sm g1 pi_last) as [ks g2]. cbn [fst] in Hk. subst ks.
  rewrite Hmu, Hsigma, Hrho.
  rewrite !view_components_ok by (repeat constructor; assumption).
  cbn [map bind].
  unfold gather_pairs, gather_entries.
  rewrite !(in_range_indices m) by
    (repeat constructor; try assumption; now apply length_view_pairs).
  split; reflexivity.
Qed.

(** The head of the zero network on one all-zero point. *)
Lemma sample_point_raises_for_one_sequence_witness :
  let hd :=
    mkHead [[sigmoid 0]] [[[1]]] [[[0; 0]]] [[[1; 1]]] [[[0]]] in
  outcome (sample_point mode_samplers 1 1 hd tt)
  = Raise (IndexError "too many indices for tensor of dimension 1")
  /\ events (sample_point mode_samplers 1 1 hd tt)
     = [Bernoulli [sigmoid 0]; Categorical [[1]]].
Proof.
  apply (sample_point_raises_for_one_sequence mode_samplers tt 1
           (mkHead [[sigmoid 0]] [[[1]]] [[[0; 0]]] [[[1; 1]]] [[[0]]])
           [0; 0] [1; 1] [0] 0).
  - reflexivity.
  - reflexivity.
  - reflexivity.
  - reflexivity.
  - reflexivity.
  - reflexivity.
  - reflexivity.
  - lia.
Defined.

(** *** Batches of at least two sequences *)







End SamplerFacts.


Module LossExtraFacts.
Import Loss LossFacts XRealFacts TensorFacts HeadFacts Plane.

(** *** A batch without a valid step *)

Lemma Rsum_zeros (l : list R) : Forall (fun mk => mk = 0) l -> Rsum l = 0.
Proof.
  induction 1 as [| mk l Hmk _ IH]; simpl; [reflexivity |].
  rewrite Hmk, IH. lra.
Qed.

Lemma Forall_concat {A : Type} (P : A -> Prop) (t : list (list A)) :
  Forall (Forall P) t -> Forall P (concat t).
Proof.
  induction 1 as [| row t Hrow _ IH]; simpl; [constructor |].
  apply Forall_app. now split.
Qed.

Lemma xmul_zero_cases (a : xreal) : xmul a (Fin 0) = Fin 0 \/ xmul a (Fin 0) = NaN.
Proof.
  destruct a as [r | | |]; simpl.
  - left. f_equal. lra.
  - right. now rewrite Rsign_zero.
  - right. now rewrite Rsign_zero.
  - now right.
Qed.

Lemma masked_sum_cases (terms : list xreal) (masks : list R) :
  Forall (fun mk => mk = 0) masks ->
  let s := xsum (map2 (fun t mk => xmul t (Fin mk)) terms masks) in
  s = Fin 0 \/ s = NaN.
Proof.
  intros Hm. revert terms.
  induction Hm as [| mk masks Hmk _ IH]; intros [| t terms]; simpl;
    try (now left).
  subst mk. specialize (IH terms). simpl in IH.
  destruct (xmul_zero_cases t) as [-> | ->], IH as [-> | ->]; simpl;
    try (now right).
  left. f_equal. lra.
Qed.

(** X1.  When every mask is 0 the batch has no valid step, the loss is the
    quotient 0 / 0: [criterion] returns NaN whatever the other
    arguments are. *)
Theorem criterion_without_valid_step_is_nan
    (x : list (list (list R))) (e : list (list R))
    (log_pi mu sigma rho : list (list (list R))) (masks : list (list R)) :
  Forall (Forall (fun mk => mk = 0)) masks ->
  criterion x e log_pi mu sigma rho masks = NaN.
Proof.
  intros Hm. apply Forall_concat in Hm.
  rewrite criterion_by_rows. unfold criterion_rows, view_rows.
  rewrite (Rsum_zeros _ Hm).
  destruct (masked_sum_cases
              (map step_term
                 (steps (concat x) (concat e) (concat log_pi) (concat mu)
                        (concat sigma) (concat rho)))
              (concat masks) Hm) as [-> | ->].
  - simpl. now rewrite Rsign_zero.
  - reflexivity.
Qed.

Lemma criterion_without_valid_step_is_nan_witness :
  criterion [[[0; 0; 0]]; [[1; 2; 3]]] [[1 / 2]; [1 / 2]]
            [[[0]]; [[0]]] [[[0; 0]]; [[0; 0]]] [[[1; 1]]; [[1; 1]]]
            [[[0]]; [[0]]] [[0]; [0]]
  = NaN.
Proof.
  apply criterion_without_valid_step_is_nan.
  repeat constructor.
Defined.

(** *** Translations *)

Lemma component_log_density_translate
    (d x : R * R) (log_pi : R) (mu sigma : R * R) (rho : R) :
  component_log_density (translate d x) log_pi (translate d mu) sigma rho
  = component_log_density x log_pi mu sigma rho.
Proof.
  unfold component_log_density, translate. cbn [fst snd].
  rewrite !xsub_fin.
  replace (fst x + fst d - (fst mu + fst d)) with (fst x - fst mu) by lra.
  replace (snd x + snd d - (snd mu + snd d)) with (snd x - snd mu) by lra.
  reflexivity.
Qed.

Lemma components_translate (d : R * R) (log_pi : list R)
    (mu sigma : list (R * R)) (rho : list R) :
  components log_pi (map (translate d) mu) sigma rho
  = map (fun '(p, u, s, r) => (p, translate d u, s, r))
        (components log_pi mu sigma rho).
Proof.
  revert mu sigma rho.
  induction log_pi as [| p log_pi IH]; intros [| u mu] [| s sigma] [| r rho];
    try reflexivity.
  cbn [map components]. now rewrite IH.
Qed.

Lemma row_log_density_translate (d x : R * R) (log_pi : list R)
    (mu sigma : list (R * R)) (rho : list R) :
  row_log_density (translate d x) log_pi (map (translate d) mu) sigma rho
  = row_log_density x log_pi mu sigma rho.
Proof.
  unfold row_log_density. rewrite components_translate, map_map.
  f_equal. apply map_ext. intros [[[p u] s] r].
  apply component_log_density_translate.
Qed.

(** X2.  In exact arithmetic the mixture log-density depends on the point
    and the means only through their differences: moving the points and
    all the means by the same offset leaves every log-density unchanged,
    special values included.  (In floating point the differences
    [x - mu] are rounded after the move, so the two sides agree only up
    to that rounding.) *)
Theorem mog_density_2d_translation_invariant (d : R * R)
    (x : list (R * R)) (log_pi : list (list R))
    (mu sigma : list (list (R * R))) (rho : list (list R)) :
  mog_density_2d (map (translate d) x) log_pi
                 (map (map (translate d)) mu) sigma rho
  = mog_density_2d x log_pi mu sigma rho.
Proof.
  revert log_pi mu sigma rho.
  induction x as [| xi x IH];
    intros [| p log_pi] [| u mu] [| s sigma] [| r rho]; try reflexivity.
  cbn [map mog_density_2d]. now rewrite IH, row_log_density_translate.
Qed.

End LossExtraFacts.


Module HeadLossFacts.
Import Loss LossFacts XRealFacts TensorFacts HeadFacts LossExtraFacts.

Lemma in_steps (d : step_data) (x : list (list R)) (e : list R)
    (log_pi mu sigma rho : list (list R)) :
  In d (steps x e log_pi mu sigma rho) ->
  let '(xi, ei, p, u, s, r) := d in
  In xi x /\ In ei e /\ In p log_pi /\ In u mu /\ In s sigma /\ In r rho.
Proof.
  revert e log_pi mu sigma rho.
  induction x as [| xi x IH];
    intros [| ei e] [| p log_pi] [| u mu] [| s sigma] [| r rho];
    try (now intros []).
  cbn [steps]. intros [<- | Hin].
  - repeat split; now left.
  - specialize (IH _ _ _ _ _ Hin).
    destruct d as [[[[[xi' ei'] p'] u'] s'] r'].
    destruct IH as (? & ? & ? & ? & ? & ?). repeat split; now right.
Qed.

Lemma in_view_rows_map {A B : Type} (f : A -> B) (t : list (list A)) (b : B) :
  In b (view_rows (map (map f) t)) ->
  exists a, In a (view_rows t) /\ b = f a.
Proof.
  unfold view_rows. rewrite <- concat_map. intros Hin.
  apply in_map_iff in Hin as (a & <- & Ha). now exists a.
Qed.

Lemma length_cols (a b : nat) (row : tensor1) :
  (b <= length row)%nat -> length (cols a b row) = (b - a)%nat.
Proof.
  intros Hb. unfold cols, slice. rewrite length_firstn, length_skipn. lia.
Qed.

Lemma Forall_view_pairs {A : Type} (P : A -> Prop) (row : list A) :
  Forall P row -> Forall (fun s => P (fst s) /\ P (snd s)) (view_pairs row).
Proof.
  intros Hrow.
  assert (H : forall n (l : list A), (length l <= n)%nat -> Forall P l ->
                Forall (fun s => P (fst s) /\ P (snd s)) (view_pairs l)).
  { induction n as [| n IH]; intros l Hl HP.
    - destruct l; [constructor | simpl in Hl; lia].
    - destruct l as [| a [| b l]]; try constructor.
      + inversion HP as [| ? ? Ha HP']. inversion HP' as [| ? ? Hb HP''].
        now split.
      + apply IH.
        * simpl in Hl. lia.
        * inversion HP as [| ? ? Ha HP']. now inversion HP'. }
  now apply (H (length row)).
Qed.

Lemma view_pairs_nonempty {A : Type} (row : list A) :
  (2 <= length row)%nat -> view_pairs row <> [].
Proof.
  destruct row as [| a [| b row]]; simpl; intros H; try lia. discriminate.
Qed.

Lemma map_nonempty {A B : Type} (f : A -> B) (l : list A) :
  l <> [] -> map f l <> [].
Proof. destruct l; simpl; congruence. Qed.

Lemma components_nonempty (log_pi : list R) (mu sigma : list (R * R))
    (rho : list R) :
  log_pi <> [] -> mu <> [] -> sigma <> [] -> rho <> [] ->
  components log_pi mu sigma rho <> [].
Proof.
  destruct log_pi, mu, sigma, rho; simpl; congruence.
Qed.

Lemma components_in_range (log_pi : list R) (mu sigma : list (R * R))
    (rho : list R) :
  Forall (fun s => 0 < fst s /\ 0 < snd s) sigma ->
  Forall (fun r => r * r < 1) rho ->
  Forall component_in_range (components log_pi mu sigma rho).
Proof.
  intros Hs. revert log_pi mu rho.
  induction Hs as [| s sigma [Hs0 Hs1] _ IH];
    intros [| p log_pi] [| u mu] [| r rho] Hr; try constructor.
  - inversion Hr; subst. now repeat split.
  - apply IH. now inversion Hr.
Qed.

Lemma nonempty_of_length {A : Type} (m : nat) (l : list A) :
  (0 < m)%nat -> (m <= length l)%nat -> l <> [].
Proof. intros Hm Hl ->. simpl in Hl. lia. Qed.

Lemma pen_term_pos (e lift : R) :
  0 <= e <= 1 -> 0 <= lift <= 1 -> 0 < pen_term e lift.
Proof.
  intros He Hl. unfold pen_term, epsillon.
  apply Rdiv_lt_0_compat; [| lra].
  assert (0 <= e * lift) by (apply Rmult_le_pos; lra).
  assert (0 <= (1 - e) * (1 - lift)) by (apply Rmult_le_pos; lra).
  lra.
Qed.

Lemma scaled_correlation_in_range (r : R) :
  -1 <= r <= 1 -> (r / (1 + epsillon)) * (r / (1 + epsillon)) < 1.
Proof.
  intros Hr. unfold epsillon.
  assert (H : -1 < r / (1 + 1 / 10000) < 1) by (split; lra).
  nra.
Qed.

(** The shifts by [epsillon] bring the closed ranges of the parameters
    into the open ranges where a step is finite. *)
Lemma step_in_range_closed (xi : list R) (ei : R) (p u s r : list R) :
  0 <= nth 0 xi 0 <= 1 -> 0 <= ei <= 1 ->
  p <> [] -> (2 <= length u)%nat ->
  (2 <= length s)%nat -> Forall (fun v => 0 <= v) s ->
  r <> [] -> Forall (fun v => -1 <= v <= 1) r ->
  step_in_range (xi, ei, p, u, s, r).
Proof.
  intros Hx He Hp Hu Hs Hs0 Hr Hr1.
  unfold step_in_range, step_components, step_pen.
  split; [| split].
  - apply components_nonempty; try assumption.
    + now apply view_pairs_nonempty.
    + now apply map_nonempty, view_pairs_nonempty.
    + now apply map_nonempty.
  - apply components_in_range.
    + apply Forall_map_iff.
      eapply Forall_impl; [| apply (Forall_view_pairs _ _ Hs0) ].
      intros [s0 s1] [H0 H1]. cbn [fst snd] in *. unfold epsillon.
      split; lra.
    + apply Forall_map_iff.
      eapply Forall_impl; [| exact Hr1 ].
      intros v Hv. now apply scaled_correlation_in_range.
  - now apply pen_term_pos.
Qed.

(** X3.  The shifts by [epsillon] keep the loss finite even at the ends of
    the parameter ranges: for pen-lift targets and end-of-stroke
    probabilities in [0, 1], standard deviations that are not negative,
    correlations in [-1, 1], at least one component in every row and
    masks whose sum is not 0, [criterion] returns a finite number. *)
Theorem criterion_is_finite_on_closed_ranges
    (x : list (list (list R))) (e : list (list R))
    (log_pi mu sigma rho : list (list (list R))) (masks : list (list R)) :
  Forall (Forall (fun pt => 0 <= nth 0 pt 0 <= 1)) x ->
  Forall (Forall (fun v => 0 <= v <= 1)) e ->
  Forall (Forall (fun row => row <> [])) log_pi ->
  Forall (Forall (fun row => (2 <= length row)%nat)) mu ->
  Forall (Forall (fun row => (2 <= length row)%nat
                             /\ Forall (fun v => 0 <= v) row)) sigma ->
  Forall (Forall (fun row => row <> []
                             /\ Forall (fun v => -1 <= v <= 1) row)) rho ->
  Rsum (view_rows masks) <> 0 ->
  is_finite (criterion x e log_pi mu sigma rho masks).
Proof.
  intros Hx He Hp Hu Hs Hr Hmasks.
  rewrite criterion_by_rows, criterion_rows_fin;
    [eexists; reflexivity | | exact Hmasks].
  apply Forall_concat in Hx, He, Hp, Hu, Hs, Hr.
  rewrite Forall_forall in Hx, He, Hp, Hu, Hs, Hr.
  apply Forall_forall. intros [[[[[xi ei] p] u] s] r] Hd.
  apply in_steps in Hd. destruct Hd as (Hxi & Hei & Hpi & Hui & Hsi & Hri).
  destruct (Hs _ Hsi), (Hr _ Hri).
  apply step_in_range_closed; auto.
Qed.

Lemma criterion_is_finite_on_closed_ranges_witness :
  is_finite (criterion [[[1; 2; 3]]] [[1]] [[[0]]] [[[0; 0]]] [[[0; 0]]]
                       [[[-1]]] [[1]]).
Proof.
  apply criterion_is_finite_on_closed_ranges.
  - repeat constructor; simpl; lra.
  - repeat constructor; lra.
  - repeat constructor. discriminate.
  - repeat constructor.
  - repeat constructor; simpl; lra.
  - repeat constructor; try discriminate; lra.
  - simpl. lra.
Defined.

(** X4.  The loss of the parameters a head returns never leaves the finite
    values: for at least one mixture component, pen-lift targets between 0
    and 1 and masks whose sum is not 0, [criterion] applied to the output
    of [output_head] returns a finite number, whatever the projection [y]
    and the offsets of the targets are. *)
Theorem criterion_of_head_is_finite (m : nat) (y : tensor3) (hd : head)
    (x : tensor3) (masks : tensor2) :
  (0 < m)%nat ->
  output_head m y = Ok hd ->
  Forall (Forall (fun pt => 0 <= nth 0 pt 0 <= 1)) x ->
  Rsum (view_rows masks) <> 0 ->
  is_finite (criterion x (e hd) (pi hd) (mu hd) (sigma hd) (rho hd) masks).
Proof.
  intros Hm Hhd Hx Hmasks.
  rewrite criterion_by_rows, criterion_rows_fin;
    [eexists; reflexivity | | exact Hmasks].
  unfold output_head in Hhd.
  destruct (select_last (6 * m) y) as [y_e |] eqn:E; simpl in Hhd;
    [| discriminate Hhd].
  apply select_last_ok in E as [-> Hlen].
  injection Hhd as <-. cbn [e pi mu sigma rho].
  apply Forall_concat in Hlen, Hx.
  rewrite Forall_forall in Hlen, Hx.
  apply Forall_forall. intros [[[[[xi ei] p] u] s] r] Hd.
  apply in_steps in Hd. destruct Hd as (Hxi & Hei & Hp & Hu & Hs & Hr).
  apply in_view_rows_map in Hei as (v & Hv & ->).
  apply in_view_rows_map in Hv as (rowe & Hrowe & ->).
  apply in_view_rows_map in Hp as (rowp & Hrowp & ->).
  apply in_view_rows_map in Hu as (rowu & Hrowu & ->).
  apply in_view_rows_map in Hs as (rows & Hrows & ->).
  apply in_view_rows_map in Hr as (rowr & Hrowr & ->).
  apply Hlen in Hrowp, Hrowu, Hrows, Hrowr.
  apply step_in_range_closed.
  - now apply Hx.
  - match goal with
    | |- 0 <= sigmoid ?v <= 1 => pose proof (sigmoid_range v); lra
    end.
  - apply (nonempty_of_length m); [exact Hm |].
    unfold softmax. rewrite length_map, length_cols; lia.
  - rewrite length_cols; lia.
  - rewrite length_map, length_cols; lia.
  - apply Forall_map_iff, Forall_forall. intros v _.
    pose proof (exp_pos v). cbv beta. lra.
  - apply map_nonempty, (nonempty_of_length m); [exact Hm |].
    rewrite length_cols; lia.
  - apply Forall_map_iff, Forall_forall. intros v _.
    pose proof (tanh_range v). cbv beta. lra.
Qed.

Lemma criterion_of_head_is_finite_witness :
  exists hd,
    output_head 1 [[[0; 0; 0; 0; 0; 0; 0]]] = Ok hd
    /\ is_finite (criterion [[[1; 2; 3]]] (e hd) (pi hd) (mu hd) (sigma hd)
                            (rho hd) [[1]]).
Proof.
  eexists. split; [reflexivity |].
  apply (criterion_of_head_is_finite 1 [[[0; 0; 0; 0; 0; 0; 0]]]).
  - lia.
  - reflexivity.
  - repeat constructor; simpl; lra.
  - simpl. lra.
Defined.

End HeadLossFacts.


(** ** The output head: dimensions and the mixture weights *)

Module HeadShapeFacts.
Import TensorFacts HeadFacts HeadLossFacts.

Local Open Scope string_scope.

Lemma select_last_in_range (i : nat) (y : tensor3) :
  Forall (Forall (fun row => (i < length row)%nat)) y ->
  select_last i y = Ok (map (map (fun row => nth i row 0)) y).
Proof.
  intros Hy. unfold select_last.
  replace (forallb _ y) with true; [reflexivity |].
  symmetry. apply forallb_forall. intros plane Hplane.
  apply forallb_forall. intros row Hrow. apply Nat.ltb_lt.
  rewrite Forall_forall in Hy. specialize (Hy plane Hplane).
  rewrite Forall_forall in Hy. now apply Hy.
Qed.

Lemma dims3_map_rows {A : Type} (T B W k : nat) (f : tensor1 -> list A)
    (y : tensor3) :
  dims3 T B W y ->
  (forall row, length row = W -> length (f row) = k) ->
  dims3 T B k (map (map f) y).
Proof.
  intros [HT Hy] Hf. split; [now rewrite length_map |].
  apply Forall_map_iff. eapply Forall_impl; [| exact Hy].
  intros plane [HB Hplane]. split; [now rewrite length_map |].
  apply Forall_map_iff. eapply Forall_impl; [| exact Hplane].
  intros row Hrow. now apply Hf.
Qed.

Lemma dims2_map_rows {A : Type} (T B W : nat) (f : tensor1 -> A) (y : tensor3) :
  dims3 T B W y -> dims2 T B (map (map f) y).
Proof.
  intros [HT Hy]. split; [now rewrite length_map |].
  apply Forall_map_iff. eapply Forall_impl; [| exact Hy].
  intros plane [HB _]. unfold dims1. now rewrite length_map.
Qed.

Lemma dims2_map_entries {A B : Type} (T N : nat) (f : A -> B)
    (t : list (list A)) :
  dims2 T N t -> dims2 T N (map (map f) t).
Proof.
  intros [HT Ht]. split; [now rewrite length_map |].
  apply Forall_map_iff. eapply Forall_impl; [| exact Ht].
  intros row Hrow. unfold dims1 in *. now rewrite length_map.
Qed.

(** X5.  The dimensions of the head parameters.  From a projection of
    dimensions (T, B, W) with [6 * n_gaussians < W], [output_head] returns
    e of dimensions (T, B), pi and rho of dimensions (T, B, n_gaussians)
    and mu and sigma of dimensions (T, B, 2 * n_gaussians). *)
Theorem output_head_dimensions (m T B W : nat) (y : tensor3) :
  dims3 T B W y -> (6 * m < W)%nat ->
  exists hd,
    output_head m y = Ok hd
    /\ dims2 T B (e hd)
    /\ dims3 T B m (pi hd)
    /\ dims3 T B (2 * m) (mu hd)
    /\ dims3 T B (2 * m) (sigma hd)
    /\ dims3 T B m (rho hd).
Proof.
  intros Hy HW. unfold output_head.
  rewrite select_last_in_range.
  2:{ destruct Hy as [_ Hy]. eapply Forall_impl; [| exact Hy].
      intros plane [_ Hplane]. eapply Forall_impl; [| exact Hplane].
      intros row Hrow. unfold dims1 in Hrow. lia. }
  simpl. eexists. split; [reflexivity |]. cbn [e pi mu sigma rho].
  split; [| split; [| split; [| split]]].
  - apply dims2_map_entries. apply (dims2_map_rows T B W _ y Hy).
  - apply (dims3_map_rows T B W m _ y Hy).
    intros row Hrow. unfold softmax.
    rewrite length_map, length_cols; lia.
  - apply (dims3_map_rows T B W (2 * m) _ y Hy).
    intros row Hrow. rewrite length_cols; lia.
  - apply (dims3_map_rows T B W (2 * m) _ y Hy).
    intros row Hrow. rewrite length_map, length_cols; lia.
  - apply (dims3_map_rows T B W m _ y Hy).
    intros row Hrow. rewrite length_map, length_cols; lia.
Qed.

Lemma output_head_dimensions_witness :
  exists hd,
    output_head 1 [[[0; 0; 0; 0; 0; 0; 0]; [1; 2; 3; 4; 5; 6; 7]]] = Ok hd
    /\ dims2 1 2 (e hd)
    /\ dims3 1 2 1 (pi hd)
    /\ dims3 1 2 (2 * 1) (mu hd)
    /\ dims3 1 2 (2 * 1) (sigma hd)
    /\ dims3 1 2 1 (rho hd).
Proof.
  apply (output_head_dimensions 1 1 2 7).
  - repeat constructor.
  - lia.
Defined.

Lemma exp_le_Rsum_exp (v : R) (row : tensor1) :
  In v row -> exp v <= Rsum (map exp row).
Proof.
  assert (H0 : forall l, 0 <= Rsum (map exp l)).
  { induction l as [| w l IH]; simpl; [lra |].
    pose proof (exp_pos w). lra. }
  induction row as [| w row IH]; intros Hin; [destruct Hin |].
  simpl. destruct Hin as [-> | Hin].
  - specialize (H0 row). lra.
  - specialize (IH Hin). pose proof (exp_pos w). lra.
Qed.

Lemma softmax_in_unit_interval (row : tensor1) :
  Forall (fun p => 0 < p <= 1) (softmax row).
Proof.
  unfold softmax. apply Forall_map_iff, Forall_forall. intros v Hv.
  pose proof (exp_le_Rsum_exp v row Hv) as Hle.
  pose proof (exp_pos v) as Hpos.
  split.
  - apply Rdiv_lt_0_compat; lra.
  - apply Rmult_le_reg_r with (Rsum (map exp row)); [lra |].
    unfold Rdiv. rewrite Rmult_assoc, Rinv_l by lra. lra.
Qed.

(** X6.  Every mixture weight a head returns lies in the closed interval
    from 0 to 1. *)
Theorem mixture_weights_in_unit_interval (m : nat) (y : tensor3) (hd : head) :
  output_head m y = Ok hd ->
  Forall (Forall (Forall (fun p => 0 <= p <= 1))) (pi hd).
Proof.
  unfold output_head.
  destruct (select_last (6 * m) y) as [v | ex]; [| discriminate].
  simpl. intros [= <-]. cbn [pi].
  apply Forall_map_iff, Forall_forall. intros plane _.
  apply Forall_map_iff, Forall_forall. intros row _.
  eapply Forall_impl; [| apply softmax_in_unit_interval].
  cbv beta. intros p Hp. lra.
Qed.

Lemma mixture_weights_in_unit_interval_witness :
  exists hd,
    output_head 2 [[[0; 1; 0; 0; 0; 0; 0; 0; 0; 0; 0; 0; 0]]] = Ok hd
    /\ Forall (Forall (Forall (fun p => 0 <= p <= 1))) (pi hd).
Proof.
  eexists. split; [reflexivity |].
  apply (mixture_weights_in_unit_interval
           2 [[[0; 1; 0; 0; 0; 0; 0; 0; 0; 0; 0; 0; 0]]]).
  reflexivity.
Defined.

End HeadShapeFacts.


(** ** The forward passes: states, errors and the window position *)

Module ForwardStateFacts.
Import TensorFacts HeadFacts ForwardFacts KappaFacts.

Local Open Scope string_scope.

Lemma uncond_later_layers_length (layers : list lstm) (i : nat)
    (inp prev : tensor3) (sts : option (list lstm_state))
    (rest : list (tensor3 * lstm_state)) :
  HandWritingRNN.later_layers layers i inp prev sts = Ok rest ->
  length rest = length layers.
Proof.
  revert i prev rest.
  induction layers as [| rnn layers IH]; intros i prev rest H.
  - injection H as <-. reflexivity.
  - cbn [HandWritingRNN.later_layers] in H. invert_bind H.
    injection H as <-. simpl. f_equal. eapply IH. eassumption.
Qed.

Lemma synth_later_layers_length (layers : list lstm) (i : nat)
    (inp window prev : tensor3) (sts : option HandWritingSynthRNN.states)
    (rest : list (tensor3 * lstm_state)) :
  HandWritingSynthRNN.later_layers layers i inp window prev sts = Ok rest ->
  length rest = length layers.
Proof.
  revert i prev rest.
  induction layers as [| rnn layers IH]; intros i prev rest H.
  - injection H as <-. reflexivity.
  - cbn [HandWritingSynthRNN.later_layers] in H. invert_bind H.
    injection H as <-. simpl. f_equal. eapply IH. eassumption.
Qed.

(** X7.  A forward pass that returns, returns one state per recurrent
    layer: [lstm_out_states] has [num_layers] entries for the
    unconditional network, and the state of the first cell followed by
    one entry per later layer for the conditional one.  The states a pass
    returns can therefore be passed to the next pass. *)
Theorem forward_returns_one_state_per_layer :
  (forall (self : HandWritingRNN.t) (inp : tensor3)
          (lstm_in_states : option (list lstm_state))
          (hd : head) (out_states : list lstm_state),
      HandWritingRNN.forward self inp lstm_in_states = Ok (hd, out_states) ->
      length out_states = length (HandWritingRNN.rnns self))
  /\ (forall (self : HandWritingSynthRNN.t) (inp c_seq : tensor3)
             (lstm_in_states : option HandWritingSynthRNN.states)
             (prev_window : option tensor2)
             (prev_kappa : HandWritingSynthRNN.kappa_t)
             (out : HandWritingSynthRNN.output),
         HandWritingSynthRNN.forward self inp c_seq lstm_in_states
                                     prev_window prev_kappa = Ok out ->
         length (snd (HandWritingSynthRNN.lstm_out_states out))
         = length (HandWritingSynthRNN.rnns self)).
Proof.
  split.
  - intros self inp sts hd out_states H.
    unfold HandWritingRNN.forward in H. invert_bind H.
    injection H as _ <-.
    match goal with
    | E : HandWritingRNN.later_layers _ _ _ _ _ = Ok _ |- _ =>
        apply uncond_later_layers_length in E; rename E into Hlen
    end.
    unfold getitem in *.
    destruct (HandWritingRNN.rnns self) as [| rnn0 rnns]; [discriminate |].
    simpl in *. rewrite length_map. now f_equal.
  - intros self inp c_seq sts w k out H.
    unfold HandWritingSynthRNN.forward in H.
    destruct (HandWritingSynthRNN.loop _ _ _ _) as [h c pw pk fo wl].
    invert_bind H. injection H as <-.
    cbn [HandWritingSynthRNN.lstm_out_states snd].
    rewrite length_map. eapply synth_later_layers_length. eassumption.
Qed.

Lemma forward_returns_one_state_per_layer_witness :
  (exists hd out_states,
      HandWritingRNN.forward Tiny.uncond [[[0; 0; 0]]] None
      = Ok (hd, out_states)
      /\ length out_states = length (HandWritingRNN.rnns Tiny.uncond))
  /\ (exists out,
         HandWritingSynthRNN.forward Tiny.synth [[[0; 0; 0]]]
           [[[1; 0]; [0; 1]]] None None (HandWritingSynthRNN.KScalar 0)
         = Ok out
         /\ length (snd (HandWritingSynthRNN.lstm_out_states out))
            = length (HandWritingSynthRNN.rnns Tiny.synth)).
Proof.
  split.
  - eexists. eexists. split; [reflexivity |].
    eapply (proj1 forward_returns_one_state_per_layer Tiny.uncond
                  [[[0; 0; 0]]] None).
    reflexivity.
  - eexists. split; [reflexivity |].
    apply (proj2 forward_returns_one_state_per_layer Tiny.synth [[[0; 0; 0]]]
                 [[[1; 0]; [0; 1]]] None None (HandWritingSynthRNN.KScalar 0)).
    reflexivity.
Defined.

Lemma uncond_later_layers_short (layers : list lstm) (i : nat)
    (inp prev : tensor3) (sts : list lstm_state) :
  (i + 1 <= length sts)%nat -> (length sts < i + 1 + length layers)%nat ->
  HandWritingRNN.later_layers layers i inp prev (Some sts)
  = Raise (IndexError "list index out of range").
Proof.
  revert i prev.
  induction layers as [| rnn layers IH]; intros i prev Hlo Hhi.
  - simpl in Hhi. lia.
  - cbn [HandWritingRNN.later_layers HandWritingRNN.in_state].
    unfold getitem.
    destruct (nth_error sts (i + 1)) as [s |] eqn:E; [| reflexivity].
    simpl.
    assert (Hi : (i + 1 < length sts)%nat).
    { apply nth_error_Some. congruence. }
    rewrite IH; [reflexivity | lia | simpl in Hhi; lia].
Qed.

(** X8.  The unconditional forward pass raises IndexError when it is given
    fewer states than the network has layers: the missing state is read
    as [lstm_in_states[i + 1]] (or [lstm_in_states[0]]) before any
    output is computed. *)
Theorem forward_raises_on_missing_states (self : HandWritingRNN.t)
    (inp : tensor3) (sts : list lstm_state) :
  (length sts < length (HandWritingRNN.rnns self))%nat ->
  exists msg,
    HandWritingRNN.forward self inp (Some sts) = Raise (IndexError msg).
Proof.
  intros Hlen. exists "list index out of range". unfold HandWritingRNN.forward.
  destruct (HandWritingRNN.rnns self) as [| rnn0 rnns]; [reflexivity |].
  cbn [getitem nth_error bind HandWritingRNN.in_state tl].
  unfold getitem.
  destruct sts as [| s0 sts]; [reflexivity |].
  cbn [nth_error bind].
  rewrite uncond_later_layers_short; [reflexivity | simpl; lia |].
  simpl in *. lia.
Qed.

Lemma forward_raises_on_missing_states_witness :
  exists msg,
    HandWritingRNN.forward Tiny.uncond [[[0; 0; 0]]] (Some [])
    = Raise (IndexError msg).
Proof.
  apply forward_raises_on_missing_states. simpl. lia.
Defined.

End ForwardStateFacts.


(** ** The conditional forward pass over a whole sequence *)

Module SynthForwardFacts.
Import HandWritingSynthRNN TensorFacts HeadFacts ForwardFacts KappaFacts.

Local Open Scope string_scope.

Lemma step_lists (self : t) (c_seq : tensor3) (st : loop_state) (x : tensor2) :
  length (first_rnn_out (step self c_seq st x)) = S (length (first_rnn_out st))
  /\ length (window_list (step self c_seq st x)) = S (length (window_list st))
  /\ exists kappa, prev_kappa (step self c_seq st x) = KTensor kappa.
Proof.
  unfold step.
  destruct (first_rnn self _ _) as [h' c'].
  destruct (soft_window self c_seq h' (prev_kappa st)) as [[phi w] kappa].
  cbn [first_rnn_out window_list prev_kappa].
  rewrite !length_app. simpl. repeat split; try lia. now exists kappa.
Qed.

Lemma loop_lists (self : t) (c_seq : tensor3) (inp : tensor3) (st : loop_state) :
  length (first_rnn_out (loop self c_seq st inp))
  = (length (first_rnn_out st) + length inp)%nat
  /\ length (window_list (loop self c_seq st inp))
     = (length (window_list st) + length inp)%nat.
Proof.
  revert st. unfold loop.
  induction inp as [| x inp IH]; intros st; simpl; [lia |].
  destruct (IH (step self c_seq st x)) as [-> ->].
  destruct (step_lists self c_seq st x) as (-> & -> & _). lia.
Qed.








End SynthForwardFacts.


(** ** The soft window and the padding of the character sequences *)

Module PaddingFacts.
Import HandWritingSynthRNN TensorFacts HeadFacts KappaFacts WindowFacts.

















End PaddingFacts.


(** ** The sign of the window weights *)

Module WindowSignFacts.
Import HandWritingSynthRNN TensorFacts HeadFacts KappaFacts WindowFacts
       HeadLossFacts PaddingFacts.






Lemma Forall_map2 {A B C : Type} (PA : A -> Prop) (PB : B -> Prop)
    (Q : C -> Prop) (f : A -> B -> C) (l : list A) (l' : list B) :
  (forall a b, PA a -> PB b -> Q (f a b)) ->
  Forall PA l -> Forall PB l' -> Forall Q (map2 f l l').
Proof.
  intros Hf Hl. revert l'.
  induction Hl as [| a l Ha _ IH]; intros [| b l'] Hl';
    cbn [map2]; try constructor.
  - inversion Hl'; subst. now apply Hf.
  - inversion Hl'; subst. now apply IH.
Qed.



End WindowSignFacts.


(** ** Generation: the calls of a run and the sample buffer *)

Module TraceFacts.
Import PyCall Sampler Generation Trace TensorFacts.

Local Open Scope string_scope.

Lemma gbind_ok_inv {rng A B : Type} (c : gen rng A) (k : A -> gen rng B)
    (g g2 : rng) (b : B) (evs : list event) :
  gbind c k g = (Ok b, g2, evs) ->
  exists a g1 evs1 evs2,
    c g = (Ok a, g1, evs1) /\ k a g1 = (Ok b, g2, evs2)
    /\ evs = (evs1 ++ evs2)%list.
Proof.
  unfold gbind. destruct (c g) as [[[a | ex] g1] evs1]; [| discriminate].
  destruct (k a g1) as [[r g2'] evs2] eqn:E. intros [= -> -> <-].
  now exists a, g1, evs1, evs2.
Qed.

Lemma lift_ok_inv {rng A : Type} (r : result A) (g g1 : rng) (a : A)
    (evs : list event) :
  lift r g = (Ok a, g1, evs) -> evs = [].
Proof. unfold lift. now intros [= _ _ <-]. Qed.

Lemma draw_inv {rng A : Type} (ev : event) (sample : rng -> A * rng)
    (g g1 : rng) (r : result A) (evs : list event) :
  draw ev sample g = (r, g1, evs) -> evs = [ev].
Proof. unfold draw. destruct (sample g). now intros [= _ _ <-]. Qed.

(** A sampling step that returns has drawn exactly three times, in the
    order Bernoulli, Categorical, MultivariateNormal. *)
Lemma sample_point_calls {rng : Type} (sm : samplers rng) (batch m : nat)
    (hd : head) (g g1 : rng) (pt : tensor1 * tensor2) (evs : list event) :
  sample_point sm batch m hd g = (Ok pt, g1, evs) ->
  map kind evs = [CBernoulli; CCategorical; CMultivariateNormal].
Proof.
  unfold sample_point. intros H.
  apply gbind_ok_inv in H as (lb & ga & e1 & r1 & H1 & H & ->).
  apply draw_inv in H1 as ->.
  apply gbind_ok_inv in H as (ks & gb & e2 & r2 & H2 & H & ->).
  apply draw_inv in H2 as ->.
  apply gbind_ok_inv in H as (mu & gc & e3 & r3 & H3 & H & ->).
  apply lift_ok_inv in H3 as ->.
  apply gbind_ok_inv in H as (sg & gd & e4 & r4 & H4 & H & ->).
  apply lift_ok_inv in H4 as ->.
  apply gbind_ok_inv in H as (rh & ge & e5 & r5 & H5 & H & ->).
  apply lift_ok_inv in H5 as ->.
  apply gbind_ok_inv in H as (cv & gf & e6 & r6 & H6 & H & ->).
  apply lift_ok_inv in H6 as ->.
  apply gbind_ok_inv in H as (lc & gg & e7 & r7 & H7 & H & ->).
  apply lift_ok_inv in H7 as ->.
  apply gbind_ok_inv in H as (xy & gh & e8 & r8 & H8 & H & ->).
  apply draw_inv in H8 as ->.
  unfold ret in H. injection H as _ _ <-. reflexivity.
Qed.

Lemma uncond_step_calls {rng : Type} (sm : samplers rng)
    (self : HandWritingRNN.t) (batch i : nat)
    (st : tensor3 * option (list lstm_state)) (g : rng)
    (st' : tensor3 * option (list lstm_state)) (g1 : rng)
    (evs : list event) :
  uncond_step sm self batch i st g = (Ok st', g1, evs) ->
  map kind evs = step_calls.
Proof.
  unfold uncond_step. destruct st as [samples sts]. intros H.
  apply gbind_ok_inv in H as (u & ga & e1 & r1 & H1 & H & ->).
  unfold log in H1. injection H1 as _ _ <-.
  apply gbind_ok_inv in H as (out & gb & e2 & r2 & H2 & H & ->).
  apply lift_ok_inv in H2 as ->.
  apply gbind_ok_inv in H as (pt & gc & e3 & r3 & H3 & H & ->).
  apply sample_point_calls in H3.
  unfold ret in H. injection H as _ _ <-.
  cbn [app map kind]. rewrite app_nil_r, H3. reflexivity.
Qed.

Lemma synth_step_calls {rng : Type} (sm : samplers rng)
    (self : HandWritingSynthRNN.t) (c_seq : tensor3) (batch i : nat)
    (st : synth_state) (g : rng) (st' : synth_state) (g1 : rng)
    (evs : list event) :
  synth_step sm self c_seq batch i st g = (Ok st', g1, evs) ->
  map kind evs = step_calls.
Proof.
  unfold synth_step. destruct st as [[[samples sts] w] k]. intros H.
  apply gbind_ok_inv in H as (u & ga & e1 & r1 & H1 & H & ->).
  unfold log in H1. injection H1 as _ _ <-.
  apply gbind_ok_inv in H as (out & gb & e2 & r2 & H2 & H & ->).
  apply lift_ok_inv in H2 as ->.
  apply gbind_ok_inv in H as (pt & gc & e3 & r3 & H3 & H & ->).
  apply sample_point_calls in H3.
  unfold ret in H. injection H as _ _ <-.
  cbn [app map kind]. rewrite app_nil_r, H3. reflexivity.
Qed.

Lemma for_each_calls {rng St : Type} (pattern : list call)
    (indices : list nat) (body : nat -> St -> gen rng St) :
  (forall i st g st' g' evs,
      body i st g = (Ok st', g', evs) -> map kind evs = pattern) ->
  forall st g st' g' evs,
    for_each indices body st g = (Ok st', g', evs) ->
    map kind evs = concat (repeat pattern (length indices)).
Proof.
  intros Hbody.
  induction indices as [| i indices IH]; intros st g st' g' evs H.
  - unfold for_each, ret in H. injection H as _ _ <-. reflexivity.
  - cbn [for_each] in H.
    apply gbind_ok_inv in H as (st1 & g1 & e1 & e2 & H1 & H2 & ->).
    rewrite map_app, (Hbody _ _ _ _ _ _ H1), (IH _ _ _ _ _ H2).
    reflexivity.
Qed.

(** X12.  The calls of a generation run.  A run of either [generate] method
    that returns has made, for each of its steps in turn, one forward
    pass followed by one draw from the Bernoulli, one from the
    Categorical and one from the MultivariateNormal distribution, and
    nothing else: [length] steps for the unconditional network, 600 for
    the conditional one. *)
Theorem generate_calls_per_step {rng : Type} (sm : samplers rng) (g : rng) :
  (forall (self : HandWritingRNN.t) (length batch : nat) (samples : tensor3),
      outcome (uncond_generate sm self length batch g) = Ok samples ->
      map kind (events (uncond_generate sm self length batch g))
      = concat (repeat [CForward; CBernoulli; CCategorical;
                        CMultivariateNormal] length))
  /\ (forall (memory : nat -> nat -> nat -> R) (self : HandWritingSynthRNN.t)
             (sentences : list tensor2) (samples : tensor3),
         outcome (synth_generate sm memory self sentences g) = Ok samples ->
         map kind (events (synth_generate sm memory self sentences g))
         = concat (repeat [CForward; CBernoulli; CCategorical;
                           CMultivariateNormal] 600)).
Proof.
  split.
  - intros self n batch samples H.
    destruct (uncond_generate sm self n batch g) as [[r g'] evs] eqn:E.
    unfold outcome, events in *. cbn [fst snd] in *. subst r.
    unfold uncond_generate in E.
    apply gbind_ok_inv in E as (st & g1 & e1 & e2 & H1 & H2 & ->).
    unfold ret in H2. injection H2 as _ _ <-. rewrite app_nil_r.
    rewrite (for_each_calls step_calls _ _ (uncond_step_calls sm self batch)
               _ _ _ _ _ H1).
    now rewrite length_seq.
  - intros memory self sentences samples H.
    destruct (synth_generate sm memory self sentences g) as [[r g'] evs] eqn:E.
    unfold outcome, events in *. cbn [fst snd] in *. subst r.
    unfold synth_generate in E.
    apply gbind_ok_inv in E as (c_seq & g0 & e0 & e0' & H0 & E & ->).
    apply lift_ok_inv in H0 as ->.
    apply gbind_ok_inv in E as (st & g1 & e1 & e2 & H1 & H2 & ->).
    unfold ret in H2. injection H2 as _ _ <-. rewrite app_nil_r.
    cbn [app].
    rewrite (for_each_calls step_calls _ _
               (synth_step_calls sm self c_seq (length c_seq))
               _ _ _ _ _ H1).
    now rewrite length_seq.
Qed.

Lemma generate_calls_per_step_witness :
  (exists samples,
      outcome (uncond_generate mode_samplers Tiny.uncond 2 2 tt) = Ok samples
      /\ map kind (events (uncond_generate mode_samplers Tiny.uncond 2 2 tt))
         = concat (repeat [CForward; CBernoulli; CCategorical;
                           CMultivariateNormal] 2))
  /\ (exists samples,
         outcome (synth_generate mode_samplers (fun _ _ _ => 0) Tiny.synth
                                 [[[1; 0]]; [[0; 1]]] tt) = Ok samples
         /\ map kind (events (synth_generate mode_samplers (fun _ _ _ => 0)
                                             Tiny.synth
                                             [[[1; 0]]; [[0; 1]]] tt))
            = concat (repeat [CForward; CBernoulli; CCategorical;
                              CMultivariateNormal] 600)).
Proof.
  split.
  - eexists. split; [vm_compute; reflexivity |].
    eapply (proj1 (generate_calls_per_step mode_samplers tt) Tiny.uncond
                  2%nat 2%nat).
    vm_compute. reflexivity.
  - eexists. split; [vm_compute; reflexivity |].
    eapply (proj2 (generate_calls_per_step mode_samplers tt)
                  (fun _ _ _ => 0) Tiny.synth [[[1; 0]]; [[0; 1]]]).
    vm_compute. reflexivity.
Defined.

End TraceFacts.

(** ** Generation: the sample buffer *)

Module SampleBufferFacts.
Import PyCall Sampler Generation TensorFacts.

Lemma map3_ignore_first {A B C D : Type} (f : B -> C -> D)
    (l : list A) (l' : list B) (l'' : list C) :
  length l = length l' -> length l'' = length l' ->
  map3 (fun _ b c => f b c) l l' l'' = map2 f l' l''.
Proof.
  revert l' l''.
  induction l as [| a l IH]; intros [| b l'] [| c l''] H1 H2;
    simpl in *; try lia; [reflexivity |].
  f_equal. apply IH; lia.
Qed.

(** X13.  The point written at step [i] is the input of step [i + 1],
    and nothing else changes.  After [samples[i, :, 0] = lift_bits] and
    [samples[i, :, 1:] = offsets] on a buffer with [batch] rows per step,
    the slice [samples[i : i + 1]] that the next step feeds to the
    network holds exactly the sampled points, whatever the buffer held
    before, and every other time step of the buffer is unchanged. *)
Theorem written_point_is_next_input (samples : tensor3) (i : nat)
    (lift_bits : tensor1) (offsets : tensor2) :
  (i < length samples)%nat ->
  length (nth i samples []) = length lift_bits ->
  length offsets = length lift_bits ->
  slice (S i - 1) (S i) (write_point samples i lift_bits offsets)
  = [map2 cons lift_bits offsets]
  /\ (forall j, j <> i ->
        nth j (write_point samples i lift_bits offsets) [] = nth j samples []).
Proof.
  intros Hi Hrow Hoff. unfold write_point, slice.
  rewrite (map3_ignore_first cons) by assumption.
  assert (Hlen : length (firstn i samples) = i)
    by (rewrite length_firstn; lia).
  split.
  - replace (S i - 1)%nat with i by lia.
    replace (S i - i)%nat with 1%nat by lia.
    rewrite skipn_app, Hlen, Nat.sub_diag.
    rewrite skipn_all2 by lia. reflexivity.
  - intros j Hj.
    destruct (Nat.lt_ge_cases j i) as [Hlt | Hge].
    + rewrite app_nth1 by lia. now apply WindowFacts.nth_firstn_lt.
    + rewrite app_nth2 by lia. rewrite Hlen.
      destruct (j - i)%nat as [| d] eqn:Hd; [lia |].
      cbn [nth]. rewrite nth_skipn. f_equal. lia.
Qed.

Lemma written_point_is_next_input_witness :
  slice (S 1 - 1) (S 1)
        (write_point [[[0; 0; 0]; [0; 0; 0]]; [[7; 8; 9]; [4; 5; 6]]] 1
                     [1; 0] [[2; 3]; [-1; -2]])
  = [map2 cons [1; 0] [[2; 3]; [-1; -2]]]
  /\ (forall j, j <> 1%nat ->
        nth j (write_point [[[0; 0; 0]; [0; 0; 0]]; [[7; 8; 9]; [4; 5; 6]]] 1
                           [1; 0] [[2; 3]; [-1; -2]]) []
        = nth j [[[0; 0; 0]; [0; 0; 0]]; [[7; 8; 9]; [4; 5; 6]]] []).
Proof.
  apply written_point_is_next_input.
  - simpl. lia.
  - reflexivity.
  - reflexivity.
Defined.

Lemma uncond_generate_first_input_witness :
  exists rest,
    events (uncond_generate mode_samplers Tiny.uncond 2 2 tt)
    = Forward [repeat [0; 0; 0] 2] :: rest.
Proof.
  apply (GenerationFacts.uncond_generate_first_input
           mode_samplers Tiny.uncond 2 2 tt).
  lia.
Defined.

Lemma uncond_generate_length_witness :
  exists samples,
    outcome (uncond_generate mode_samplers Tiny.uncond 2 2 tt) = Ok samples
    /\ length samples = 2%nat.
Proof.
  eexists. split; [vm_compute; reflexivity |].
  eapply (GenerationFacts.uncond_generate_length
            mode_samplers Tiny.uncond 2 2 tt).
  vm_compute. reflexivity.
Defined.

Lemma synth_generate_length_witness :
  exists samples,
    outcome (synth_generate mode_samplers (fun _ _ _ => 0) Tiny.synth
                            [[[1; 0]]; [[0; 1]]] tt) = Ok samples
    /\ length samples = 600%nat.
Proof.
  eexists. split; [vm_compute; reflexivity |].
  eapply (GenerationFacts.synth_generate_length
            mode_samplers (fun _ _ _ => 0) Tiny.synth
            [[[1; 0]]; [[0; 1]]] tt).
  vm_compute. reflexivity.
Defined.


End SampleBufferFacts.

(** ** Generation: the covariance matrices *)

Module CovarianceFacts.
Import PyCall Sampler Generation TensorFacts.

Local Open Scope string_scope.

Lemma select_col_of_tensor2 (t : tensor2) (j : nat) (col : tensor1) :
  select_col (of_tensor2 t) j = Ok col ->
  col = map (fun row => nth j row 0) t
  /\ Forall (fun row => (j < length row)%nat) t.
Proof.
  unfold select_col, of_tensor2.
  rewrite (MaskArgumentFacts.all_some_map_Some of_tensor1 as_tensor1)
    by apply MaskArgumentFacts.as_of_tensor1.
  destruct (forallb _ t) eqn:E; [| discriminate].
  intros [= <-]. split; [reflexivity |].
  apply Forall_forall. intros row Hrow.
  rewrite forallb_forall in E. now apply Nat.ltb_lt, E.
Qed.

Lemma covariance_rows (sigma : tensor2) (rho : tensor1) :
  map3 (fun a b c => [[a; c]; [c; b]])
       (map (fun s => s ^ 2) (map (fun row => nth 0 row 0) sigma))
       (map (fun s => s ^ 2) (map (fun row => nth 1 row 0) sigma))
       (map3 (fun r a b => r * a * b) rho
             (map (fun row => nth 0 row 0) sigma)
             (map (fun row => nth 1 row 0) sigma))
  = map2 (fun row r =>
            let sx := nth 0 row 0 in
            let sy := nth 1 row 0 in
            [[sx ^ 2; r * sx * sy]; [r * sx * sy; sy ^ 2]])
         sigma rho.
Proof.
  revert rho.
  induction sigma as [| row sigma IH]; intros [| r rho]; try reflexivity.
  cbn [map map3 map2]. now rewrite IH.
Qed.

(** X14.  The covariance matrices handed to the MultivariateNormal are
    symmetric and positive definite.  From standard deviations that are
    positive and correlations strictly between -1 and 1 (what the output
    head returns), every matrix [sigma2d[b]] that [generate] builds is
    [[a, c], [c, b]] with a > 0, b > 0 and a positive determinant
    a b - c^2. *)
Theorem covariance_is_positive_definite (sigma : tensor2) (rho : tensor1)
    (sigma2d : tensor3) :
  covariance (of_tensor2 sigma) (of_tensor1 rho) = Ok sigma2d ->
  Forall (Forall (fun s => 0 < s)) sigma ->
  Forall (fun r => -1 < r < 1) rho ->
  Forall (fun mat => exists a b c,
              mat = [[a; c]; [c; b]] /\ 0 < a /\ 0 < b /\ 0 < a * b - c * c)
         sigma2d.
Proof.
  unfold covariance. intros H Hs Hr.
  destruct (select_col (of_tensor2 sigma) 0) as [s0 |] eqn:E0;
    [| discriminate H].
  destruct (select_col (of_tensor2 sigma) 1) as [s1 |] eqn:E1;
    [| discriminate H].
  apply select_col_of_tensor2 in E0 as [-> _].
  apply select_col_of_tensor2 in E1 as [-> Hlen].
  unfold select_all in H. rewrite MaskArgumentFacts.as_of_tensor1 in H.
  cbn [bind] in H. injection H as <-.
  rewrite covariance_rows.
  apply (WindowSignFacts.Forall_map2
           (fun row : tensor1 => 0 < nth 0 row 0 /\ 0 < nth 1 row 0)
           (fun r => -1 < r < 1)).
  - intros row r [Hx Hy] Hrr. cbv zeta.
    set (sx := nth 0 row 0) in *. set (sy := nth 1 row 0) in *.
    exists (sx ^ 2), (sy ^ 2), (r * sx * sy).
    split; [reflexivity |].
    assert (Hp : 0 < sx * sy) by now apply Rmult_lt_0_compat.
    assert (Hr2 : r * r < 1) by nra.
    repeat split; try nra.
    replace (sx ^ 2 * sy ^ 2 - r * sx * sy * (r * sx * sy))
      with ((1 - r * r) * ((sx * sy) * (sx * sy))) by ring.
    apply Rmult_lt_0_compat; [lra | now apply Rmult_lt_0_compat].
  - eapply Forall_impl; [| exact (Forall_and Hs Hlen)].
    intros row [Hrow Hl]. rewrite Forall_forall in Hrow.
    split; apply Hrow, nth_In; lia.
  - exact Hr.
Qed.

Lemma covariance_is_positive_definite_witness :
  exists sigma2d,
    covariance (of_tensor2 [[1; 2]; [3; 1]]) (of_tensor1 [0; 1 / 2])
    = Ok sigma2d
    /\ Forall (fun mat => exists a b c,
                   mat = [[a; c]; [c; b]]
                   /\ 0 < a /\ 0 < b /\ 0 < a * b - c * c)
              sigma2d.
Proof.
  eexists. split; [reflexivity |].
  apply (covariance_is_positive_definite [[1; 2]; [3; 1]] [0; 1 / 2]).
  - reflexivity.
  - repeat constructor; lra.
  - repeat constructor; lra.
Defined.

End CovarianceFacts.


(** ** The dataset: padding and masks *)

Module DataFacts.
Import HandWritingData DataSpec Generation TensorFacts.

Local Open Scope string_scope.

(** The length of the longest sequence. *)
Lemma longest_ge (seqs : list tensor2) (s : tensor2) :
  In s seqs -> (length s <= longest seqs)%nat.
Proof.
  unfold longest. induction seqs as [| s' seqs IH]; intros Hin; [destruct Hin |].
  simpl. destruct Hin as [-> | Hin]; [lia |].
  specialize (IH Hin). lia.
Qed.

Lemma pad_sequence_rows (seqs : list tensor2) (padded : tensor3) :
  pad_sequence seqs = Ok padded ->
  let T := longest seqs in
  let width := length (hd [] (hd [] seqs)) in
  seqs <> []
  /\ padded = map (fun s => s ++ repeat (repeat 0 width) (T - length s))%list
                  seqs
  /\ shape1 padded = T.
Proof.
  intros H T width. unfold pad_sequence in H.
  destruct seqs as [| first rest]; [discriminate |].
  injection H as <-. fold T. split; [discriminate |]. split; [reflexivity |].
  pose proof (longest_ge (first :: rest) first (or_introl eq_refl)) as Hle.
  subst T. unfold shape1, longest in *. cbn [map hd fold_right] in Hle |- *.
  rewrite length_app, repeat_length. lia.
Qed.

Lemma length_set_row (masks : tensor2) (i : nat) (row : tensor1) :
  (i < length masks)%nat -> length (set_row masks i row) = length masks.
Proof.
  intros Hi. unfold set_row.
  rewrite length_app, length_firstn. cbn [length]. rewrite length_skipn. lia.
Qed.

Lemma nth_set_row (masks : tensor2) (i j : nat) (row : tensor1) :
  (i < length masks)%nat ->
  nth j (set_row masks i row) []
  = if (j =? i)%nat then row else nth j masks [].
Proof.
  intros Hi. unfold set_row.
  assert (Hlen : length (firstn i masks) = i) by (rewrite length_firstn; lia).
  destruct (Nat.eqb_spec j i) as [-> | Hne].
  - rewrite app_nth2 by lia. now rewrite Hlen, Nat.sub_diag.
  - destruct (Nat.lt_ge_cases j i) as [Hlt | Hge].
    + rewrite app_nth1 by lia. now apply WindowFacts.nth_firstn_lt.
    + rewrite app_nth2 by lia. rewrite Hlen.
      destruct (j - i)%nat as [| d] eqn:Hd; [lia |].
      cbn [nth]. rewrite nth_skipn. f_equal. lia.
Qed.

(** The loop over the sequences marks row [i + k] for the k-th sequence
    and leaves the other rows as they are; it raises only when it runs
    past the last row. *)
Lemma mark_rows_spec (seqs : list tensor2) (masks : tensor2) (i : nat) :
  (i + length seqs <= length masks)%nat ->
  exists marked,
    mark_rows masks i seqs = Ok marked
    /\ length marked = length masks
    /\ forall j,
         nth j marked []
         = if ((i <=? j) && (j <? i + length seqs))%nat%bool
           then set_prefix (length (nth (j - i) seqs [])) (nth j masks [])
           else nth j masks [].
Proof.
  revert masks i.
  induction seqs as [| s seqs IH]; intros masks i Hlen.
  - exists masks. split; [reflexivity |]. split; [reflexivity |].
    intros j. simpl.
    destruct (i <=? j)%nat eqn:E1, (j <? i + 0)%nat eqn:E2; try reflexivity.
    apply Nat.leb_le in E1. apply Nat.ltb_lt in E2. lia.
  - cbn [length] in Hlen. cbn [mark_rows]. unfold Py.getitem.
    destruct (nth_error masks i) as [row |] eqn:E.
    2:{ apply nth_error_None in E. lia. }
    cbn [bind].
    assert (Hi : (i < length masks)%nat) by lia.
    destruct (IH (set_row masks i (set_prefix (length s) row)) (S i))
      as (marked & Hm & Hl & Hnth).
    { rewrite length_set_row by exact Hi. lia. }
    exists marked. split; [exact Hm |].
    split; [now rewrite Hl, length_set_row |].
    intros j. rewrite Hnth, nth_set_row by exact Hi.
    assert (Hrow : nth i masks [] = row).
    { apply nth_error_nth with (d := []) in E. exact E. }
    cbn [length].
    destruct (Nat.eqb_spec j i) as [-> | Hne].
    + replace ((S i <=? i) && (i <? S i + length seqs))%nat%bool with false.
      2:{ symmetry. apply andb_false_iff. left. apply Nat.leb_gt. lia. }
      replace ((i <=? i) && (i <? i + S (length seqs)))%nat%bool with true.
      2:{ symmetry. apply andb_true_iff. split;
          [apply Nat.leb_le | apply Nat.ltb_lt]; lia. }
      rewrite Nat.sub_diag, Hrow. reflexivity.
    + destruct (Nat.lt_ge_cases j (S i)) as [Hlt | Hge].
      * replace ((S i <=? j) && (j <? S i + length seqs))%nat%bool with false.
        2:{ symmetry. apply andb_false_iff. left. apply Nat.leb_gt. lia. }
        replace ((i <=? j) && (j <? i + S (length seqs)))%nat%bool with false.
        2:{ symmetry. apply andb_false_iff. left. apply Nat.leb_gt. lia. }
        reflexivity.
      * replace (j - i)%nat with (S (j - S i)) by lia. cbn [nth].
        replace (i <=? j)%nat with true by (symmetry; apply Nat.leb_le; lia).
        replace (S i <=? j)%nat with true by (symmetry; apply Nat.leb_le; lia).
        replace (j <? i + S (length seqs))%nat
          with (j <? S i + length seqs)%nat by (f_equal; lia).
        reflexivity.
Qed.

Lemma mark_rows_raises (seqs : list tensor2) (masks : tensor2) (i : nat) :
  (length masks < i + length seqs)%nat -> (i <= length masks)%nat ->
  mark_rows masks i seqs = Raise (IndexError "list index out of range").
Proof.
  revert masks i.
  induction seqs as [| s seqs IH]; intros masks i Hlt Hle.
  - simpl in Hlt. lia.
  - cbn [mark_rows]. unfold Py.getitem.
    destruct (nth_error masks i) as [row |] eqn:E; [| reflexivity].
    cbn [bind].
    assert (Hi : (i < length masks)%nat).
    { apply nth_error_Some. congruence. }
    apply IH; rewrite length_set_row by exact Hi; simpl in Hlt; lia.
Qed.

Lemma zeros2_rows (rows width j : nat) :
  length (HandWritingSynthRNN.zeros2 rows width) = rows
  /\ ((j < rows)%nat ->
      nth j (HandWritingSynthRNN.zeros2 rows width) [] = repeat 0 width).
Proof.
  unfold HandWritingSynthRNN.zeros2. split; [apply repeat_length |].
  intros Hj. apply nth_repeat_lt. exact Hj.
Qed.

Lemma set_prefix_zeros (n width : nat) :
  (n <= width)%nat ->
  set_prefix n (repeat 0 width) = (repeat 1 n ++ repeat 0 (width - n))%list.
Proof.
  intros Hn. unfold set_prefix. rewrite repeat_length.
  replace (Nat.min n width) with n by lia. f_equal.
  replace width with (n + (width - n))%nat at 1 by lia.
  rewrite repeat_app, skipn_app, repeat_length, Nat.sub_diag.
  rewrite skipn_all2 by (rewrite repeat_length; lia). reflexivity.
Qed.

(** The masks that [pad_data] builds for a list of sequences. *)
Lemma marked_zeros (seqs : list tensor2) (T : nat) :
  (forall s, In s seqs -> (length s <= T)%nat) ->
  mark_rows (HandWritingSynthRNN.zeros2 (length seqs) T) 0 seqs
  = Ok (map (fun s => repeat 1 (length s) ++ repeat 0 (T - length s))%list
            seqs).
Proof.
  intros HT.
  destruct (mark_rows_spec seqs (HandWritingSynthRNN.zeros2 (length seqs) T) 0)
    as (marked & -> & Hl & Hnth).
  { rewrite (proj1 (zeros2_rows _ _ 0)). lia. }
  f_equal. rewrite (proj1 (zeros2_rows _ _ 0)) in Hl.
  apply (nth_ext _ _ [] []); [now rewrite length_map |].
  intros j Hj. rewrite Hl in Hj. rewrite Hnth.
  replace ((0 <=? j) && (j <? 0 + length seqs))%nat%bool with true.
  2:{ symmetry. apply andb_true_iff. split;
      [apply Nat.leb_le | apply Nat.ltb_lt]; lia. }
  rewrite Nat.sub_0_r, (proj2 (zeros2_rows _ _ j)) by exact Hj.
  rewrite (nth_map_in _ _ j [] []) by exact Hj.
  apply set_prefix_zeros, HT, nth_In. exact Hj.
Qed.

(** What [pad_data] returns for as many sentences as strokes. *)
Lemma pad_data_ok (sentences strokes : list tensor2) :
  length sentences = length strokes -> strokes <> [] ->
  let pad seqs :=
    map (fun s => s ++ repeat (repeat 0 (length (hd [] (hd [] seqs))))
                              (longest seqs - length s))%list seqs in
  let mask seqs :=
    map (fun s => repeat 1 (length s)
                  ++ repeat 0 (longest seqs - length s))%list seqs in
  pad_data (length strokes) sentences strokes
  = Ok (mk (length strokes) sentences (pad strokes) (mask strokes)
           (pad sentences) (mask sentences)
           (longest strokes) (longest sentences)).
Proof.
  intros Hlen Hne pad mask. unfold pad_data.
  destruct (pad_sequence strokes) as [ps |] eqn:Es.
  2:{ destruct strokes; [congruence | discriminate Es]. }
  destruct (pad_sequence sentences) as [pc |] eqn:Ec.
  2:{ destruct sentences; [| discriminate Ec].
      destruct strokes; [congruence | discriminate Hlen]. }
  apply pad_sequence_rows in Es as (_ & -> & Hs).
  apply pad_sequence_rows in Ec as (_ & -> & Hc).
  cbn [bind]. rewrite Hs, Hc.
  rewrite marked_zeros by (intros s; apply longest_ge).
  cbn [bind]. rewrite <- Hlen.
  rewrite marked_zeros by (intros s; apply longest_ge).
  cbn [bind]. rewrite Hlen. reflexivity.
Qed.

(** The lengths of the four tensors of a constructed dataset. *)
Lemma dataset_padding_shapes (sentences strokes : list tensor2) (d : t) :
  init sentences strokes = Constructed d ->
  len d = length strokes
  /\ length (padded_strokes d) = length strokes
  /\ length (masks d) = length strokes
  /\ length (padded_sentences d) = length strokes
  /\ length (sentence_masks d) = length strokes.
Proof.
  unfold init.
  destruct (Nat.eqb_spec (length sentences) (length strokes)) as [Heq | Hne];
    [| discriminate].
  destruct strokes as [| s0 strokes]; [discriminate |].
  rewrite pad_data_ok by (assumption || discriminate).
  intros [= <-].
  cbn [len padded_strokes masks padded_sentences sentence_masks].
  repeat split; simpl; rewrite ?length_map; auto.
Qed.

(** X19.  What the constructor of the dataset does.  It fails its
    assertion exactly when there are not as many sentences as strokes.
    Given as many sentences as strokes, at least one, the strokes all of
    one width and the sentences all of one width, it returns the dataset:
    the loops that write the masks never index past the last row. *)
Theorem dataset_construction_outcome (sentences strokes : list tensor2) :
  (init sentences strokes = AssertionError
   <-> length sentences <> length strokes)
  /\ (length sentences = length strokes -> strokes <> [] ->
      uniform_width strokes -> uniform_width sentences ->
      exists d, init sentences strokes = Constructed d).
Proof.
  unfold init.
  destruct (Nat.eqb_spec (length sentences) (length strokes)) as [Heq | Hne].
  - split.
    + split; [| intros H; now elim H].
      destruct (pad_data _ _ _); discriminate.
    + intros _ Hs _ _. rewrite pad_data_ok by assumption.
      eexists. reflexivity.
  - split.
    + split; [intros _; exact Hne | reflexivity].
    + intros H. now elim Hne.
Qed.

Lemma dataset_construction_outcome_witness :
  exists d,
    init [[[1; 0]]; [[0; 1]; [1; 0]]] [[[0; 0; 0]; [1; 2; 0]]; [[3; 4; 1]]]
    = Constructed d.
Proof.
  apply (proj2 (dataset_construction_outcome
                  [[[1; 0]]; [[0; 1]; [1; 0]]]
                  [[[0; 0; 0]; [1; 2; 0]]; [[3; 4; 1]]])).
  - reflexivity.
  - discriminate.
  - exists 3%nat. repeat constructor.
  - exists 2%nat. repeat constructor.
Defined.




Lemma index0_spec {A : Type} (l : list A) (idx : nat) (d : A) :
  ((idx < length l)%nat -> index0 l idx = Ok (nth idx l d))
  /\ ((length l <= idx)%nat ->
      index0 l idx
      = Raise (IndexError "index is out of bounds for dimension 0")).
Proof.
  unfold index0. split; intros H.
  - destruct (nth_error l idx) as [a |] eqn:E.
    + now rewrite (nth_error_nth _ _ d E).
    + apply nth_error_None in E. lia.
  - apply nth_error_None in H. now rewrite H.
Qed.

(** X21.  The items of a constructed dataset.  [__len__] is the number of
    strokes; for every index below it [__getitem__] returns the padded
    sentence, the padded stroke, the mask of the stroke and the mask of
    the sentence of that index, in this order; for every index from
    [__len__] on it raises IndexError. *)
Theorem dataset_items (sentences strokes : list tensor2) (d : t) (idx : nat) :
  init sentences strokes = Constructed d ->
  __len__ d = length strokes
  /\ ((idx < __len__ d)%nat ->
      __getitem__ d idx
      = Ok (nth idx (padded_sentences d) [], nth idx (padded_strokes d) [],
            nth idx (masks d) [], nth idx (sentence_masks d) []))
  /\ ((__len__ d <= idx)%nat ->
      exists msg, __getitem__ d idx = Raise (IndexError msg)).
Proof.
  intros H.
  assert (Hlen : length sentences = length strokes).
  { unfold init in H.
    destruct (Nat.eqb_spec (length sentences) (length strokes));
      [assumption | discriminate]. }
  destruct (dataset_padding_shapes sentences strokes d H)
    as (Hl & Hps & Hm & Hpc & Hcm).
  unfold __len__, __getitem__. rewrite Hl.
  split; [reflexivity |]. split; intros Hi.
  - rewrite (proj1 (index0_spec (padded_sentences d) idx [])) by lia.
    rewrite (proj1 (index0_spec (padded_strokes d) idx [])) by lia.
    rewrite (proj1 (index0_spec (masks d) idx [])) by lia.
    rewrite (proj1 (index0_spec (sentence_masks d) idx [])) by lia.
    reflexivity.
  - rewrite (proj2 (index0_spec (padded_sentences d) idx [])) by lia.
    eexists. reflexivity.
Qed.

Lemma dataset_items_witness :
  let sentences := [[[1; 0]]; [[0; 1]; [1; 0]]] in
  let strokes := [[[0; 0; 0]; [1; 2; 3]; [0; 4; 5]]; [[0; 0; 0]; [1; 6; 7]]] in
  exists d,
    init sentences strokes = Constructed d
    /\ __len__ d = length strokes
    /\ ((1 < __len__ d)%nat ->
        __getitem__ d 1
        = Ok (nth 1 (padded_sentences d) [], nth 1 (padded_strokes d) [],
              nth 1 (masks d) [], nth 1 (sentence_masks d) []))
    /\ ((__len__ d <= 1)%nat ->
        exists msg, __getitem__ d 1 = Raise (IndexError msg)).
Proof.
  intros sentences strokes. eexists. split; [reflexivity |].
  apply (dataset_items sentences strokes). reflexivity.
Defined.

End DataFacts.


(** ** The masks of the training loop *)

Module LoopMaskFacts.
Import HandWritingData DataSpec LoopTensors TensorFacts DataFacts.

Local Open Scope string_scope.

(** The loss of the unconditional network is [criterion] on the tensors
    of the loop. *)
Lemma uncond_loss_tensors (model : HandWritingRNN.t) (bt : Batch.batch) :
  Batch.uncond_loss model bt
  = (let '(inp_x, targets, masks) := loop_tensors bt in
     out <- HandWritingRNN.forward model inp_x None ;;
     let '(e, log_pi, mu, sigma, rho) := Batch.unpack_outputs (fst out) in
     Ok (Loss.criterion targets e log_pi mu sigma rho masks))%py.
Proof. reflexivity. Qed.









End LoopMaskFacts.


(** ** The training loop: optimizer steps *)

Module TrainLoopFacts.
Import PyCall Construct Train.

Local Open Scope string_scope.




End TrainLoopFacts.


(** ** The loss and the order of its steps *)

Module LossOrderFacts.
Import Loss LossGrid LossFacts XRealFacts TensorFacts.

Lemma steps_zip6 (x : list (list R)) (e : list R)
    (log_pi mu sigma rho : list (list R)) :
  steps x e log_pi mu sigma rho = zip6 x e log_pi mu sigma rho.
Proof.
  revert e log_pi mu sigma rho.
  induction x as [| xi x IH];
    intros [| ei e] [| p log_pi] [| u mu] [| s sigma] [| r rho];
    try reflexivity.
  cbn [steps zip6]. now rewrite IH.
Qed.

Section Zip6.
Context {A B C D E F : Type}.

Lemma length_zip6 (n : nat) (a : list A) (b : list B) (c : list C)
    (d : list D) (e : list E) (f : list F) :
  length a = n -> length b = n -> length c = n -> length d = n ->
  length e = n -> length f = n ->
  length (zip6 a b c d e f) = n.
Proof.
  revert a b c d e f.
  induction n as [| n IH];
    intros [| a0 a] [| b0 b] [| c0 c] [| d0 d] [| e0 e] [| f0 f];
    simpl; intros; try lia.
  f_equal. apply IH; lia.
Qed.

Lemma zip6_app (a a' : list A) (b b' : list B) (c c' : list C)
    (d d' : list D) (e e' : list E) (f f' : list F) :
  length b = length a -> length c = length a -> length d = length a ->
  length e = length a -> length f = length a ->
  zip6 (a ++ a') (b ++ b') (c ++ c') (d ++ d') (e ++ e') (f ++ f')
  = zip6 a b c d e f ++ zip6 a' b' c' d' e' f'.
Proof.
  revert b c d e f.
  induction a as [| a0 a IH];
    intros [| b0 b] [| c0 c] [| d0 d] [| e0 e] [| f0 f];
    simpl; intros; try lia; [reflexivity |].
  f_equal. apply IH; lia.
Qed.

Lemma nth_zip6 (i : nat) (a : list A) (b : list B) (c : list C)
    (d : list D) (e : list E) (f : list F)
    (da : A) (db : B) (dc : C) (dd : D) (de : E) (df : F) :
  (i < length a)%nat -> (i < length b)%nat -> (i < length c)%nat ->
  (i < length d)%nat -> (i < length e)%nat -> (i < length f)%nat ->
  nth i (zip6 a b c d e f) (da, db, dc, dd, de, df)
  = (nth i a da, nth i b db, nth i c dc, nth i d dd, nth i e de, nth i f df).
Proof.
  revert a b c d e f.
  induction i as [| i IH];
    intros [| a0 a] [| b0 b] [| c0 c] [| d0 d] [| e0 e] [| f0 f];
    simpl; intros; try lia; [reflexivity |].
  apply IH; lia.
Qed.

Lemma zip6_permute (n : nat) (p : list nat) (a : list A) (b : list B)
    (c : list C) (d : list D) (e : list E) (f : list F)
    (da : A) (db : B) (dc : C) (dd : D) (de : E) (df : F) :
  Forall (fun i => (i < n)%nat) p ->
  length a = n -> length b = n -> length c = n -> length d = n ->
  length e = n -> length f = n ->
  zip6 (permute da p a) (permute db p b) (permute dc p c)
       (permute dd p d) (permute de p e) (permute df p f)
  = permute (da, db, dc, dd, de, df) p (zip6 a b c d e f).
Proof.
  intros Hp Ha Hb Hc Hd He Hf. unfold permute.
  induction Hp as [| i p Hi _ IH]; [reflexivity |].
  cbn [map zip6]. rewrite IH. f_equal.
  symmetry. apply nth_zip6; lia.
Qed.

End Zip6.

Lemma zip6_map {A B C D E F A' B' C' D' E' F' : Type}
    (fa : A -> A') (fb : B -> B') (fc : C -> C') (fd : D -> D')
    (fe : E -> E') (ff : F -> F')
    (a : list A) (b : list B) (c : list C) (d : list D) (e : list E)
    (f : list F) :
  zip6 (map fa a) (map fb b) (map fc c) (map fd d) (map fe e) (map ff f)
  = map (fun '(a0, b0, c0, d0, e0, f0) =>
           (fa a0, fb b0, fc c0, fd d0, fe e0, ff f0))
        (zip6 a b c d e f).
Proof.
  revert b c d e f.
  induction a as [| a0 a IH];
    intros [| b0 b] [| c0 c] [| d0 d] [| e0 e] [| f0 f]; try reflexivity.
  cbn [map zip6]. now rewrite IH.
Qed.

Lemma combine_app_eq {A B : Type} (a a' : list A) (b b' : list B) :
  length a = length b ->
  combine (a ++ a') (b ++ b') = combine a b ++ combine a' b'.
Proof.
  revert b. induction a as [| a0 a IH]; intros [| b0 b] H;
    simpl in *; try lia; [reflexivity |].
  f_equal. apply IH. lia.
Qed.

Lemma combine_permute {A B : Type} (n : nat) (p : list nat)
    (a : list A) (b : list B) (da : A) (db : B) :
  Forall (fun i => (i < n)%nat) p -> length a = n -> length b = n ->
  combine (permute da p a) (permute db p b) = permute (da, db) p (combine a b).
Proof.
  intros Hp Ha Hb. unfold permute.
  induction Hp as [| i p Hi _ IH]; [reflexivity |].
  cbn [map combine]. rewrite IH. f_equal.
  symmetry. apply combine_nth. lia.
Qed.

Lemma combine_map {A B A' B' : Type} (fa : A -> A') (fb : B -> B')
    (a : list A) (b : list B) :
  combine (map fa a) (map fb b)
  = map (fun ab => (fa (fst ab), fb (snd ab))) (combine a b).
Proof.
  revert b. induction a as [| a0 a IH]; intros [| b0 b]; try reflexivity.
  cbn [map combine fst snd]. now rewrite IH.
Qed.

(** The loss in terms of its weighted steps. *)
Lemma criterion_rows_weighted (rows : list step_data) (masks : list R) :
  length rows = length masks ->
  criterion_rows rows masks = weighted_loss (combine rows masks).
Proof.
  intros Hlen. unfold criterion_rows, weighted_loss.
  assert (E1 : map2 (fun t mk => xmul t (Fin mk)) (map step_term rows) masks
               = map (fun sm => xmul (step_term (fst sm)) (Fin (snd sm)))
                     (combine rows masks)).
  { revert masks Hlen. induction rows as [| d rows IH]; intros [| mk masks] H;
      simpl in *; try lia; [reflexivity |].
    f_equal. apply IH. lia. }
  assert (E2 : masks = map snd (combine rows masks)).
  { clear E1. revert masks Hlen. induction rows as [| d rows IH]; intros [| mk masks] H;
      simpl in *; try lia; [reflexivity |].
    f_equal. apply IH. lia. }
  rewrite E1. rewrite E2 at 2. reflexivity.
Qed.

Lemma Rsum_perm (l l' : list R) : Permutation l l' -> Rsum l = Rsum l'.
Proof.
  induction 1 as [| a l l' _ IH | a b l | l l' l'' _ IH1 _ IH2]; simpl;
    lra.
Qed.

(** The loss does not depend on the order of its weighted steps. *)
Lemma weighted_loss_perm (l l' : list (step_data * R)) :
  Permutation l l' -> weighted_loss l = weighted_loss l'.
Proof.
  intros H. unfold weighted_loss.
  rewrite (xsum_perm _ _ (Permutation_map _ H)).
  now rewrite (Rsum_perm _ _ (Permutation_map snd H)).
Qed.

Lemma length_concat_dims {A : Type} (n b : nat) (t : list (list A)) :
  dims2 n b t -> length (concat t) = (n * b)%nat.
Proof.
  intros [Hn Ht]. subst n.
  induction Ht as [| row t Hrow _ IH]; [reflexivity |].
  simpl. rewrite length_app, IH. unfold dims1 in Hrow. lia.
Qed.

Lemma dims2_cons {A : Type} (n b : nat) (t : list (list A)) :
  dims2 (S n) b t ->
  exists row t', t = row :: t' /\ length row = b /\ dims2 n b t'.
Proof.
  intros [Hn Ht]. destruct t as [| row t']; [discriminate |].
  inversion Ht; subst. exists row, t'. repeat split; auto.
Qed.

(** The weighted steps of the flattened tensors, time step by time
    step. *)
Lemma weighted_steps_by_time (n b : nat)
    (x : list (list (list R))) (e : list (list R))
    (log_pi mu sigma rho : list (list (list R))) (masks : list (list R)) :
  dims2 n b x -> dims2 n b e -> dims2 n b log_pi -> dims2 n b mu ->
  dims2 n b sigma -> dims2 n b rho -> dims2 n b masks ->
  combine (zip6 (concat x) (concat e) (concat log_pi) (concat mu)
                (concat sigma) (concat rho))
          (concat masks)
  = flat_map block (combine (zip6 x e log_pi mu sigma rho) masks).
Proof.
  revert x e log_pi mu sigma rho masks.
  induction n as [| n IH]; intros x e log_pi mu sigma rho masks
                                  Hx He Hp Hu Hs Hr Hm.
  - destruct Hx as [Hx _]. destruct x; [reflexivity | discriminate].
  - apply dims2_cons in Hx as (x0 & x' & -> & Lx & Hx).
    apply dims2_cons in He as (e0 & e' & -> & Le & He).
    apply dims2_cons in Hp as (p0 & p' & -> & Lp & Hp).
    apply dims2_cons in Hu as (u0 & u' & -> & Lu & Hu).
    apply dims2_cons in Hs as (s0 & s' & -> & Ls & Hs).
    apply dims2_cons in Hr as (r0 & r' & -> & Lr & Hr).
    apply dims2_cons in Hm as (m0 & m' & -> & Lm & Hm).
    cbn [concat zip6 combine flat_map block].
    rewrite zip6_app by congruence.
    rewrite combine_app_eq
      by (rewrite (length_zip6 b) by assumption; congruence).
    now rewrite (IH x' e' p' u' s' r' m').
Qed.

Lemma in_zip6 {A B C D E F : Type} (a : list A) (b : list B) (c : list C)
    (d : list D) (e : list E) (f : list F) (z : A * B * C * D * E * F) :
  In z (zip6 a b c d e f) ->
  let '(a0, b0, c0, d0, e0, f0) := z in
  In a0 a /\ In b0 b /\ In c0 c /\ In d0 d /\ In e0 e /\ In f0 f.
Proof.
  revert b c d e f.
  induction a as [| a0 a IH];
    intros [| b0 b] [| c0 c] [| d0 d] [| e0 e] [| f0 f];
    try (now intros []).
  cbn [zip6]. intros [<- | Hin].
  - repeat split; now left.
  - specialize (IH _ _ _ _ _ Hin).
    destruct z as [[[[[a1 b1] c1] d1] e1] f1].
    destruct IH as (? & ? & ? & ? & ? & ?). repeat split; now right.
Qed.

Lemma flat_map_perm_pointwise {A B : Type} (f g : A -> list B) (l : list A) :
  (forall a, In a l -> Permutation (f a) (g a)) ->
  Permutation (flat_map f l) (flat_map g l).
Proof.
  induction l as [| a l IH]; intros H; [constructor |].
  simpl. apply Permutation_app.
  - apply H. now left.
  - apply IH. intros a' Ha'. apply H. now right.
Qed.

Lemma flat_map_map_comp {A B C : Type} (g : A -> B) (f : B -> list C)
    (l : list A) :
  flat_map f (map g l) = flat_map (fun a => f (g a)) l.
Proof.
  induction l as [| a l IH]; [reflexivity |]. simpl. now rewrite IH.
Qed.

Lemma dims2_reorder {A : Type} (n b : nat) (p q : list nat) (d : A)
    (t : list (list A)) :
  dims2 n b t -> Forall (fun i => (i < n)%nat) p -> length p = n ->
  length q = b ->
  dims2 n b (permute [] p (map (permute d q) t)).
Proof.
  intros [Hn Ht] Hp Lp Lq. unfold permute at 1. split.
  - now rewrite length_map.
  - apply Forall_map. eapply Forall_impl; [| exact Hp].
    intros i Hi. cbv beta in Hi. unfold dims1.
    rewrite (nth_map_in _ _ i [] []) by lia.
    unfold permute. now rewrite length_map.
Qed.

(** One time step after the reordering of its batch entries. *)
Lemma block_reordered (b : nat) (q : list nat)
    (x : list (list R)) (e : list R) (log_pi mu sigma rho : list (list R))
    (masks : list R) :
  Permutation q (seq 0 b) ->
  length x = b -> length e = b -> length log_pi = b -> length mu = b ->
  length sigma = b -> length rho = b -> length masks = b ->
  Permutation
    (block (permute [] q x, permute 0 q e, permute [] q log_pi,
            permute [] q mu, permute [] q sigma, permute [] q rho,
            permute 0 q masks))
    (block (x, e, log_pi, mu, sigma, rho, masks)).
Proof.
  intros Hq Lx Le Lp Lu Ls Lr Lm. unfold block.
  pose proof (Permutation_seq_bound q b Hq) as Hb.
  rewrite (zip6_permute b) by assumption.
  rewrite (combine_permute b)
    by (try assumption; now apply (length_zip6 b)).
  apply permute_Permutation.
  rewrite length_combine, (length_zip6 b), Lm, Nat.min_id by assumption.
  exact Hq.
Qed.

(** X24.  The loss does not depend on the order of the time steps or of
    the sequences of the batch.  Reordering the time axis of all seven
    arguments of [criterion] by one permutation and their batch axis by
    another leaves the returned value unchanged, special values
    included. *)
Theorem criterion_order_invariant (n b : nat) (p q : list nat)
    (x : list (list (list R))) (e : list (list R))
    (log_pi mu sigma rho : list (list (list R))) (masks : list (list R)) :
  Permutation p (seq 0 n) -> Permutation q (seq 0 b) ->
  dims2 n b x -> dims2 n b e -> dims2 n b log_pi -> dims2 n b mu ->
  dims2 n b sigma -> dims2 n b rho -> dims2 n b masks ->
  criterion (permute [] p (map (permute [] q) x))
            (permute [] p (map (permute 0 q) e))
            (permute [] p (map (permute [] q) log_pi))
            (permute [] p (map (permute [] q) mu))
            (permute [] p (map (permute [] q) sigma))
            (permute [] p (map (permute [] q) rho))
            (permute [] p (map (permute 0 q) masks))
  = criterion x e log_pi mu sigma rho masks.
Proof.
  intros Hp Hq Hx He Hpi Hu Hs Hr Hm.
  pose proof (Permutation_seq_bound p n Hp) as Bp.
  assert (Lp : length p = n)
    by (rewrite (Permutation_length Hp); apply length_seq).
  assert (Lq : length q = b)
    by (rewrite (Permutation_length Hq); apply length_seq).
  assert (Hside : forall x e log_pi mu sigma rho masks,
             dims2 n b x -> dims2 n b e -> dims2 n b log_pi ->
             dims2 n b mu -> dims2 n b sigma -> dims2 n b rho ->
             dims2 n b masks ->
             criterion x e log_pi mu sigma rho masks
             = weighted_loss
                 (flat_map block
                    (combine (zip6 x e log_pi mu sigma rho) masks))).
  { clear. intros x e log_pi mu sigma rho masks Hx He Hpi Hu Hs Hr Hm.
    rewrite criterion_by_rows, steps_zip6. unfold view_rows.
    rewrite criterion_rows_weighted.
    - now rewrite (weighted_steps_by_time n b).
    - rewrite (length_concat_dims n b masks Hm).
      apply length_zip6; now apply length_concat_dims. }
  rewrite (Hside x e log_pi mu sigma rho masks) by assumption.
  rewrite Hside by now apply dims2_reorder.
  apply weighted_loss_perm.
  destruct Hx as [Lx Fx], He as [Le Fe], Hpi as [Lpi Fpi], Hu as [Lu Fu],
           Hs as [Ls Fs], Hr as [Lr Fr], Hm as [Lm Fm].
  rewrite (zip6_permute n) by (try assumption; now rewrite length_map).
  rewrite (combine_permute n)
    by (try assumption; rewrite ?length_map; try assumption;
        apply (length_zip6 n); now rewrite length_map).
  rewrite zip6_map, combine_map.
  set (W := combine (zip6 x e log_pi mu sigma rho) masks).
  etransitivity.
  - apply Permutation_flat_map, permute_Permutation.
    rewrite length_map. unfold W.
    rewrite length_combine, (length_zip6 n), Lm, Nat.min_id by assumption.
    exact Hp.
  - rewrite flat_map_map_comp. apply flat_map_perm_pointwise.
    intros [[[[[[x0 e0] p0] u0] s0] r0] m0] Hin. unfold W in Hin.
    pose proof (in_combine_l _ _ _ _ Hin) as Hz.
    pose proof (in_combine_r _ _ _ _ Hin) as Hm0.
    apply in_zip6 in Hz. destruct Hz as (Hx0 & He0 & Hp0 & Hu0 & Hs0 & Hr0).
    rewrite Forall_forall in Fx, Fe, Fpi, Fu, Fs, Fr, Fm.
    cbn [fst snd].
    apply (block_reordered b); auto.
    + now apply Fx.
    + now apply Fe.
    + now apply Fpi.
    + now apply Fu.
    + now apply Fs.
    + now apply Fr.
    + now apply Fm.
Qed.

Lemma criterion_order_invariant_witness :
  criterion
    (permute [] [1; 0]%nat (map (permute [] [1; 0]%nat)
       [[[0; 0; 0]; [1; 1; 2]]; [[0; 3; 4]; [1; 5; 6]]]))
    (permute [] [1; 0]%nat (map (permute 0 [1; 0]%nat)
       [[1 / 2; 1 / 3]; [1 / 4; 1 / 5]]))
    (permute [] [1; 0]%nat (map (permute [] [1; 0]%nat)
       [[[0]; [1]]; [[2]; [3]]]))
    (permute [] [1; 0]%nat (map (permute [] [1; 0]%nat)
       [[[0; 0]; [1; 1]]; [[2; 2]; [3; 3]]]))
    (permute [] [1; 0]%nat (map (permute [] [1; 0]%nat)
       [[[1; 1]; [2; 2]]; [[3; 3]; [4; 4]]]))
    (permute [] [1; 0]%nat (map (permute [] [1; 0]%nat)
       [[[0]; [1 / 2]]; [[- (1 / 2)]; [1 / 4]]]))
    (permute [] [1; 0]%nat (map (permute 0 [1; 0]%nat) [[1; 1]; [1; 0]]))
  = criterion
      [[[0; 0; 0]; [1; 1; 2]]; [[0; 3; 4]; [1; 5; 6]]]
      [[1 / 2; 1 / 3]; [1 / 4; 1 / 5]]
      [[[0]; [1]]; [[2]; [3]]]
      [[[0; 0]; [1; 1]]; [[2; 2]; [3; 3]]]
      [[[1; 1]; [2; 2]]; [[3; 3]; [4; 4]]]
      [[[0]; [1 / 2]]; [[- (1 / 2)]; [1 / 4]]]
      [[1; 1]; [1; 0]].
Proof.
  apply (criterion_order_invariant 2 2).
  - apply perm_swap.
  - apply perm_swap.
  - repeat constructor.
  - repeat constructor.
  - repeat constructor.
  - repeat constructor.
  - repeat constructor.
  - repeat constructor.
  - repeat constructor.
Defined.

End LossOrderFacts.
